(** * LocalSocial: post publishing queue, retry policy and rate gate

    A shallow embedding of [src/lib/facebook.js] (rate limit tracker and the
    Graph API wrappers used by the queue), of [db.getScheduledPosts] and
    [db.updateScheduledPost] from [src/lib/supabase.js], and of the post
    queue processor (the module importing both, [postQueue]).

    Conventions.
    - Timestamps are integers, milliseconds since the epoch, as [Date.now()]
      returns them.  An ISO string produced by [toISOString()] is identified
      with the timestamp it prints.
    - A JavaScript exception is a value of [JsError]; an [async] function is
      a computation in the monad [M], which threads the world (table of
      scheduled posts, rate limit tracker, clock reads, outbound requests)
      and either returns or throws.
    - Everything the program cannot decide itself comes from an environment
      [Env]: the successive readings of the clock and the answers of the
      Graph API.
    - A call runs alone between two of its [await]s.  [processPost] and the
      wrappers are modelled running alone to their end; [processQueue],
      [cancelPost] and [retryPost], whose behaviour depends on what other
      calls do while they wait, are modelled with their waits: the first as
      a step function over the resumptions of its passes, the other two
      with what the other calls do in between as an argument.
    - The table of scheduled posts is held in the world and answers
      reliably; what the database does on its own (row level security, the
      trigger that stamps [updated_at]) is not modelled, and no statement
      below is about [updated_at]. *)

From Stdlib Require Import ZArith List Lia Bool.
From stdpp Require Import gmap strings list fin_maps pretty sorting.
Local Open Scope Z_scope.

(** ** JavaScript helpers *)

Module Js.

(** [WhiteSpace] and [LineTerminator] code units below 256, the ones
    [String.prototype.trim] strips: TAB, LF, VT, FF, CR, SP, NBSP. *)
Definition isWhiteSpace (c : Ascii.ascii) : bool :=
  let n := Ascii.N_of_ascii c in
  ((9 <=? n) && (n <=? 13) || (n =? 32) || (n =? 160))%N.

Fixpoint trimStart (s : string) : string :=
  match s with
  | EmptyString => EmptyString
  | String c s' => if isWhiteSpace c then trimStart s' else s
  end.

(** Strips trailing white space: a white space character is dropped when
    everything after it has been dropped too. *)
Fixpoint trimEnd (s : string) : string :=
  match s with
  | EmptyString => EmptyString
  | String c s' =>
      match trimEnd s' with
      | EmptyString => if isWhiteSpace c then EmptyString else String c EmptyString
      | t => String c t
      end
  end.

Definition trim (s : string) : string := trimEnd (trimStart s).

(** Truthiness of a string: only the empty string is falsy. *)
Definition truthy (s : string) : bool :=
  match s with EmptyString => false | _ => true end.

(** Truthiness of [x] where [x] is a string, [null] or [undefined]. *)
Definition truthy_opt (s : option string) : bool :=
  match s with Some s => truthy s | None => false end.

(** [s?.trim()] as a truth value: [!s?.trim()] is [negb (truthy_trim s)]. *)
Definition truthy_trim (s : option string) : bool :=
  match s with Some s => truthy (trim s) | None => false end.

(** [Math.ceil(x / d)] on integers, for a positive divisor.  On the
    doubles of JavaScript the quotient of two integers of this size is
    either exact or further from an integer than its rounding error, so the
    ceiling is the same. *)
Definition ceil_div (x d : Z) : Z := - ((- x) / d).

(** [n || 0] where [n] is a number, [null] or [undefined]. *)
Definition or_zero (n : option Z) : Z :=
  match n with Some n => n | None => 0 end.

End Js.

(** ** Exceptions *)

(** [ERROR_TYPES] of the post queue. *)
Inductive ERROR_TYPES :=
| RATE_LIMIT | API_ERROR | NETWORK_ERROR | INVALID_TOKEN
| MISSING_ACCOUNT | INVALID_CONTENT | UNKNOWN.

(** The [code] of a [FacebookAPIError]: a string constant of the wrappers or
    whatever [data.error.code] the Graph API sent (a number or a string). *)
Inductive JsCode :=
| CodeStr (s : string)
| CodeNum (n : Z).

(** The classes of thrown values the modelled code distinguishes with
    [instanceof].  [RateLimitError] extends [FacebookAPIError]; its code is
    ['RATE_LIMIT_EXCEEDED'].  [PostQueueError] extends [Error] only.
    [OtherError] is any other [Error] (a [TypeError], a [RangeError]). *)
Inductive JsError :=
| OtherError (message : string)
| FacebookAPIError (message : string) (code : JsCode)
| RateLimitError (message : string) (retryAfter : Z)
| PostQueueError (message : string) (type : ERROR_TYPES) (retryable : bool).

Definition error_message (e : JsError) : string :=
  match e with
  | OtherError m | FacebookAPIError m _ | RateLimitError m _
  | PostQueueError m _ _ => m
  end.

(** [e instanceof RateLimitError] *)
Definition instanceof_RateLimitError (e : JsError) : bool :=
  match e with RateLimitError _ _ => true | _ => false end.

(** [e instanceof FacebookAPIError] *)
Definition instanceof_FacebookAPIError (e : JsError) : bool :=
  match e with FacebookAPIError _ _ | RateLimitError _ _ => true | _ => false end.

(** [e instanceof PostQueueError] *)
Definition instanceof_PostQueueError (e : JsError) : bool :=
  match e with PostQueueError _ _ _ => true | _ => false end.

(** [e.code], for an instance of [FacebookAPIError]. *)
Definition error_code (e : JsError) : option JsCode :=
  match e with
  | FacebookAPIError _ c => Some c
  | RateLimitError _ _ => Some (CodeStr "RATE_LIMIT_EXCEEDED")
  | _ => None
  end.

(** Completion of a call: a returned value or a thrown exception. *)
Inductive Outcome (A : Type) :=
| Returned (a : A)
| Thrown (e : JsError).
Arguments Returned {A} a.
Arguments Thrown {A} e.

(** ** The rate limit tracker of [facebook.js] *)

Module RateLimit.

Record Tracker := {
  requests : Z;
  resetTime : Z;
  maxRequests : Z
}.

(** [60 * 60 * 1000]: the window is one hour. *)
Definition windowLength : Z := 60 * 60 * 1000.

(** The window roll at the head of [checkLimit]. *)
Definition roll (now : Z) (t : Tracker) : Tracker :=
  if now >? resetTime t
  then {| requests := 0; resetTime := now + windowLength;
          maxRequests := maxRequests t |}
  else t.

Definition waitTime (now : Z) (t : Tracker) : Z :=
  Js.ceil_div (resetTime t - now) 1000.

Definition exceeded (wait : Z) : JsError :=
  RateLimitError
    ("Rate limit exceeded. Try again in " +:+ pretty wait +:+ " seconds.")
    wait.

(** [rateLimitTracker.checkLimit()], [now] being what [Date.now()]
    returned. *)
Definition checkLimit (now : Z) (t : Tracker) : Outcome unit * Tracker :=
  let t := roll now t in
  if requests t >=? maxRequests t
  then (Thrown (exceeded (waitTime now t)), t)
  else (Returned tt,
        {| requests := requests t + 1; resetTime := resetTime t;
           maxRequests := maxRequests t |}).

(** The tracker after [k] more granted checks in the same window. *)
Definition bump (t : Tracker) (k : Z) : Tracker :=
  {| requests := requests t + k; resetTime := resetTime t;
     maxRequests := maxRequests t |}.

(** Successive permission checks, one per clock reading. *)
Fixpoint checkLimits (nows : list Z) (t : Tracker)
  : list (Outcome unit) * Tracker :=
  match nows with
  | [] => ([], t)
  | now :: nows' =>
      let '(o, t1) := checkLimit now t in
      let '(os, t2) := checkLimits nows' t1 in
      (o :: os, t2)
  end.

(** [facebookAPI.getRateLimitStatus()] *)
Record Status := {
  st_requests : Z;
  st_remaining : Z;
  st_maxRequests : Z;
  st_resetIn : Z;
  st_resetTime : Z
}.

Definition getRateLimitStatus (now : Z) (t : Tracker) : Status :=
  {| st_requests := requests t;
     st_remaining := Z.max 0 (maxRequests t - requests t);
     st_maxRequests := maxRequests t;
     st_resetIn := if resetTime t >? now then waitTime now t else 0;
     st_resetTime := resetTime t |}.

End RateLimit.

(** ** The scheduled_posts table, as the queue sees it *)

(** [POST_STATUS] *)
Inductive POST_STATUS :=
| SCHEDULED | PROCESSING | POSTING | POSTED | FAILED | CANCELLED.

Global Instance POST_STATUS_eq_dec : EqDecision POST_STATUS.
Proof. solve_decision. Defined.

(** The embedded [social_accounts] record of a due post. *)
Record Account := {
  platform : string;
  account_id : string;
  access_token : string;
  is_active : bool
}.

(** A row of [scheduled_posts], without its primary key [id]: the table is
    a map from ids to rows.  [null] columns are [None]. *)
Record Row := {
  user_id : string;
  content : option string;
  media_urls : option (list string);
  scheduled_for : Z;
  status : POST_STATUS;
  retry_count : option Z;
  error_message_of : option string;
  platform_post_id : option string;
  updated_at : Z
}.

(** A post as a query returns it: the id, the other columns and the embedded
    account, [null] when the join found none. *)
Record Post := {
  id : string;
  row : Row;
  social_accounts : option Account
}.

(** The object literal handed to [db.updateScheduledPost]: a column that is
    not mentioned is [None]; [error_message: null] is [Some None].  A key
    whose value is [undefined] is dropped when the object is serialised, so
    it counts as not mentioned. *)
Record Updates := {
  set_status : option POST_STATUS;
  set_updated_at : option Z;
  set_scheduled_for : option Z;
  set_retry_count : option Z;
  set_error_message : option (option string);
  set_platform_post_id : option string
}.

Definition no_updates : Updates :=
  {| set_status := None; set_updated_at := None; set_scheduled_for := None;
     set_retry_count := None; set_error_message := None;
     set_platform_post_id := None |}.

(** [UPDATE scheduled_posts SET ... ] on one row: mentioned columns are
    overwritten, the others kept. *)
Definition apply_updates (u : Updates) (r : Row) : Row :=
  {| user_id := user_id r;
     content := content r;
     media_urls := media_urls r;
     scheduled_for := default (scheduled_for r) (set_scheduled_for u);
     status := default (status r) (set_status u);
     retry_count :=
       match set_retry_count u with Some n => Some n | None => retry_count r end;
     error_message_of := default (error_message_of r) (set_error_message u);
     platform_post_id :=
       match set_platform_post_id u with
       | Some p => Some p
       | None => platform_post_id r
       end;
     updated_at := default (updated_at r) (set_updated_at u) |}.

(** ** The world and the environment *)

(** One outbound request to the Graph API: the endpoint and the parameters
    sent (query string or form body), as [URLSearchParams] lists them. *)
Inductive Endpoint :=
| DebugToken
| Feed (pageId : string)
| Photos (pageId : string)
| Media (instagramAccountId : string)
| MediaPublish (instagramAccountId : string).

Record Request := {
  endpoint : Endpoint;
  params : list (string * string)
}.

(** The [error] member of a Graph API answer. *)
Record GraphError := {
  ge_message : option string;
  ge_code : option JsCode
}.

(** The parsed JSON answer, restricted to the members the wrappers read.
    [b_is_valid] is the truth value of [data.data?.is_valid]. *)
Record Body := {
  b_error : option GraphError;
  b_is_valid : bool;
  b_id : option string;
  b_post_id : option string
}.

(** What [fetch] followed by [response.json()] gives: a rejection (network
    failure, unparsable answer), or [response.ok] and the parsed body
    ([None] for the JSON value [null]). *)
Inductive Response :=
| Rejected (message : string)
| Answered (ok : bool) (data : option Body).

Record Env := {
  clock : nat -> Z;                (** the n-th reading of [Date.now()] *)
  net : nat -> Request -> Response (** the answer to the n-th request *)
}.

Record World := {
  scheduled_posts : gmap string Row;
  tracker : RateLimit.Tracker;
  reads : nat;           (** clock readings taken so far *)
  trace : list Request   (** outbound requests made so far, oldest first *)
}.

Definition with_posts (w : World) (t : gmap string Row) : World :=
  {| scheduled_posts := t; tracker := tracker w; reads := reads w;
     trace := trace w |}.

Definition with_tracker (w : World) (t : RateLimit.Tracker) : World :=
  {| scheduled_posts := scheduled_posts w; tracker := t; reads := reads w;
     trace := trace w |}.

(** ** The monad of asynchronous calls *)

Definition M (A : Type) : Type := World -> Outcome A * World.

Definition ret {A} (a : A) : M A := fun w => (Returned a, w).

Definition throw {A} (e : JsError) : M A := fun w => (Thrown e, w).

Definition bind {A B} (m : M A) (k : A -> M B) : M B :=
  fun w =>
    match m w with
    | (Returned a, w') => k a w'
    | (Thrown e, w') => (Thrown e, w')
    end.

(** [try { m } catch (error) { h error }] *)
Definition try_catch {A} (m : M A) (h : JsError -> M A) : M A :=
  fun w =>
    match m w with
    | (Returned a, w') => (Returned a, w')
    | (Thrown e, w') => h e w'
    end.

(** A call that waits at an [await] lets the other asynchronous calls of
    the program run: [others] is what they do to the world meanwhile. *)
Definition await_others (others : World -> World) : M unit :=
  fun w => (Returned tt, others w).

Notation "'let!' x := m 'in' k" := (bind m (fun x => k))
  (at level 10, x name, m at level 100, k at level 200).
Notation "m >> k" := (bind m (fun _ => k))
  (at level 90, right associativity).

Section Effects.
Context (env : Env).

(** [Date.now()] *)
Definition Date_now : M Z :=
  fun w =>
    (Returned (clock env (reads w)),
     {| scheduled_posts := scheduled_posts w; tracker := tracker w;
        reads := S (reads w); trace := trace w |}).

(** [await fetch(...)] then [await response.json()] *)
Definition fetch (r : Request) : M Response :=
  fun w =>
    (Returned (net env (length (trace w)) r),
     {| scheduled_posts := scheduled_posts w; tracker := tracker w;
        reads := reads w; trace := trace w ++ [r] |}).

(** [rateLimitTracker.checkLimit()] on the one tracker of the module. *)
Definition checkLimit : M unit :=
  let! now := Date_now in
  fun w =>
    let '(o, t) := RateLimit.checkLimit now (tracker w) in
    (o, with_tracker w t).

End Effects.

(** ** The Graph API wrappers of [facebook.js] used by the queue *)

Module Facebook.

(** [x || fallback] for a string member that may be absent. *)
Definition or_string (x : option string) (fallback : string) : string :=
  match x with
  | Some s => if Js.truthy s then s else fallback
  | None => fallback
  end.

(** [data.error?.code || fallback]: a present code is kept unless it is
    falsy (the empty string, the number 0). *)
Definition or_code (x : option JsCode) (fallback : string) : JsCode :=
  match x with
  | Some (CodeStr s) => if Js.truthy s then CodeStr s else CodeStr fallback
  | Some (CodeNum n) => if n =? 0 then CodeStr fallback else CodeNum n
  | None => CodeStr fallback
  end.

(** The message of the [TypeError] raised by reading a member of [null];
    its text depends on the engine and no branch inspects it. *)
Definition null_member_message : string := "Cannot read properties of null".

(** [new FacebookAPIError(data.error?.message || m, data.error?.code || c)],
    or the [TypeError] of [data.error] when [data] is [null]. *)
Definition api_failure (data : option Body) (m c : string) : JsError :=
  match data with
  | None => OtherError null_member_message
  | Some b =>
      FacebookAPIError
        (or_string (b_error b ≫= ge_message) m)
        (or_code (b_error b ≫= ge_code) c)
  end.

(** The [catch] clause shared by the publishing wrappers:
    [if (error instanceof FacebookAPIError) throw error] and otherwise a
    [FacebookAPIError] with code ['NETWORK_ERROR']. *)
Definition rethrow {A} (error : JsError) : M A :=
  if instanceof_FacebookAPIError error then throw error
  else throw (FacebookAPIError ("Network error: " +:+ error_message error)
                               (CodeStr "NETWORK_ERROR")).

(** The body of the [try] block shared by the publishing wrappers: send
    the request, throw on a rejection or on [!response.ok], return the
    parsed body otherwise. *)
Definition answer_or_throw (r : Response) (m c : string) : M (option Body) :=
  match r with
  | Rejected msg => throw (OtherError msg)
  | Answered false data => throw (api_failure data m c)
  | Answered true data => ret data
  end.

(** The [postData] of [publishPagePost] and [publishPagePhoto]. *)
Record PagePostData := {
  pd_message : option string;
  pd_url : option string;
  pd_link : option string;
  pd_published : option bool;
  pd_scheduled_publish_time : option Z
}.

(** [published ? 'true' : 'false'], with the default [published = true]. *)
Definition published_param (p : option bool) : string :=
  if default true p then "true" else "false".

(** The optional [scheduled_publish_time] of both page wrappers: when
    truthy it overrides [published] and is sent in seconds. *)
Definition with_schedule (t : option Z) (payload : list (string * string))
  : list (string * string) :=
  match t with
  | Some ms =>
      if ms =? 0 then payload
      else map (fun kv => if String.eqb (fst kv) "published"
                          then ("published", "false") else kv) payload
           ++ [("scheduled_publish_time", pretty (ms / 1000))]
  | None => payload
  end.

(** The [valid] member of what [validateToken] returns for an answer:
    [data.data?.is_valid || false] when [response.ok], and [false] when
    not, when the request failed or when the body is [null]. *)
Definition valid_of (r : Response) : bool :=
  match r with
  | Rejected _ => false
  | Answered false _ => false
  | Answered true None => false
  | Answered true (Some b) => b_is_valid b
  end.

(** The request of [validateToken]. *)
Definition debug_token (accessToken : string) : Request :=
  {| endpoint := DebugToken; params := [("input_token", accessToken)] |}.

Section WithEnv.
Context (env : Env).

(** [facebookAPI.validateToken(accessToken)]; only the [valid] member of
    the result is modelled.  The permission check is outside the [try],
    so a denial rejects the call; inside it every failure yields
    [{ valid: false }]. *)
Definition validateToken (accessToken : string) : M bool :=
  checkLimit env >>
  let! r := fetch env (debug_token accessToken) in
  ret (valid_of r).

(** [facebookAPI.publishPagePost(pageId, pageAccessToken, postData)] *)
Definition publishPagePost (pageId pageAccessToken : string)
    (postData : PagePostData) : M (option Body) :=
  checkLimit env >>
  if negb (Js.truthy_trim (pd_message postData))
  then throw (FacebookAPIError "Post message cannot be empty"
                               (CodeStr "EMPTY_MESSAGE"))
  else
    let payload :=
      [("message", Js.trim (default "" (pd_message postData)));
       ("published", published_param (pd_published postData));
       ("access_token", pageAccessToken)]
      ++ (if Js.truthy_opt (pd_link postData)
          then [("link", default "" (pd_link postData))] else []) in
    let payload :=
      with_schedule (pd_scheduled_publish_time postData) payload in
    try_catch
      (let! r := fetch env {| endpoint := Feed pageId; params := payload |} in
       answer_or_throw r "Failed to publish post" "PUBLISH_FAILED")
      rethrow.

(** [facebookAPI.publishPagePhoto(pageId, pageAccessToken, postData)] *)
Definition publishPagePhoto (pageId pageAccessToken : string)
    (postData : PagePostData) : M (option Body) :=
  checkLimit env >>
  if negb (Js.truthy_opt (pd_url postData))
  then throw (FacebookAPIError "Photo URL is required"
                               (CodeStr "MISSING_PHOTO_URL"))
  else
    let payload :=
      [("url", default "" (pd_url postData));
       ("published", published_param (pd_published postData));
       ("access_token", pageAccessToken)]
      ++ (if Js.truthy_trim (pd_message postData)
          then [("caption", Js.trim (default "" (pd_message postData)))]
          else []) in
    let payload :=
      with_schedule (pd_scheduled_publish_time postData) payload in
    try_catch
      (let! r := fetch env {| endpoint := Photos pageId; params := payload |} in
       answer_or_throw r "Failed to publish photo" "PHOTO_PUBLISH_FAILED")
      rethrow.

(** [facebookAPI.createInstagramPost(instagramAccountId, pageAccessToken,
    { image_url, caption, media_type })] *)
Definition createInstagramPost (instagramAccountId pageAccessToken : string)
    (image_url : option string) (caption : option string)
    (media_type : string) : M (option Body) :=
  checkLimit env >>
  if negb (Js.truthy_opt image_url)
  then throw (FacebookAPIError "Image URL is required for Instagram posts"
                               (CodeStr "MISSING_IMAGE_URL"))
  else
    let payload :=
      [("image_url", default "" image_url);
       ("media_type", media_type);
       ("access_token", pageAccessToken)]
      ++ (if Js.truthy_trim caption
          then [("caption", Js.trim (default "" caption))] else []) in
    try_catch
      (let! r := fetch env {| endpoint := Media instagramAccountId;
                              params := payload |} in
       answer_or_throw r "Failed to create Instagram media"
                       "INSTAGRAM_CREATE_FAILED")
      rethrow.

(** [facebookAPI.publishInstagramPost(instagramAccountId, creationId,
    pageAccessToken)]; an [undefined] creation id is sent as the text
    ["undefined"]. *)
Definition publishInstagramPost (instagramAccountId : string)
    (creationId : option string) (pageAccessToken : string)
  : M (option Body) :=
  checkLimit env >>
  let payload :=
    [("creation_id", default "undefined" creationId);
     ("access_token", pageAccessToken)] in
  try_catch
    (let! r := fetch env {| endpoint := MediaPublish instagramAccountId;
                            params := payload |} in
     answer_or_throw r "Failed to publish Instagram media"
                     "INSTAGRAM_PUBLISH_FAILED")
    rethrow.

End WithEnv.

End Facebook.

(** ** The persistence helpers of [supabase.js] used by the queue

    The table is held in the world and is reliable: a statement fails only
    for the reason the query itself gives (no row with the id). *)

Module Supabase.

(** [.order('scheduled_for', { ascending: true })]; rows with equal
    times come in an order the database does not fix. *)
Definition by_scheduled_for (a b : string * Row) : Prop :=
  scheduled_for a.2 ≤ scheduled_for b.2.

Global Instance by_scheduled_for_dec a b : Decision (by_scheduled_for a b).
Proof. unfold by_scheduled_for. apply _. Defined.

(** [db.getScheduledPosts(userId, limit = 50)]: the [posts] member. *)
Definition getScheduledPosts (table : gmap string Row) (userId : string)
    (limit : nat) : list (string * Row) :=
  take limit
    (merge_sort by_scheduled_for
       (filter (fun kv => user_id kv.2 = userId) (map_to_list table))).

Definition default_limit : nat := 50.

(** The message of the error [.single()] gives when no row matched. *)
Definition no_rows_message : string :=
  "JSON object requested, multiple (or no) rows returned".

(** [db.updateScheduledPost(postId, updates)]: the [error] member, [None]
    for [null].  The helper never throws. *)
Definition updateScheduledPost (postId : string) (updates : Updates)
  : M (option string) :=
  fun w =>
    match scheduled_posts w !! postId with
    | Some r =>
        (Returned None,
         with_posts w (<[postId := apply_updates updates r]> (scheduled_posts w)))
    | None => (Returned (Some no_rows_message), w)
    end.

End Supabase.

(** ** The post queue processor *)

Module PostQueue.

(** [this.retryDelays]: 30s, 1m, 5m, 15m. *)
Definition retryDelays : list Z := [30000; 60000; 300000; 900000].

(** [this.maxRetries] *)
Definition maxRetries : Z := 3.

(** What a publisher returns. *)
Record PublishResult := {
  result_platform_post_id : option string;
  result_platform : string
}.

Definition lift {A} (o : Outcome A) : M A := fun w => (o, w).

(** [validatePost(post)] *)
Definition validatePost (post : Post) : Outcome unit :=
  match social_accounts post with
  | None =>
      Thrown (PostQueueError "Social account not found" MISSING_ACCOUNT false)
  | Some account =>
      if negb (is_active account)
      then Thrown (PostQueueError "Social account is inactive"
                                  MISSING_ACCOUNT false)
      else if negb (Js.truthy_trim (content (row post)))
      then Thrown (PostQueueError "Post content is empty" INVALID_CONTENT false)
      else if negb (Js.truthy (access_token account))
      then Thrown (PostQueueError "Access token missing" INVALID_TOKEN true)
      else Returned tt
  end.

(** [post.media_urls && post.media_urls.length > 0] *)
Definition has_media (post : Post) : bool :=
  match media_urls (row post) with
  | Some (_ :: _) => true
  | _ => false
  end.

(** [post.media_urls[0]] *)
Definition first_media (post : Post) : option string :=
  media_urls (row post) ≫= head.

(** [error.code !== 'OAuthException'] *)
Definition code_is_not_OAuthException (error : JsError) : bool :=
  match error_code error with
  | Some (CodeStr s) => negb (String.eqb s "OAuthException")
  | _ => true
  end.

(** The [catch] clause of both publishers. *)
Definition classify {A} (error : JsError) : M A :=
  if instanceof_RateLimitError error
  then throw (PostQueueError (error_message error) RATE_LIMIT true)
  else if instanceof_FacebookAPIError error
  then throw (PostQueueError (error_message error) API_ERROR
                             (code_is_not_OAuthException error))
  else throw (PostQueueError (error_message error) NETWORK_ERROR true).

(** [x || y] on two optional strings. *)
Definition or_else (x y : option string) : option string :=
  if Js.truthy_opt x then x else y.

(** [error.retryable], for an instance of [PostQueueError]. *)
Definition error_retryable (error : JsError) : bool :=
  match error with PostQueueError _ _ r => r | _ => false end.

(** [error.type === ERROR_TYPES.INVALID_CONTENT] *)
Definition type_is_INVALID_CONTENT (error : JsError) : bool :=
  match error with PostQueueError _ INVALID_CONTENT _ => true | _ => false end.

(** [shouldRetryPost(post, error)] *)
Definition shouldRetryPost (post : Post) (error : JsError) : bool :=
  if instanceof_PostQueueError error && negb (error_retryable error)
  then false
  else
    let retryCount := Js.or_zero (retry_count (row post)) in
    if retryCount >=? maxRetries then false
    else if instanceof_PostQueueError error && type_is_INVALID_CONTENT error
    then false
    else true.

(** [this.retryDelays[Math.min(retryCount - 1, this.retryDelays.length - 1)]],
    [None] for [undefined] (a negative index). *)
Definition retryDelay (retryCount : Z) : option Z :=
  let i := Z.min (retryCount - 1) (Z.of_nat (length retryDelays) - 1) in
  if i <? 0 then None else retryDelays !! Z.to_nat i.

(** The object [{ status, updated_at, ...additionalData }] of
    [updatePostStatus], [now] being the time it reads. *)
Definition updateData (status : POST_STATUS) (now : Z)
    (additionalData : Updates) : Updates :=
  {| set_status := Some (default status (set_status additionalData));
     set_updated_at := Some (default now (set_updated_at additionalData));
     set_scheduled_for := set_scheduled_for additionalData;
     set_retry_count := set_retry_count additionalData;
     set_error_message := set_error_message additionalData;
     set_platform_post_id := set_platform_post_id additionalData |}.

Section WithEnv.
Context (env : Env).

(** [publishToFacebook(post, account)] *)
Definition publishToFacebook (post : Post) (account : Account)
  : M PublishResult :=
  try_catch
    (let! valid := Facebook.validateToken env (access_token account) in
     if negb valid
     then throw (PostQueueError "Facebook access token is invalid"
                                INVALID_TOKEN true)
     else
       let! result :=
         (if has_media post
          then Facebook.publishPagePhoto env
                 (account_id account) (access_token account)
                 {| Facebook.pd_message := content (row post);
                    Facebook.pd_url := first_media post;
                    Facebook.pd_link := None;
                    Facebook.pd_published := Some true;
                    Facebook.pd_scheduled_publish_time := None |}
          else Facebook.publishPagePost env
                 (account_id account) (access_token account)
                 {| Facebook.pd_message := content (row post);
                    Facebook.pd_url := None;
                    Facebook.pd_link := None;
                    Facebook.pd_published := Some true;
                    Facebook.pd_scheduled_publish_time := None |}) in
       match result with
       | None => throw (OtherError Facebook.null_member_message)
       | Some b =>
           ret {| result_platform_post_id := or_else (b_id b) (b_post_id b);
                  result_platform := "facebook" |}
       end)
    classify.

(** [publishToInstagram(post, account)] *)
Definition publishToInstagram (post : Post) (account : Account)
  : M PublishResult :=
  try_catch
    (if negb (has_media post)
     then throw (PostQueueError "Instagram posts require media"
                                INVALID_CONTENT false)
     else
       let! valid := Facebook.validateToken env (access_token account) in
       if negb valid
       then throw (PostQueueError "Instagram access token is invalid"
                                  INVALID_TOKEN true)
       else
         let! creationResult :=
           Facebook.createInstagramPost env
             (account_id account) (access_token account)
             (first_media post) (content (row post)) "IMAGE" in
         match creationResult with
         | None => throw (OtherError Facebook.null_member_message)
         | Some created =>
             let! publishResult :=
               Facebook.publishInstagramPost env
                 (account_id account) (b_id created) (access_token account) in
             match publishResult with
             | None => throw (OtherError Facebook.null_member_message)
             | Some b =>
                 ret {| result_platform_post_id := b_id b;
                        result_platform := "instagram" |}
             end
         end)
    classify.

(** [publishPost(post)] *)
Definition publishPost (post : Post) : M PublishResult :=
  match social_accounts post with
  | None => throw (OtherError Facebook.null_member_message)
  | Some account =>
      if String.eqb (platform account) "facebook"
      then publishToFacebook post account
      else if String.eqb (platform account) "instagram"
      then publishToInstagram post account
      else throw (PostQueueError
                    ("Unsupported platform: " +:+ platform account)
                    UNKNOWN false)
  end.

(** [updatePostStatus(postId, status, additionalData = {})] *)
Definition updatePostStatus (postId : string) (status : POST_STATUS)
    (additionalData : Updates) : M unit :=
  let! now := Date_now env in
  let! error :=
    Supabase.updateScheduledPost postId
      (updateData status now additionalData) in
  match error with
  | Some message =>
      throw (PostQueueError ("Failed to update post status: " +:+ message)
                            UNKNOWN false)
  | None => ret tt
  end.

(** [scheduleRetry(post, error)].  With no delay in the table the date
    is invalid and [toISOString()] throws a [RangeError] before the
    update.  The result of the update is not inspected. *)
Definition scheduleRetry (post : Post) (error : JsError) : M unit :=
  let retryCount := Js.or_zero (retry_count (row post)) + 1 in
  let! now := Date_now env in
  match retryDelay retryCount with
  | None => throw (OtherError "Invalid time value")
  | Some delay =>
      Supabase.updateScheduledPost (id post)
        {| set_status := Some SCHEDULED;
           set_updated_at := None;
           set_scheduled_for := Some (now + delay);
           set_retry_count := Some retryCount;
           set_error_message :=
             Some (Some ("Retry " +:+ pretty retryCount +:+ ": "
                         +:+ error_message error));
           set_platform_post_id := None |} >>
      ret tt
  end.

(** The additional data of the success write:
    [{ platform_post_id: result.platform_post_id, error_message: null }]. *)
Definition posted_data (result : PublishResult) : Updates :=
  {| set_status := None; set_updated_at := None;
     set_scheduled_for := None; set_retry_count := None;
     set_error_message := Some None;
     set_platform_post_id := result_platform_post_id result |}.

(** The additional data of the failure write:
    [{ error_message: error.message }]. *)
Definition failed_data (error : JsError) : Updates :=
  {| set_status := None; set_updated_at := None;
     set_scheduled_for := None; set_retry_count := None;
     set_error_message := Some (Some (error_message error));
     set_platform_post_id := None |}.

(** The [try] block of [processPost]. *)
Definition attempt (post : Post) : M PublishResult :=
  updatePostStatus (id post) PROCESSING no_updates >>
  lift (validatePost post) >>
  let! result := publishPost post in
  updatePostStatus (id post) POSTED (posted_data result) >>
  let! finished := Date_now env in
  ret result.

(** The [catch] clause of [processPost]. *)
Definition handle_failure (post : Post) (error : JsError)
  : M PublishResult :=
  (if shouldRetryPost post error
   then scheduleRetry post error
   else updatePostStatus (id post) FAILED (failed_data error)) >>
  throw error.

(** [processPost(post)] *)
Definition processPost (post : Post) : M PublishResult :=
  let! startTime := Date_now env in
  try_catch (attempt post) (handle_failure post).

(** [postQueue.cancelPost(postId, userId)]: the test made on the posts
    read, between the two [await]s. *)
Definition cancelPost_check (posts : list (string * Row)) (postId : string)
  : Outcome unit :=
  match List.find (fun p => String.eqb p.1 postId) posts with
  | None =>
      Thrown (PostQueueError "Post not found or access denied"
                             MISSING_ACCOUNT false)
  | Some post =>
      if decide (status post.2 = POSTED)
      then Thrown (PostQueueError "Cannot cancel already posted content"
                                  INVALID_CONTENT false)
      else Returned tt
  end.

(** The update of [cancelPost]; its result is not inspected. *)
Definition cancelPost_write (postId : string) : M bool :=
  Supabase.updateScheduledPost postId
    {| set_status := Some CANCELLED;
       set_updated_at := None; set_scheduled_for := None;
       set_retry_count := None;
       set_error_message := Some (Some "Cancelled by user");
       set_platform_post_id := None |} >>
  ret true.

(** [postQueue.cancelPost(postId, userId)].  The call waits twice, for the
    posts it reads and for its update, and the other calls in flight run
    while it waits: [meanwhile] is what they do between the moment the
    database answers the query and the moment it applies the update.  The
    test is made on the posts read, whatever has happened since, and the
    update names the row by its id alone. *)
Definition cancelPost (meanwhile : World -> World) (postId userId : string)
  : M bool :=
  let! posts := (fun w =>
    (Returned (Supabase.getScheduledPosts (scheduled_posts w) userId
                 Supabase.default_limit), w)) in
  await_others meanwhile >>
  lift (cancelPost_check posts postId) >>
  cancelPost_write postId.

End WithEnv.

(** *** The processing pass and its guard

    [processQueue] is an [async] method: a call runs without interruption
    up to its next [await], and other calls run while it waits.  A pass
    that holds the guard is at one of its two [await]s. *)

(** How the query of [getDuePosts] settles. *)
Inductive QueryResult :=
| QueryData (data : option (list Post))   (** [{ data, error: null }] *)
| QueryError (message : string)           (** [{ data: null, error }] *)
| QueryRejected (message : string).       (** the [await] throws *)

(** [getDuePosts()]: every failure is caught inside and gives the empty
    list. *)
Definition getDuePosts (q : QueryResult) : list Post :=
  match q with
  | QueryData (Some data) => data
  | QueryData None => []
  | QueryError _ => []
  | QueryRejected _ => []
  end.

Inductive Phase :=
| AwaitingDuePosts                    (** at [await this.getDuePosts()] *)
| AwaitingAll (duePosts : list Post). (** at [await Promise.all(...)] *)

Record Processor := {
  isProcessing : bool;
  passes : list Phase   (** the calls of [processQueue] past the guard *)
}.

(** The constructor: [this.isProcessing = false]. *)
Definition new_processor : Processor :=
  {| isProcessing := false; passes := [] |}.

Inductive Event :=
| Tick                                   (** a call of [processQueue] *)
| DuePostsSettled (n : nat) (q : QueryResult)
                                         (** pass [n] resumes from its first [await] *)
| AllSettled (n : nat) (rejected : bool).
                                         (** pass [n] resumes from its second [await] *)

(** The [finally] clause, run by the pass that leaves. *)
Definition finish (n : nat) (p : Processor) : Processor :=
  {| isProcessing := false; passes := delete n (passes p) |}.

Definition step (p : Processor) (e : Event) : Processor :=
  match e with
  | Tick =>
      if isProcessing p then p
      else {| isProcessing := true; passes := passes p ++ [AwaitingDuePosts] |}
  | DuePostsSettled n q =>
      match passes p !! n with
      | Some AwaitingDuePosts =>
          let duePosts := getDuePosts q in
          if (length duePosts =? 0)%nat then finish n p
          else {| isProcessing := isProcessing p;
                  passes := <[n := AwaitingAll duePosts]> (passes p) |}
      | _ => p
      end
  | AllSettled n rejected =>
      match passes p !! n with
      | Some (AwaitingAll _) => finish n p
      | _ => p
      end
  end.

Definition run (events : list Event) : Processor :=
  fold_left step events new_processor.

(** The guard and the passes agree: no pass and the guard free, or one
    pass and the guard held. *)
Definition guard_invariant (p : Processor) : Prop :=
  (passes p = [] ∧ isProcessing p = false)
  ∨ (∃ phase, passes p = [phase] ∧ isProcessing p = true).

End PostQueue.

(** ** Frame conditions on computations *)

(** [m] leaves the component [f] of the world as it found it. *)
Definition preserves {X A} (f : World -> X) (m : M A) : Prop :=
  ∀ w, f (m w).2 = f w.

(** [m] never writes the table of scheduled posts. *)
Abbreviation keeps_posts := (preserves scheduled_posts).

(** [m] never touches the rate limit tracker. *)
Abbreviation keeps_tracker := (preserves tracker).

(** [m] makes no outbound request. *)
Abbreviation keeps_trace := (preserves trace).

(** The requests [m] makes are appended to the trace. *)
Definition extends_trace {A} (m : M A) : Prop :=
  ∀ w, ∃ new, trace (m w).2 = trace w ++ new.

(** The world after a clock reading and a write of row [r'] at [i]. *)
Definition written (w : World) (i : string) (r' : Row) : World :=
  {| scheduled_posts := <[i := r']> (scheduled_posts w);
     tracker := tracker w; reads := S (reads w); trace := trace w |}.

(** The requests made between two worlds. *)
Definition requests_since (w w' : World) : list Request :=
  drop (length (trace w)) (trace w').

(** ** What the outcome writes do to a row *)

(** The row after the first write of [processPost]. *)
Definition processing (now : Z) (r : Row) : Row :=
  apply_updates (PostQueue.updateData PROCESSING now no_updates) r.

(** [r'] is [r] marked failed for [error]: the message stored, and neither
    the scheduled time nor the retry count moved. *)
Definition failed_from (error : JsError) (r r' : Row) : Prop :=
  status r' = FAILED
  ∧ error_message_of r' = Some (error_message error)
  ∧ scheduled_for r' = scheduled_for r
  ∧ retry_count r' = retry_count r
  ∧ content r' = content r
  ∧ media_urls r' = media_urls r
  ∧ platform_post_id r' = platform_post_id r
  ∧ user_id r' = user_id r.

(** [r'] is [r] put back in the queue at time [now] for its attempt number
    [attempt], due [delay] later, after the failure [error]. *)
Definition rescheduled_from (attempt : Z) (error : JsError) (now delay : Z)
    (r r' : Row) : Prop :=
  status r' = SCHEDULED
  ∧ scheduled_for r' = now + delay
  ∧ retry_count r' = Some attempt
  ∧ error_message_of r' =
      Some ("Retry " +:+ pretty attempt +:+ ": " +:+ error_message error)
  ∧ content r' = content r
  ∧ media_urls r' = media_urls r
  ∧ platform_post_id r' = platform_post_id r
  ∧ user_id r' = user_id r.

(** [r'] is [r] after the success write for [result]: posted, the error
    text erased, the platform id stored when the publisher returned one, and
    the columns the write does not mention as they were. *)
Definition posted_from (result : PostQueue.PublishResult) (r r' : Row) : Prop :=
  status r' = POSTED
  ∧ error_message_of r' = None
  ∧ platform_post_id r' =
      match PostQueue.result_platform_post_id result with
      | Some p => Some p
      | None => platform_post_id r
      end
  ∧ content r' = content r
  ∧ media_urls r' = media_urls r
  ∧ retry_count r' = retry_count r
  ∧ scheduled_for r' = scheduled_for r
  ∧ user_id r' = user_id r.

(** [r'] is [r] cancelled by its user. *)
Definition cancelled_from (r r' : Row) : Prop :=
  status r' = CANCELLED
  ∧ error_message_of r' = Some "Cancelled by user"
  ∧ scheduled_for r' = scheduled_for r
  ∧ retry_count r' = retry_count r
  ∧ content r' = content r
  ∧ media_urls r' = media_urls r
  ∧ platform_post_id r' = platform_post_id r
  ∧ user_id r' = user_id r.

(** ** Concrete posts, worlds and environments *)

Module Examples.

Definition facebook_page : Account :=
  {| platform := "facebook"; account_id := "page-1";
     access_token := "token-1"; is_active := true |}.

Definition instagram_account : Account :=
  {| platform := "instagram"; account_id := "ig-1";
     access_token := "token-1"; is_active := true |}.

(** A text-only row due at time 500, left with the error text of an
    earlier attempt. *)
Definition text_row (retries : Z) : Row :=
  {| user_id := "user-1"; content := Some "Open today";
     media_urls := Some []; scheduled_for := 500; status := SCHEDULED;
     retry_count := Some retries;
     error_message_of := Some "Retry 1: Network error: Failed to fetch";
     platform_post_id := None; updated_at := 400 |}.

Definition text_post (retries : Z) (account : Account) : Post :=
  {| id := "post-1"; row := text_row retries;
     social_accounts := Some account |}.

(** A post with one image, for the Instagram account. *)
Definition photo_post : Post :=
  {| id := "post-2";
     row := {| user_id := "user-1"; content := Some "New menu";
               media_urls := Some ["img-1.jpg"]; scheduled_for := 500;
               status := SCHEDULED; retry_count := Some 0;
               error_message_of := None; platform_post_id := None;
               updated_at := 400 |};
     social_accounts := Some instagram_account |}.

Definition fresh_tracker (max : Z) : RateLimit.Tracker :=
  {| RateLimit.requests := 0; RateLimit.resetTime := 3600000;
     RateLimit.maxRequests := max |}.

(** One row in the table, nothing sent yet, the clock never read. *)
Definition world (retries max : Z) : World :=
  {| scheduled_posts := {[ "post-1" := text_row retries ]};
     tracker := fresh_tracker max; reads := 0; trace := [] |}.

(** The clock advances by one millisecond per reading, from 1000. *)
Definition ticking (n : nat) : Z := 1000 + Z.of_nat n.

Definition ok_body : Body :=
  {| b_error := None; b_is_valid := true; b_id := Some "fb-77";
     b_post_id := None |}.

(** Every request succeeds. *)
Definition all_ok : Env :=
  {| clock := ticking; net := fun _ _ => Answered true (Some ok_body) |}.


(** The token is valid and the publishing request fails in the network. *)
Definition publish_unreachable : Env :=
  {| clock := ticking;
     net := fun _ r =>
       match endpoint r with
       | DebugToken => Answered true (Some ok_body)
       | _ => Rejected "Failed to fetch"
       end |}.

(** The token is valid and the platform refuses the publishing request
    with error code 1. *)
Definition publish_refused : Env :=
  {| clock := ticking;
     net := fun _ r =>
       match endpoint r with
       | DebugToken => Answered true (Some ok_body)
       | _ =>
           Answered false
             (Some {| b_error := Some {| ge_message := Some "Unknown error";
                                         ge_code := Some (CodeNum 1) |};
                      b_is_valid := false; b_id := None; b_post_id := None |})
       end |}.

End Examples.

Module Exhausted.

(** A world whose window is open until 3600000 and whose two permits are
    both used. *)
Definition world : World :=
  with_tracker (Examples.world 0 2)
    (RateLimit.bump (Examples.fresh_tracker 2) 2).

End Exhausted.

Module Crowded.

(** A post published long ago. *)
Definition old_row (n : nat) : Row :=
  {| user_id := "user-1"; content := Some "Done"; media_urls := Some [];
     scheduled_for := Z.of_nat n; status := POSTED; retry_count := Some 0;
     error_message_of := None; platform_post_id := Some "fb-1";
     updated_at := Z.of_nat n |}.

(** Fifty posts of user-1 published at times 1 to 50, and the post of
    [Examples.world], scheduled for time 500, of the same user. *)
Definition table : gmap string Row :=
  <["post-1" := Examples.text_row 0]>
    (list_to_map
       (map (fun n => ("old-" +:+ pretty n, old_row n)) (seq 1 50))).

Definition world : World := with_posts (Examples.world 0 200) table.

End Crowded.

(** ** The rest of the queue management functions *)

Module Management.

(** [postQueue.retryPost(postId, userId)]: the check made on the posts
    read. *)
Definition retryPost_check (posts : list (string * Row)) (postId : string)
  : Outcome unit :=
  match List.find (fun p => String.eqb p.1 postId) posts with
  | None =>
      Thrown (PostQueueError "Post not found or access denied"
                             MISSING_ACCOUNT false)
  | Some post =>
      if decide (status post.2 = FAILED)
      then Returned tt
      else Thrown (PostQueueError "Only failed posts can be retried"
                                  INVALID_CONTENT false)
  end.

(** The object written by [retryPost], [now] being the time it reads. *)
Definition retry_reset (now : Z) : Updates :=
  {| set_status := Some SCHEDULED;
     set_updated_at := None;
     set_scheduled_for := Some now;
     set_retry_count := Some 0;
     set_error_message := Some None;
     set_platform_post_id := None |}.

(** The object [statusCounts] built by the [reduce] of [getQueueStatus]:
    a status that was never counted is [undefined]. *)
Definition StatusCounts : Type := POST_STATUS -> option Z.

Definition no_counts : StatusCounts := fun _ => None.

(** [counts[post.status] = (counts[post.status] || 0) + 1; return counts] *)
Definition count_post (counts : StatusCounts) (post : string * Row)
  : StatusCounts :=
  fun s =>
    if decide (s = status post.2)
    then Some (Js.or_zero (counts (status post.2)) + 1)
    else counts s.

(** What [getQueueStatus] returns. *)
Record QueueStatus := {
  qs_total : Z;
  qs_scheduled : Z;
  qs_processing : Z;
  qs_posted : Z;
  qs_failed : Z;
  qs_cancelled : Z;
  qs_posts : list (string * Row)
}.

(** [postQueue.getQueueStatus(userId)], on the table. *)
Definition getQueueStatus (table : gmap string Row) (userId : string)
  : QueueStatus :=
  let posts := Supabase.getScheduledPosts table userId 100 in
  let statusCounts := fold_left count_post posts no_counts in
  {| qs_total := Z.of_nat (length posts);
     qs_scheduled := Js.or_zero (statusCounts SCHEDULED);
     qs_processing := Js.or_zero (statusCounts PROCESSING);
     qs_posted := Js.or_zero (statusCounts POSTED);
     qs_failed := Js.or_zero (statusCounts FAILED);
     qs_cancelled := Js.or_zero (statusCounts CANCELLED);
     qs_posts := take 20 posts |}.

(** The number of posts of a list in a status. *)
Definition in_status (s : POST_STATUS) (posts : list (string * Row)) : Z :=
  Z.of_nat (length (filter (fun p => status p.2 = s) posts)).

Section WithEnv.
Context (env : Env).

(** [postQueue.retryPost(postId, userId)].  As for [cancelPost] the other
    calls in flight run while this one waits: [resumed] is what they do
    until the call resumes with the posts read, [updated] what they do
    from the moment it has read the clock and sent its update until the
    database applies it. *)
Definition retryPost (resumed updated : World -> World)
    (postId userId : string) : M bool :=
  let! posts := (fun w =>
    (Returned (Supabase.getScheduledPosts (scheduled_posts w) userId
                 Supabase.default_limit), w)) in
  await_others resumed >>
  PostQueue.lift (retryPost_check posts postId) >>
  let! now := Date_now env in
  await_others updated >>
  Supabase.updateScheduledPost postId (retry_reset now) >>
  ret true.

(** The post as the next fetch of due posts returns it: the row now in
    the table, with the account embedded. *)
Definition refetch (table : gmap string Row) (postId : string)
    (account : option Account) : option Post :=
  (fun r => {| id := postId; row := r; social_accounts := account |})
    <$> table !! postId.

End WithEnv.

End Management.

(** ** Room in the rate window *)

(** The tracker can grant [k] more checks whatever the clock says: its
    count is not negative and [k] below the maximum. *)
Definition room (k : Z) (t : RateLimit.Tracker) : Prop :=
  0 ≤ RateLimit.requests t ∧ RateLimit.requests t + k ≤ RateLimit.maxRequests t.

(** The requests [m] sends all satisfy [P]. *)
Definition sends_only {A} (P : Request -> Prop) (m : M A) : Prop :=
  ∀ w, ∃ new, trace (m w).2 = trace w ++ new ∧ Forall P new.

(** The request goes to the introspection or to a page endpoint of the
    Facebook page [page]. *)
Definition facebook_endpoint (page : string) (r : Request) : Prop :=
  match endpoint r with
  | DebugToken => True
  | Feed p | Photos p => p = page
  | Media _ | MediaPublish _ => False
  end.

(** The request goes to the introspection or to a media endpoint of the
    Instagram account [account]. *)
Definition instagram_endpoint (account : string) (r : Request) : Prop :=
  match endpoint r with
  | DebugToken => True
  | Media a | MediaPublish a => a = account
  | Feed _ | Photos _ => False
  end.

(** Every exception [m] throws satisfies [P]. *)
Definition throws_only {A} (P : JsError -> Prop) (m : M A) : Prop :=
  ∀ w e w', m w = (Thrown e, w') → P e.

(** The failures that leave a publisher: a [PostQueueError] of one of three
    types, flagged retryable unless it is an [API_ERROR]. *)
Definition publisher_failure (e : JsError) : Prop :=
  ∃ message type retryable,
    e = PostQueueError message type retryable
    ∧ (type = RATE_LIMIT ∨ type = API_ERROR ∨ type = NETWORK_ERROR)
    ∧ (retryable = false → type = API_ERROR).

(** The number of calls of a list that returned. *)
Fixpoint returned_count {A} (os : list (Outcome A)) : Z :=
  match os with
  | [] => 0
  | Returned _ :: os' => 1 + returned_count os'
  | Thrown _ :: os' => returned_count os'
  end.

(** ** The requests of the publishing calls, as the queue makes them *)

(** What a publishing wrapper makes of the answer to its request: the body
    when [response.ok], a [FacebookAPIError] otherwise, built from the
    [error] member of the body or, for a failed request or a [null] body,
    with code ['NETWORK_ERROR']. *)
Definition call_outcome (r : Response) (m c : string) : Outcome (option Body) :=
  match r with
  | Rejected msg =>
      Thrown (FacebookAPIError ("Network error: " +:+ msg)
                               (CodeStr "NETWORK_ERROR"))
  | Answered false None =>
      Thrown (FacebookAPIError
                ("Network error: " +:+ Facebook.null_member_message)
                (CodeStr "NETWORK_ERROR"))
  | Answered false (Some b) =>
      Thrown (FacebookAPIError
                (Facebook.or_string (b_error b ≫= ge_message) m)
                (Facebook.or_code (b_error b ≫= ge_code) c))
  | Answered true data => Returned data
  end.

(** The text request of a Facebook publish: the trimmed content. *)
Definition feed_request (account : Account) (text : string) : Request :=
  {| endpoint := Feed (account_id account);
     params := [("message", Js.trim text); ("published", "true");
                ("access_token", access_token account)] |}.

(** The photo request of a Facebook publish: one url, and the trimmed
    content as caption. *)
Definition photo_request (account : Account) (url text : string) : Request :=
  {| endpoint := Photos (account_id account);
     params := [("url", url); ("published", "true");
                ("access_token", access_token account);
                ("caption", Js.trim text)] |}.

(** The container request of an Instagram publish. *)
Definition media_request (account : Account) (url text : string) : Request :=
  {| endpoint := Media (account_id account);
     params := [("image_url", url); ("media_type", "IMAGE");
                ("access_token", access_token account);
                ("caption", Js.trim text)] |}.

(** The second request of an Instagram publish, for the container the
    first one created. *)
Definition media_publish_request (account : Account)
    (creation : option string) : Request :=
  {| endpoint := MediaPublish (account_id account);
     params := [("creation_id", default "undefined" creation);
                ("access_token", access_token account)] |}.

(** The table [t'] differs from [t] at most in the row of [i], which is
    neither created nor deleted. *)
Definition touches_only (i : string) (t t' : gmap string Row) : Prop :=
  (∀ j, j ≠ i → t' !! j = t !! j)
  ∧ (is_Some (t' !! i) ↔ is_Some (t !! i)).

(** Every character of the string is white space. *)
Fixpoint blank (s : string) : bool :=
  match s with
  | EmptyString => true
  | String c s' => Js.isWhiteSpace c && blank s'
  end.

(** [r'] is [r] put back in the queue by its user at time [now]. *)
Definition reset_from (now : Z) (r r' : Row) : Prop :=
  status r' = SCHEDULED
  ∧ scheduled_for r' = now
  ∧ retry_count r' = Some 0
  ∧ error_message_of r' = None
  ∧ content r' = content r
  ∧ media_urls r' = media_urls r
  ∧ platform_post_id r' = platform_post_id r
  ∧ user_id r' = user_id r.

(** ** The vocabulary of the statements about publishing *)

(** The answer to the introspection reports a valid token. *)
Definition reports_valid (r : Response) : Prop :=
  ∃ b, r = Answered true (Some b) ∧ b_is_valid b = true.

(** The introspection request for a token. *)
Definition introspection_of (token : string) : Request :=
  {| endpoint := DebugToken; params := [("input_token", token)] |}.

(** The first of two optional strings when it is there and not empty, the
    second otherwise. *)
Definition first_nonempty (x y : option string) : option string :=
  match x with
  | Some (String c s) => Some (String c s)
  | _ => y
  end.

(** The post lists no media: the column is null or the empty array. *)
Definition no_media (post : Post) : Prop :=
  media_urls (row post) = None ∨ media_urls (row post) = Some [].

(** The thrown value is an instance of [FacebookAPIError], of the class
    itself or of its subclass [RateLimitError]. *)
Definition api_error (e : JsError) : Prop :=
  (∃ message code, e = FacebookAPIError message code)
  ∨ (∃ message wait, e = RateLimitError message wait).

(** The order of [getScheduledPosts] is total and transitive. *)
Global Instance by_scheduled_for_total : Total Supabase.by_scheduled_for.
Proof. intros a b. unfold Supabase.by_scheduled_for. lia. Defined.

Global Instance by_scheduled_for_trans : Transitive Supabase.by_scheduled_for.
Proof. intros a b c. unfold Supabase.by_scheduled_for. lia. Defined.

(** * Properties *)

(** ** The rate gate *)

Section RateWindow.
Import RateLimit.

Lemma roll_within now t : now ≤ resetTime t → roll now t = t.
Proof.
  intros Hle. unfold roll.
  destruct (Z.gtb_spec now (resetTime t)); [lia | reflexivity].
Qed.

Lemma roll_past now t :
  resetTime t < now →
  roll now t = {| requests := 0; resetTime := now + windowLength;
                  maxRequests := maxRequests t |}.
Proof.
  intros Hlt. unfold roll.
  destruct (Z.gtb_spec now (resetTime t)); [reflexivity | lia].
Qed.

Lemma checkLimit_grants now t :
  now ≤ resetTime t → requests t < maxRequests t →
  checkLimit now t = (Returned tt, bump t 1).
Proof.
  intros Hnow Hroom. unfold checkLimit. rewrite roll_within by assumption.
  destruct (Z.geb_spec (requests t) (maxRequests t)); [lia | reflexivity].
Qed.

Lemma checkLimit_denies now t :
  now ≤ resetTime t → maxRequests t ≤ requests t →
  checkLimit now t = (Thrown (exceeded (waitTime now t)), t).
Proof.
  intros Hnow Hfull. unfold checkLimit. rewrite roll_within by assumption.
  destruct (Z.geb_spec (requests t) (maxRequests t)); [reflexivity | lia].
Qed.

Lemma bump_bump t a b : bump (bump t a) b = bump t (a + b).
Proof. unfold bump; simpl. f_equal. lia. Qed.

Lemma checkLimits_app nows1 nows2 t :
  checkLimits (nows1 ++ nows2) t =
  let '(os1, t1) := checkLimits nows1 t in
  let '(os2, t2) := checkLimits nows2 t1 in
  (os1 ++ os2, t2).
Proof.
  revert t. induction nows1 as [|now nows1 IH]; intros t; simpl.
  - destruct (checkLimits nows2 t); reflexivity.
  - destruct (checkLimit now t) as [o t1]. rewrite IH.
    destruct (checkLimits nows1 t1) as [os1 t2].
    destruct (checkLimits nows2 t2); reflexivity.
Qed.

(** While there is room and the window is not over, every check is
    granted and counted. *)
Lemma checkLimits_grant_all nows t :
  Forall (fun now => now ≤ resetTime t) nows →
  requests t + Z.of_nat (length nows) ≤ maxRequests t →
  checkLimits nows t =
    (replicate (length nows) (Returned tt), bump t (Z.of_nat (length nows))).
Proof.
  revert t. induction nows as [|now nows IH]; intros t Hin Hroom.
  - simpl. unfold bump. destruct t; simpl. do 2 f_equal. lia.
  - apply Forall_cons in Hin as [Hnow Hin].
    cbn [checkLimits]. rewrite checkLimit_grants; [|assumption|].
    2:{ cbn [length] in Hroom. lia. }
    rewrite IH; [| exact Hin |].
    2:{ cbn [length] in Hroom. simpl. lia. }
    rewrite bump_bump. cbn [length replicate]. do 2 f_equal. lia.
Qed.

End RateWindow.

(** C1. Starting a window with the counter at 0, [maxRequests] checks made
    before the reset time are all granted and the next one, still before
    the reset time, is denied with a [RateLimitError] whose [retryAfter] is
    [ceil((resetTime - now) / 1000)], the least number of whole seconds
    that reaches the reset time, the counter staying at [maxRequests]; and
    a check made after the reset time first resets the counter to 0 and
    moves the reset time to [now + 3600000], then compares: it is granted
    and counted when [maxRequests] is positive, and denied for 3600 seconds
    otherwise. *)
Theorem rate_window_correct :
  (∀ (t : RateLimit.Tracker) (nows : list Z) (last : Z),
      RateLimit.requests t = 0 →
      Z.of_nat (length nows) = RateLimit.maxRequests t →
      Forall (fun now => now ≤ RateLimit.resetTime t) (nows ++ [last]) →
      let wait := Js.ceil_div (RateLimit.resetTime t - last) 1000 in
      RateLimit.checkLimits (nows ++ [last]) t =
        (replicate (length nows) (Returned tt) ++
           [Thrown (RateLimitError
                      ("Rate limit exceeded. Try again in " +:+ pretty wait
                       +:+ " seconds.")
                      wait)],
         {| RateLimit.requests := RateLimit.maxRequests t;
            RateLimit.resetTime := RateLimit.resetTime t;
            RateLimit.maxRequests := RateLimit.maxRequests t |})
      ∧ 1000 * (wait - 1) < RateLimit.resetTime t - last ≤ 1000 * wait)
  ∧
  (∀ (t : RateLimit.Tracker) (now : Z),
      RateLimit.resetTime t < now →
      RateLimit.checkLimit now t =
        (if 0 >=? RateLimit.maxRequests t
         then (Thrown (RateLimitError
                         "Rate limit exceeded. Try again in 3600 seconds." 3600),
               {| RateLimit.requests := 0;
                  RateLimit.resetTime := now + 3600000;
                  RateLimit.maxRequests := RateLimit.maxRequests t |})
         else (Returned tt,
               {| RateLimit.requests := 1;
                  RateLimit.resetTime := now + 3600000;
                  RateLimit.maxRequests := RateLimit.maxRequests t |}))).
Proof.
  split.
  - intros t nows last Hzero Hlen Hin wait.
    apply Forall_app in Hin as [Hnows Hlast].
    apply Forall_inv in Hlast.
    split.
    + rewrite checkLimits_app.
      rewrite checkLimits_grant_all by (assumption || lia).
      cbn [RateLimit.checkLimits].
      rewrite checkLimit_denies;
        [| exact Hlast | unfold RateLimit.bump; simpl; lia].
      unfold RateLimit.waitTime, RateLimit.exceeded, RateLimit.bump; simpl.
      rewrite Hzero, Hlen. reflexivity.
    + subst wait. unfold Js.ceil_div.
      pose proof (Z.div_mod (- (RateLimit.resetTime t - last)) 1000
                    ltac:(lia)) as Hdiv.
      pose proof (Z.mod_pos_bound (- (RateLimit.resetTime t - last)) 1000
                    ltac:(lia)) as Hmod.
      lia.
  - intros t now Hpast. unfold RateLimit.checkLimit.
    rewrite roll_past by assumption.
    cbn [RateLimit.requests RateLimit.maxRequests RateLimit.resetTime].
    unfold RateLimit.waitTime, RateLimit.exceeded, RateLimit.windowLength.
    cbn [RateLimit.resetTime].
    replace (now + 60 * 60 * 1000 - now) with 3600000 by lia.
    destruct (0 >=? RateLimit.maxRequests t); [| f_equal; f_equal; lia].
    reflexivity.
Qed.

(** The theorem at [maxRequests = 2]: two grants, then a denial 1800
    seconds before the reset, 1 ms later a denial for 1800 seconds still;
    and a roll of an exhausted window. *)
Lemma rate_window_correct_witness :
  RateLimit.checkLimits [10; 20; 200000]
    {| RateLimit.requests := 0; RateLimit.resetTime := 2000000;
       RateLimit.maxRequests := 2 |}
  = ([Returned tt; Returned tt;
      Thrown (RateLimitError
                "Rate limit exceeded. Try again in 1800 seconds." 1800)],
     {| RateLimit.requests := 2; RateLimit.resetTime := 2000000;
        RateLimit.maxRequests := 2 |})
  ∧
  RateLimit.checkLimits [10; 20; 200001]
    {| RateLimit.requests := 0; RateLimit.resetTime := 2000000;
       RateLimit.maxRequests := 2 |}
  = ([Returned tt; Returned tt;
      Thrown (RateLimitError
                "Rate limit exceeded. Try again in 1800 seconds." 1800)],
     {| RateLimit.requests := 2; RateLimit.resetTime := 2000000;
        RateLimit.maxRequests := 2 |})
  ∧
  RateLimit.checkLimit 2000001
    {| RateLimit.requests := 2; RateLimit.resetTime := 2000000;
       RateLimit.maxRequests := 2 |}
  = (Returned tt,
     {| RateLimit.requests := 1; RateLimit.resetTime := 5600001;
        RateLimit.maxRequests := 2 |}).
Proof.
  refine (conj _ (conj _ _)).
  - apply (proj1 (proj1 rate_window_correct
             {| RateLimit.requests := 0; RateLimit.resetTime := 2000000;
                RateLimit.maxRequests := 2 |} [10; 20] 200000
             eq_refl eq_refl
             ltac:(repeat constructor; simpl; lia))).
  - apply (proj1 (proj1 rate_window_correct
             {| RateLimit.requests := 0; RateLimit.resetTime := 2000000;
                RateLimit.maxRequests := 2 |} [10; 20] 200001
             eq_refl eq_refl
             ltac:(repeat constructor; simpl; lia))).
  - apply (proj2 rate_window_correct
             {| RateLimit.requests := 2; RateLimit.resetTime := 2000000;
                RateLimit.maxRequests := 2 |} 2000001).
    simpl; lia.
Defined.

(** ** Validation *)

(** C7. [validatePost] applies its four rules in order and stops at the
    first one violated: no account, or an inactive one, gives
    [MISSING_ACCOUNT] whatever the rest of the post is; with an active
    account, content that is absent or empty once trimmed gives
    [INVALID_CONTENT] whatever the token is; with that passed too, an empty
    token gives [INVALID_TOKEN] flagged retryable; otherwise validation
    returns.  Run inside the pipeline it leaves the world as it was. *)
Theorem validatePost_rules (post : Post) :
  (social_accounts post = None →
     PostQueue.validatePost post =
       Thrown (PostQueueError "Social account not found" MISSING_ACCOUNT false))
  ∧ (∀ account, social_accounts post = Some account →
       is_active account = false →
       PostQueue.validatePost post =
         Thrown (PostQueueError "Social account is inactive"
                                MISSING_ACCOUNT false))
  ∧ (∀ account, social_accounts post = Some account →
       is_active account = true →
       Js.truthy_trim (content (row post)) = false →
       PostQueue.validatePost post =
         Thrown (PostQueueError "Post content is empty" INVALID_CONTENT false))
  ∧ (∀ account, social_accounts post = Some account →
       is_active account = true →
       Js.truthy_trim (content (row post)) = true →
       access_token account = "" →
       PostQueue.validatePost post =
         Thrown (PostQueueError "Access token missing" INVALID_TOKEN true))
  ∧ (∀ account, social_accounts post = Some account →
       is_active account = true →
       Js.truthy_trim (content (row post)) = true →
       access_token account ≠ "" →
       PostQueue.validatePost post = Returned tt)
  ∧ (∀ w, (PostQueue.lift (PostQueue.validatePost post) w).2 = w).
Proof.
  unfold PostQueue.validatePost.
  repeat split.
  - intros ->. reflexivity.
  - intros account -> ->. reflexivity.
  - intros account -> -> ->. reflexivity.
  - intros account -> -> -> ->. reflexivity.
  - intros account -> -> -> Htoken.
    destruct (access_token account); [congruence | reflexivity].
Qed.

(** The rules at four posts: a missing account wins over empty content, an
    inactive account too, blank content wins over an empty token, and an
    empty token is reported last. *)
Lemma validatePost_rules_witness :
  let fb active token :=
    {| platform := "facebook"; account_id := "page-1";
       access_token := token; is_active := active |} in
  let post text account :=
    {| id := "p1";
       row := {| user_id := "u1"; content := text; media_urls := None;
                 scheduled_for := 0; status := SCHEDULED;
                 retry_count := Some 0; error_message_of := None;
                 platform_post_id := None; updated_at := 0 |};
       social_accounts := account |} in
  PostQueue.validatePost (post (Some "  ") None) =
    Thrown (PostQueueError "Social account not found" MISSING_ACCOUNT false)
  ∧ PostQueue.validatePost (post (Some "  ") (Some (fb false ""))) =
    Thrown (PostQueueError "Social account is inactive" MISSING_ACCOUNT false)
  ∧ PostQueue.validatePost (post (Some "  ") (Some (fb true ""))) =
    Thrown (PostQueueError "Post content is empty" INVALID_CONTENT false)
  ∧ PostQueue.validatePost (post (Some " hello ") (Some (fb true ""))) =
    Thrown (PostQueueError "Access token missing" INVALID_TOKEN true)
  ∧ PostQueue.validatePost (post (Some " hello ") (Some (fb true "tok"))) =
    Returned tt.
Proof.
  intros fb post.
  refine (conj _ (conj _ (conj _ (conj _ _)))).
  - apply (proj1 (validatePost_rules (post (Some "  ") None))). reflexivity.
  - apply (proj1 (proj2 (validatePost_rules (post (Some "  ") (Some (fb false "")))))
             (fb false "")); reflexivity.
  - apply (proj1 (proj2 (proj2 (validatePost_rules
             (post (Some "  ") (Some (fb true ""))))))
             (fb true "")); reflexivity.
  - apply (proj1 (proj2 (proj2 (proj2 (validatePost_rules
             (post (Some " hello ") (Some (fb true "")))))))
             (fb true "")); reflexivity.
  - apply (proj1 (proj2 (proj2 (proj2 (proj2 (validatePost_rules
             (post (Some " hello ") (Some (fb true "tok"))))))))
             (fb true "tok")); [reflexivity .. | discriminate].
Defined.

(** ** Running the pipeline *)

Section Frames.
Context {X A B : Type} (f : World → X).

Lemma preserves_ret (a : A) : preserves f (ret a).
Proof. intros w; reflexivity. Qed.

Lemma preserves_throw e : preserves f (throw e : M A).
Proof. intros w; reflexivity. Qed.

Lemma preserves_lift (o : Outcome A) : preserves f (PostQueue.lift o).
Proof. intros w; reflexivity. Qed.

Lemma preserves_bind (m : M A) (k : A → M B) :
  preserves f m → (∀ a, preserves f (k a)) → preserves f (bind m k).
Proof.
  intros Hm Hk w. unfold bind. specialize (Hm w).
  destruct (m w) as [[a|e] w1]; simpl in *; [| exact Hm].
  rewrite Hk. exact Hm.
Qed.

Lemma preserves_try_catch (m : M A) (h : JsError → M A) :
  preserves f m → (∀ e, preserves f (h e)) → preserves f (try_catch m h).
Proof.
  intros Hm Hh w. unfold try_catch. specialize (Hm w).
  destruct (m w) as [[a|e] w1]; simpl in *; [exact Hm |].
  rewrite Hh. exact Hm.
Qed.

Lemma extends_trace_ret (a : A) : extends_trace (ret a).
Proof. intros w; exists []; simpl. by rewrite app_nil_r. Qed.

Lemma extends_trace_throw e : extends_trace (throw e : M A).
Proof. intros w; exists []; simpl. by rewrite app_nil_r. Qed.

Lemma extends_trace_bind (m : M A) (k : A → M B) :
  extends_trace m → (∀ a, extends_trace (k a)) → extends_trace (bind m k).
Proof.
  intros Hm Hk w. unfold bind. destruct (Hm w) as [l1 Hl1].
  destruct (m w) as [[a|e] w1]; simpl in *; [| by exists l1].
  destruct (Hk a w1) as [l2 Hl2]. exists (l1 ++ l2).
  by rewrite Hl2, Hl1, app_assoc.
Qed.

Lemma extends_trace_try_catch (m : M A) (h : JsError → M A) :
  extends_trace m → (∀ e, extends_trace (h e)) → extends_trace (try_catch m h).
Proof.
  intros Hm Hh w. unfold try_catch. destruct (Hm w) as [l1 Hl1].
  destruct (m w) as [[a|e] w1]; simpl in *; [by exists l1 |].
  destruct (Hh e w1) as [l2 Hl2]. exists (l1 ++ l2).
  by rewrite Hl2, Hl1, app_assoc.
Qed.

End Frames.

Section Primitives.
Context (env : Env).

Lemma keeps_posts_Date_now : keeps_posts (Date_now env).
Proof. intros w; reflexivity. Qed.

Lemma keeps_tracker_Date_now : keeps_tracker (Date_now env).
Proof. intros w; reflexivity. Qed.

Lemma keeps_posts_fetch r : keeps_posts (fetch env r).
Proof. intros w; reflexivity. Qed.

Lemma keeps_tracker_fetch r : keeps_tracker (fetch env r).
Proof. intros w; reflexivity. Qed.

Lemma keeps_posts_checkLimit : keeps_posts (checkLimit env).
Proof.
  intros w. unfold checkLimit, bind, Date_now; simpl.
  destruct (RateLimit.checkLimit _ _); reflexivity.
Qed.

Lemma extends_trace_Date_now : extends_trace (Date_now env).
Proof. intros w; exists []; simpl. by rewrite app_nil_r. Qed.

Lemma extends_trace_fetch r : extends_trace (fetch env r).
Proof. intros w; exists [r]; reflexivity. Qed.

Lemma extends_trace_checkLimit : extends_trace (checkLimit env).
Proof.
  intros w. exists []. unfold checkLimit, bind, Date_now; simpl.
  destruct (RateLimit.checkLimit _ _); simpl. by rewrite app_nil_r.
Qed.

(** What a permission check does to the world: one clock reading, and the
    tracker stepped by [RateLimit.checkLimit] at that reading. *)
Lemma checkLimit_run w :
  checkLimit env w =
    ((RateLimit.checkLimit (clock env (reads w)) (tracker w)).1,
     {| scheduled_posts := scheduled_posts w;
        tracker := (RateLimit.checkLimit (clock env (reads w)) (tracker w)).2;
        reads := S (reads w); trace := trace w |}).
Proof.
  unfold checkLimit, bind, Date_now; simpl.
  destruct (RateLimit.checkLimit _ _); reflexivity.
Qed.

End Primitives.

Ltac frame_step :=
  first
    [ progress intros
    | apply keeps_posts_checkLimit | apply extends_trace_checkLimit
    | apply keeps_posts_Date_now | apply keeps_posts_fetch
    | apply keeps_tracker_Date_now | apply keeps_tracker_fetch
    | apply extends_trace_Date_now | apply extends_trace_fetch
    | apply preserves_ret | apply preserves_throw | apply preserves_lift
    | apply extends_trace_ret | apply extends_trace_throw
    | apply preserves_bind | apply preserves_try_catch
    | apply extends_trace_bind | apply extends_trace_try_catch
    | match goal with
      | |- preserves _ (if ?b then _ else _) => destruct b
      | |- preserves _ (match ?x with _ => _ end) => destruct x
      | |- extends_trace (if ?b then _ else _) => destruct b
      | |- extends_trace (match ?x with _ => _ end) => destruct x
      end ].

Ltac frame := repeat frame_step.

Section Publishers.
Context (env : Env).

Lemma keeps_posts_publishPost post : keeps_posts (PostQueue.publishPost env post).
Proof.
  unfold PostQueue.publishPost, PostQueue.publishToFacebook,
    PostQueue.publishToInstagram, PostQueue.classify,
    Facebook.validateToken, Facebook.publishPagePost,
    Facebook.publishPagePhoto, Facebook.createInstagramPost,
    Facebook.publishInstagramPost, Facebook.answer_or_throw,
    Facebook.rethrow.
  frame.
Qed.

Lemma extends_trace_publishPost post :
  extends_trace (PostQueue.publishPost env post).
Proof.
  unfold PostQueue.publishPost, PostQueue.publishToFacebook,
    PostQueue.publishToInstagram, PostQueue.classify,
    Facebook.validateToken, Facebook.publishPagePost,
    Facebook.publishPagePhoto, Facebook.createInstagramPost,
    Facebook.publishInstagramPost, Facebook.answer_or_throw,
    Facebook.rethrow.
  frame.
Qed.

End Publishers.

Section Inversion.
Context {A B : Type}.

Lemma bind_returned (m : M A) (k : A → M B) w b w' :
  bind m k w = (Returned b, w') →
  ∃ a w1, m w = (Returned a, w1) ∧ k a w1 = (Returned b, w').
Proof.
  unfold bind. destruct (m w) as [[a|e] w1]; intros H; [eauto | congruence].
Qed.

Lemma bind_run_returned (m : M A) (k : A → M B) w a w1 :
  m w = (Returned a, w1) → bind m k w = k a w1.
Proof. intros H. unfold bind. by rewrite H. Qed.

Lemma bind_run_thrown (m : M A) (k : A → M B) w e w1 :
  m w = (Thrown e, w1) → bind m k w = (Thrown e, w1).
Proof. intros H. unfold bind. by rewrite H. Qed.

Lemma try_catch_run_returned (m : M A) (h : JsError → M A) w a w1 :
  m w = (Returned a, w1) → try_catch m h w = (Returned a, w1).
Proof. intros H. unfold try_catch. by rewrite H. Qed.

Lemma try_catch_run_thrown (m : M A) (h : JsError → M A) w e w1 :
  m w = (Thrown e, w1) → try_catch m h w = h e w1.
Proof. intros H. unfold try_catch. by rewrite H. Qed.

End Inversion.

Section Writes.
Context (env : Env).

Lemma updatePostStatus_found i st add w r :
  scheduled_posts w !! i = Some r →
  PostQueue.updatePostStatus env i st add w =
    (Returned tt,
     written w i
       (apply_updates (PostQueue.updateData st (clock env (reads w)) add) r)).
Proof.
  intros Hr. unfold PostQueue.updatePostStatus, bind, Date_now,
    Supabase.updateScheduledPost; simpl.
  rewrite Hr. reflexivity.
Qed.

Lemma updatePostStatus_missing i st add w :
  scheduled_posts w !! i = None →
  PostQueue.updatePostStatus env i st add w =
    (Thrown (PostQueueError
               ("Failed to update post status: " +:+ Supabase.no_rows_message)
               UNKNOWN false),
     {| scheduled_posts := scheduled_posts w; tracker := tracker w;
        reads := S (reads w); trace := trace w |}).
Proof.
  intros Hr. unfold PostQueue.updatePostStatus, bind, Date_now,
    Supabase.updateScheduledPost; simpl.
  rewrite Hr. reflexivity.
Qed.

Lemma updatePostStatus_returned i st add w u w' :
  PostQueue.updatePostStatus env i st add w = (Returned u, w') →
  ∃ r, scheduled_posts w !! i = Some r ∧
       w' = written w i
              (apply_updates (PostQueue.updateData st (clock env (reads w)) add) r).
Proof.
  destruct (scheduled_posts w !! i) as [r|] eqn:Hr.
  - rewrite (updatePostStatus_found _ _ _ _ _ Hr). intros [= <-]. eauto.
  - rewrite (updatePostStatus_missing _ _ _ _ Hr). discriminate.
Qed.

Lemma scheduleRetry_found post error w r delay :
  scheduled_posts w !! id post = Some r →
  PostQueue.retryDelay (Js.or_zero (retry_count (row post)) + 1) = Some delay →
  PostQueue.scheduleRetry env post error w =
    (Returned tt,
     written w (id post)
       (apply_updates
          {| set_status := Some SCHEDULED; set_updated_at := None;
             set_scheduled_for := Some (clock env (reads w) + delay);
             set_retry_count := Some (Js.or_zero (retry_count (row post)) + 1);
             set_error_message :=
               Some (Some ("Retry "
                           +:+ pretty (Js.or_zero (retry_count (row post)) + 1)
                           +:+ ": " +:+ error_message error));
             set_platform_post_id := None |} r)).
Proof.
  intros Hr Hd. unfold PostQueue.scheduleRetry, bind, Date_now,
    Supabase.updateScheduledPost; simpl.
  rewrite Hd; simpl. rewrite Hr. reflexivity.
Qed.

(** The [catch] clause of [processPost] rethrows: it never returns. *)
Lemma handle_failure_throws post error w :
  ∃ e w', PostQueue.handle_failure env post error w = (Thrown e, w').
Proof.
  unfold PostQueue.handle_failure, bind.
  destruct (if PostQueue.shouldRetryPost post error then _ else _)
    as [[[]|e] w1]; simpl; eauto.
Qed.

End Writes.

(** ** The outcome writes *)

Section Outcomes.
Context (env : Env).

(** A [processPost] that returns went through its whole [try] block: the
    row was there, the first write marked it [PROCESSING], the publisher
    left the table alone and the success write was applied on top. *)
Lemma processPost_returned post w result w' :
  PostQueue.processPost env post w = (Returned result, w') →
  ∃ r now1 now2,
    scheduled_posts w !! id post = Some r ∧
    scheduled_posts w' =
      <[id post :=
          apply_updates
            (PostQueue.updateData POSTED now2 (PostQueue.posted_data result))
            (apply_updates
               (PostQueue.updateData PROCESSING now1 no_updates) r)]>
        (scheduled_posts w).
Proof.
  unfold PostQueue.processPost. intros H.
  apply bind_returned in H as (t0 & w0 & Hnow & H).
  injection Hnow as _ <-.
  unfold try_catch in H.
  destruct (PostQueue.attempt env post _) as [[res|e] w5] eqn:Hatt.
  2:{ destruct (handle_failure_throws env post e w5) as (e' & w6 & He).
      rewrite He in H. discriminate. }
  injection H as <- <-.
  unfold PostQueue.attempt in Hatt.
  apply bind_returned in Hatt as ([] & w1 & Hproc & Hatt).
  apply bind_returned in Hatt as ([] & w1' & Hval & Hatt).
  apply bind_returned in Hatt as (res' & w2 & Hpub & Hatt).
  apply bind_returned in Hatt as ([] & w3 & Hposted & Hatt).
  apply bind_returned in Hatt as (t4 & w4 & Hfin & Hatt).
  injection Hatt as <- <-. injection Hfin as _ <-.
  unfold PostQueue.lift in Hval. injection Hval as _ <-.
  apply updatePostStatus_returned in Hproc as (r & Hr & ->).
  match type of Hpub with
  | PostQueue.publishPost _ _ ?w1 = _ =>
      pose proof (keeps_posts_publishPost env post w1) as Hkeep
  end.
  rewrite Hpub in Hkeep. simpl in Hkeep, Hr.
  apply updatePostStatus_returned in Hposted as (r2 & Hr2 & ->).
  rewrite Hkeep, lookup_insert_eq in Hr2. injection Hr2 as <-.
  exists r. eexists. eexists. split; [exact Hr |].
  simpl. rewrite Hkeep. rewrite insert_insert_eq. reflexivity.
Qed.

End Outcomes.

Example text_post_is_published :
  let out := PostQueue.processPost Examples.all_ok
               (Examples.text_post 1 Examples.facebook_page)
               (Examples.world 1 200) in
  out.1 = Returned {| PostQueue.result_platform_post_id := Some "fb-77";
                      PostQueue.result_platform := "facebook" |}
  ∧ scheduled_posts out.2 !! "post-1" =
      Some {| user_id := "user-1"; content := Some "Open today";
              media_urls := Some []; scheduled_for := 500; status := POSTED;
              retry_count := Some 1; error_message_of := None;
              platform_post_id := Some "fb-77"; updated_at := 1004 |}
  ∧ trace out.2 =
      [Facebook.debug_token "token-1";
       {| endpoint := Feed "page-1";
          params := [("message", "Open today"); ("published", "true");
                     ("access_token", "token-1")] |}]
  ∧ RateLimit.requests (tracker out.2) = 2.
Proof. vm_compute. repeat split. Qed.

Lemma posted_from_updates result now r :
  posted_from result r
    (apply_updates
       (PostQueue.updateData POSTED now (PostQueue.posted_data result)) r).
Proof. unfold posted_from; simpl. auto 10. Qed.

(** C10. The success write, run on a world that holds the row, returns and
    replaces the row by one with status [POSTED], the platform id of the
    result, no error message, and its content, media list, retry count and
    scheduled time as before.  And whenever [processPost] returns, the row
    it leaves is the initial row changed in exactly that way, every other
    row of the table being untouched. *)
Theorem success_write_frame (env : Env) :
  (∀ (i : string) (result : PostQueue.PublishResult) (w : World) (r : Row),
      scheduled_posts w !! i = Some r →
      ∃ r', PostQueue.updatePostStatus env i POSTED
              (PostQueue.posted_data result) w = (Returned tt, written w i r')
            ∧ posted_from result r r')
  ∧
  (∀ (post : Post) (w w' : World) (result : PostQueue.PublishResult),
      PostQueue.processPost env post w = (Returned result, w') →
      ∃ r r', scheduled_posts w !! id post = Some r
              ∧ scheduled_posts w' !! id post = Some r'
              ∧ posted_from result r r'
              ∧ ∀ j, j ≠ id post →
                     scheduled_posts w' !! j = scheduled_posts w !! j).
Proof.
  split.
  - intros i result w r Hr. eexists. split.
    + apply updatePostStatus_found, Hr.
    + apply posted_from_updates.
  - intros post w w' result Hrun.
    apply processPost_returned in Hrun as (r & now1 & now2 & Hr & Hw').
    exists r. eexists. split; [exact Hr |]. rewrite Hw'.
    split; [apply lookup_insert_eq |]. split.
    + unfold posted_from; simpl. auto 10.
    + intros j Hj. by apply lookup_insert_ne.
Qed.

(** The theorem on a text post published at its second attempt: the error
    text of the first attempt is erased and the retry count stays 1. *)
Lemma success_write_frame_witness :
  ∃ r', scheduled_posts
          (PostQueue.processPost Examples.all_ok
             (Examples.text_post 1 Examples.facebook_page)
             (Examples.world 1 200)).2 !! "post-1" = Some r'
        ∧ status r' = POSTED
        ∧ error_message_of r' = None
        ∧ platform_post_id r' = Some "fb-77"
        ∧ retry_count r' = Some 1
        ∧ error_message_of (Examples.text_row 1)
          = Some "Retry 1: Network error: Failed to fetch".
Proof.
  destruct (proj2 (success_write_frame Examples.all_ok)
              (Examples.text_post 1 Examples.facebook_page)
              (Examples.world 1 200)
              (PostQueue.processPost Examples.all_ok
                 (Examples.text_post 1 Examples.facebook_page)
                 (Examples.world 1 200)).2
              {| PostQueue.result_platform_post_id := Some "fb-77";
                 PostQueue.result_platform := "facebook" |})
    as (r & r' & Hr & Hr' & Hposted & _).
  - vm_compute. reflexivity.
  - assert (r = Examples.text_row 1) as ->.
    { assert (Some r = Some (Examples.text_row 1)) as Heq
        by (rewrite <- Hr; vm_compute; reflexivity).
      by injection Heq. }
    destruct Hposted as (Hst & Herr & Hid & _ & _ & Hrc & _).
    exists r'. split; [exact Hr' |]. simpl in Hid, Hrc. auto 10.
Defined.

(** ** Failures of the pipeline *)

Section Failures.
Context (env : Env).

(** When the [try] block throws, either the row was missing and the
    first write failed, or the row is there, marked [PROCESSING], and
    nothing else of the table has changed. *)
Lemma attempt_thrown post w e w1 :
  PostQueue.attempt env post w = (Thrown e, w1) →
  (scheduled_posts w !! id post = None
   ∧ scheduled_posts w1 = scheduled_posts w
   ∧ e = PostQueueError
           ("Failed to update post status: " +:+ Supabase.no_rows_message)
           UNKNOWN false)
  ∨ (∃ r, scheduled_posts w !! id post = Some r
          ∧ scheduled_posts w1 =
              <[id post := processing (clock env (reads w)) r]>
                (scheduled_posts w)).
Proof.
  unfold PostQueue.attempt. intros H.
  destruct (scheduled_posts w !! id post) as [r|] eqn:Hr.
  - right. exists r. split; [reflexivity |].
    rewrite (bind_run_returned _ _ _ _ _ (updatePostStatus_found env _ _ _ _ _ Hr))
      in H.
    unfold bind at 1 in H. unfold PostQueue.lift at 1 in H.
    destruct (PostQueue.validatePost post) as [[]|ev].
    2:{ injection H as _ <-. reflexivity. }
    unfold bind at 1 in H.
    match type of H with
    | context [PostQueue.publishPost _ _ ?w0] =>
        pose proof (keeps_posts_publishPost env post w0) as Hkeep
    end.
    destruct (PostQueue.publishPost env post _) as [[res|ep] w2].
    2:{ injection H as _ <-. exact Hkeep. }
    simpl in Hkeep.
    assert (scheduled_posts w2 !! id post
            = Some (processing (clock env (reads w)) r)) as Hr2.
    { rewrite Hkeep. apply lookup_insert_eq. }
    rewrite (bind_run_returned _ _ _ _ _
               (updatePostStatus_found env _ _ _ _ _ Hr2)) in H.
    discriminate H.
  - left.
    rewrite (bind_run_thrown _ _ _ _ _ (updatePostStatus_missing env _ _ _ _ Hr))
      in H.
    injection H as <- <-. auto.
Qed.

(** A throwing [processPost] is a throwing [try] block followed by the
    [catch] clause. *)
Lemma processPost_thrown post w e w' :
  PostQueue.processPost env post w = (Thrown e, w') →
  ∃ e0 w1,
    PostQueue.attempt env post (Date_now env w).2 = (Thrown e0, w1)
    ∧ PostQueue.handle_failure env post e0 w1 = (Thrown e, w').
Proof.
  unfold PostQueue.processPost, bind, try_catch; simpl.
  destruct (PostQueue.attempt env post _) as [[res|e0] w1]; [discriminate |].
  intros H. eauto.
Qed.

Lemma processPost_run_thrown post w e0 w1 :
  PostQueue.attempt env post (Date_now env w).2 = (Thrown e0, w1) →
  PostQueue.processPost env post w = PostQueue.handle_failure env post e0 w1.
Proof.
  intros H. unfold PostQueue.processPost, bind, try_catch; simpl in *.
  by rewrite H.
Qed.

(** The [catch] clause when no retry is allowed and the row is there. *)
Lemma handle_failure_fails post e w r :
  PostQueue.shouldRetryPost post e = false →
  scheduled_posts w !! id post = Some r →
  PostQueue.handle_failure env post e w =
    (Thrown e,
     written w (id post)
       (apply_updates
          (PostQueue.updateData FAILED (clock env (reads w))
             (PostQueue.failed_data e)) r)).
Proof.
  intros Hno Hr. unfold PostQueue.handle_failure. rewrite Hno.
  by rewrite (bind_run_returned _ _ _ _ _
                (updatePostStatus_found env _ _ _ _ _ Hr)).
Qed.

(** The [catch] clause when a retry is allowed and the row is there. *)
Lemma handle_failure_retries post e w r delay :
  PostQueue.shouldRetryPost post e = true →
  PostQueue.retryDelay (Js.or_zero (retry_count (row post)) + 1) = Some delay →
  scheduled_posts w !! id post = Some r →
  PostQueue.handle_failure env post e w =
    (Thrown e,
     written w (id post)
       (apply_updates
          {| set_status := Some SCHEDULED; set_updated_at := None;
             set_scheduled_for := Some (clock env (reads w) + delay);
             set_retry_count := Some (Js.or_zero (retry_count (row post)) + 1);
             set_error_message :=
               Some (Some ("Retry "
                           +:+ pretty (Js.or_zero (retry_count (row post)) + 1)
                           +:+ ": " +:+ error_message e));
             set_platform_post_id := None |} r)).
Proof.
  intros Hyes Hd Hr. unfold PostQueue.handle_failure. rewrite Hyes.
  by rewrite (bind_run_returned _ _ _ _ _
                (scheduleRetry_found env _ _ _ _ _ Hr Hd)).
Qed.

(** The [catch] clause when the row is missing and no retry is allowed:
    the failure write throws its own error. *)
Lemma handle_failure_missing post e w :
  PostQueue.shouldRetryPost post e = false →
  scheduled_posts w !! id post = None →
  PostQueue.handle_failure env post e w =
    (Thrown (PostQueueError
               ("Failed to update post status: " +:+ Supabase.no_rows_message)
               UNKNOWN false),
     {| scheduled_posts := scheduled_posts w; tracker := tracker w;
        reads := S (reads w); trace := trace w |}).
Proof.
  intros Hno Hr. unfold PostQueue.handle_failure. rewrite Hno.
  by rewrite (bind_run_thrown _ _ _ _ _
                (updatePostStatus_missing env _ _ _ _ Hr)).
Qed.

End Failures.

(** ** The retry policy *)

Lemma shouldRetryPost_false_iff post error :
  PostQueue.shouldRetryPost post error = false ↔
    (instanceof_PostQueueError error = true
     ∧ PostQueue.error_retryable error = false)
    ∨ PostQueue.maxRetries ≤ Js.or_zero (retry_count (row post))
    ∨ (instanceof_PostQueueError error = true
       ∧ PostQueue.type_is_INVALID_CONTENT error = true).
Proof.
  unfold PostQueue.shouldRetryPost.
  destruct (instanceof_PostQueueError error) eqn:Hinst;
    destruct (PostQueue.error_retryable error) eqn:Hretry;
    destruct (PostQueue.type_is_INVALID_CONTENT error) eqn:Hty;
    destruct (Z.geb_spec (Js.or_zero (retry_count (row post)))
                PostQueue.maxRetries);
    simpl; split; intros Hcase; auto; try discriminate;
    destruct Hcase as [[? ?]|[?|[? ?]]]; solve [discriminate | lia].
Qed.

Lemma shouldRetryPost_exhausted post error :
  PostQueue.maxRetries ≤ Js.or_zero (retry_count (row post)) →
  PostQueue.shouldRetryPost post error = false.
Proof. intros H. apply shouldRetryPost_false_iff. auto. Qed.

(** C2. [maxRetries] is 3.  For a [PostQueueError], whatever its message,
    [shouldRetryPost] answers false exactly when its [retryable] flag is
    false, or the retry count of the post (0 when the column is null) is at
    least 3, or its type is [INVALID_CONTENT]; for a thrown value of any
    other class, exactly when the retry count is at least 3.  And a post
    fetched with a retry count of 3 or more whose processing fails with a
    retryable platform error ends with status [FAILED] and the error
    message, its scheduled time and retry count not moved. *)
Theorem shouldRetry_policy (env : Env) :
  PostQueue.maxRetries = 3
  ∧ (∀ post message type retryable,
       PostQueue.shouldRetryPost post (PostQueueError message type retryable)
         = false ↔
         retryable = false
         ∨ 3 ≤ default 0 (retry_count (row post))
         ∨ type = INVALID_CONTENT)
  ∧ (∀ post error,
       (∀ message type retryable,
          error ≠ PostQueueError message type retryable) →
       PostQueue.shouldRetryPost post error = false ↔
         3 ≤ default 0 (retry_count (row post)))
  ∧ (∀ post w w' message n,
       retry_count (row post) = Some n →
       3 ≤ n →
       PostQueue.processPost env post w =
         (Thrown (PostQueueError message API_ERROR true), w') →
       ∃ r r', scheduled_posts w !! id post = Some r
               ∧ scheduled_posts w' !! id post = Some r'
               ∧ failed_from (PostQueueError message API_ERROR true) r r').
Proof.
  split; [reflexivity |]. split; [| split].
  - intros post message type retryable.
    rewrite shouldRetryPost_false_iff.
    change (Js.or_zero (retry_count (row post)))
      with (default 0 (retry_count (row post))).
    unfold PostQueue.maxRetries. simpl.
    split.
    + intros [[_ Hflag]|[Hcount|[_ Htype]]]; [auto | auto |].
      right; right. destruct type; (reflexivity || discriminate).
    + intros [Hflag|[Hcount|Htype]]; [auto | auto |].
      right; right. rewrite Htype. auto.
  - intros post error Hother.
    rewrite shouldRetryPost_false_iff.
    change (Js.or_zero (retry_count (row post)))
      with (default 0 (retry_count (row post))).
    unfold PostQueue.maxRetries.
    assert (instanceof_PostQueueError error = false) as Hinst.
    { destruct error as [m|m c|m a|m t r]; try reflexivity.
      by destruct (Hother m t r). }
    rewrite Hinst. split.
    + intros [[Hno _]|[Hcount|[Hno _]]]; (discriminate || assumption).
    + auto.
  - intros post w w' message n Hcount Hmany Hrun.
    apply processPost_thrown in Hrun as (e0 & w1 & Hatt & Hcatch).
    assert (PostQueue.shouldRetryPost post e0 = false) as Hno.
    { apply shouldRetryPost_exhausted. rewrite Hcount. simpl.
      unfold PostQueue.maxRetries. lia. }
    apply attempt_thrown in Hatt as [(Hnone & Hsame & _)|(r & Hr & Hposts)].
    + rewrite handle_failure_missing in Hcatch; [discriminate | exact Hno |].
      rewrite Hsame. exact Hnone.
    + erewrite handle_failure_fails in Hcatch; [| exact Hno |].
      2:{ rewrite Hposts. apply lookup_insert_eq. }
      injection Hcatch as -> <-.
      exists r. eexists. split; [exact Hr |]. split.
      * simpl. apply lookup_insert_eq.
      * unfold failed_from; simpl. auto 10.
Qed.

(** The theorem on a post at its first attempt: a failure flagged not
    retryable and a content failure flagged retryable are not retried, a
    retryable platform error and a [TypeError] are; and on a post at its
    fourth attempt, refused by the platform with error code 1: not put
    back in the queue. *)
Lemma shouldRetry_policy_witness :
  PostQueue.shouldRetryPost (Examples.text_post 0 Examples.facebook_page)
    (PostQueueError "Unsupported platform: x" UNKNOWN false) = false
  ∧ PostQueue.shouldRetryPost (Examples.text_post 0 Examples.facebook_page)
      (PostQueueError "Post content is empty" INVALID_CONTENT true) = false
  ∧ PostQueue.shouldRetryPost (Examples.text_post 0 Examples.facebook_page)
      (PostQueueError "Unknown error" API_ERROR true) <> false
  ∧ PostQueue.shouldRetryPost (Examples.text_post 0 Examples.facebook_page)
      (OtherError "Cannot read properties of null") <> false
  ∧ PostQueue.shouldRetryPost (Examples.text_post 3 Examples.facebook_page)
      (OtherError "Cannot read properties of null") = false
  ∧ ∃ r', scheduled_posts
          (PostQueue.processPost Examples.publish_refused
             (Examples.text_post 3 Examples.facebook_page)
             (Examples.world 3 200)).2 !! "post-1" = Some r'
        ∧ status r' = FAILED
        ∧ error_message_of r' = Some "Unknown error"
        ∧ scheduled_for r' = 500
        ∧ retry_count r' = Some 3.
Proof.
  pose proof (shouldRetry_policy Examples.publish_refused)
    as (_ & Hqueue & Hother & Hfourth).
  refine (conj _ (conj _ (conj _ (conj _ (conj _ _))))).
  - apply Hqueue. left. reflexivity.
  - apply Hqueue. right. right. reflexivity.
  - intros Hno. apply Hqueue in Hno as [Hflag|[Hcount|Htype]];
      [discriminate Hflag | simpl in Hcount; lia | discriminate Htype].
  - intros Hno. apply Hother in Hno; [simpl in Hno; lia | discriminate].
  - apply Hother; [discriminate | simpl; lia].
  - destruct (Hfourth
                (Examples.text_post 3 Examples.facebook_page)
                (Examples.world 3 200)
                (PostQueue.processPost Examples.publish_refused
                   (Examples.text_post 3 Examples.facebook_page)
                   (Examples.world 3 200)).2
                "Unknown error" 3)
      as (r & r' & Hr & Hr' & Hfailed).
    + reflexivity.
    + lia.
    + vm_compute. reflexivity.
    + assert (r = Examples.text_row 3) as ->.
      { assert (Some r = Some (Examples.text_row 3)) as Heq
          by (rewrite <- Hr; vm_compute; reflexivity).
        by injection Heq. }
      destruct Hfailed as (Hst & Herr & Hsched & Hrc & _).
      exists r'. split; [exact Hr' |]. simpl in Herr, Hsched, Hrc. auto 10.
Defined.

Lemma retryDelay_table n :
  1 ≤ n →
  PostQueue.retryDelay n =
    Some (if n =? 1 then 30000
          else if n =? 2 then 60000
          else if n =? 3 then 300000
          else 900000).
Proof.
  intros Hpos. unfold PostQueue.retryDelay.
  destruct (Z.le_gt_cases 4 n) as [Hbig|Hsmall].
  - rewrite Z.min_r by (simpl; lia). simpl.
    destruct (Z.eqb_spec n 1); [lia |].
    destruct (Z.eqb_spec n 2); [lia |].
    destruct (Z.eqb_spec n 3); [lia | reflexivity].
  - assert (n = 1 ∨ n = 2 ∨ n = 3) as [->|[->| ->]] by lia; reflexivity.
Qed.

Lemma shouldRetryPost_retryable post message type :
  Js.or_zero (retry_count (row post)) < PostQueue.maxRetries →
  type ≠ INVALID_CONTENT →
  PostQueue.shouldRetryPost post (PostQueueError message type true) = true.
Proof.
  intros Hcount Htype. unfold PostQueue.shouldRetryPost; simpl.
  destruct (Z.geb_spec (Js.or_zero (retry_count (row post)))
              PostQueue.maxRetries); [lia |].
  destruct type; congruence.
Qed.

(** C3. The delay is a function of the attempt number alone: 30 s, 60 s,
    5 min for attempts 1, 2, 3 and 15 min from attempt 4 on.  [scheduleRetry]
    on a post whose retry count is [n] (0 when the column is null) puts the
    row back to [SCHEDULED] with retry count [n + 1], due at the time it
    reads plus the delay of attempt [n + 1].  And a post with retry count
    [n] below 3 whose processing fails with a retryable failure that is not
    a content failure (a network failure is one) ends [SCHEDULED] with
    retry count [n + 1], due the delay of attempt [n + 1] after the last
    clock reading of the run: 30 s and count 1 at a first attempt. *)
Theorem retry_schedule (env : Env) :
  (∀ n, 1 ≤ n →
     PostQueue.retryDelay n =
       Some (if n =? 1 then 30000
             else if n =? 2 then 60000
             else if n =? 3 then 300000
             else 900000))
  ∧ (∀ post error w r,
       scheduled_posts w !! id post = Some r →
       0 ≤ default 0 (retry_count (row post)) →
       let attempt := default 0 (retry_count (row post)) + 1 in
       let delay := if attempt =? 1 then 30000
                    else if attempt =? 2 then 60000
                    else if attempt =? 3 then 300000
                    else 900000 in
       ∃ r', PostQueue.scheduleRetry env post error w
               = (Returned tt, written w (id post) r')
             ∧ rescheduled_from attempt error (clock env (reads w)) delay r r')
  ∧ (∀ post w w' message type,
       0 ≤ default 0 (retry_count (row post)) < 3 →
       type ≠ INVALID_CONTENT →
       PostQueue.processPost env post w =
         (Thrown (PostQueueError message type true), w') →
       let attempt := default 0 (retry_count (row post)) + 1 in
       let delay := if attempt =? 1 then 30000
                    else if attempt =? 2 then 60000
                    else 300000 in
       ∃ r r', scheduled_posts w !! id post = Some r
               ∧ scheduled_posts w' !! id post = Some r'
               ∧ rescheduled_from attempt (PostQueueError message type true)
                   (clock env (Nat.pred (reads w'))) delay r r').
Proof.
  split; [exact retryDelay_table |]. split.
  - intros post error w r Hr Hcount attempt delay. eexists. split.
    + apply scheduleRetry_found; [exact Hr |].
      apply retryDelay_table.
      change (Js.or_zero (retry_count (row post)))
        with (default 0 (retry_count (row post))).
      lia.
    + unfold rescheduled_from; simpl. auto 10.
  - intros post w w' message type Hcount Htype Hrun attempt delay.
    assert (PostQueue.shouldRetryPost post (PostQueueError message type true)
            = true) as Hyes.
    { apply shouldRetryPost_retryable; [| exact Htype].
      change (Js.or_zero (retry_count (row post)))
        with (default 0 (retry_count (row post))).
      unfold PostQueue.maxRetries. lia. }
    assert (PostQueue.retryDelay (Js.or_zero (retry_count (row post)) + 1)
            = Some delay) as Hdelay.
    { change (Js.or_zero (retry_count (row post)) + 1) with attempt.
      rewrite retryDelay_table by (subst attempt; lia).
      subst delay. f_equal.
      destruct (Z.eqb_spec attempt 1); [reflexivity |].
      destruct (Z.eqb_spec attempt 2); [reflexivity |].
      destruct (Z.eqb_spec attempt 3); [reflexivity |].
      subst attempt. lia. }
    apply processPost_thrown in Hrun as (e0 & w1 & Hatt & Hcatch).
    apply attempt_thrown in Hatt as [(Hnone & Hsame & ->)|(r & Hr & Hposts)].
    + rewrite handle_failure_missing in Hcatch; [discriminate | reflexivity |].
      rewrite Hsame. exact Hnone.
    + assert (scheduled_posts w1 !! id post
              = Some (processing (clock env (S (reads w))) r)) as Hr1.
      { rewrite Hposts. apply lookup_insert_eq. }
      destruct (PostQueue.shouldRetryPost post e0) eqn:Hretry.
      * erewrite handle_failure_retries in Hcatch; [| eassumption ..].
        injection Hcatch as -> <-.
        exists r. eexists. split; [exact Hr |]. split.
        { simpl. apply lookup_insert_eq. }
        unfold rescheduled_from; simpl. auto 10.
      * erewrite handle_failure_fails in Hcatch; [| eassumption ..].
        injection Hcatch as -> <-. congruence.
Qed.

(** The theorem on [scheduleRetry] for posts that have been tried once,
    twice, three and seven times before, at clock reading 1000: counts 2,
    3, 4 and 8, due 60 s, 5 min, 15 min and 15 min later; and on whole
    runs whose publishing request cannot reach the platform: a first
    attempt is back in the queue due 30 s after the fifth clock reading
    with count 1, a second attempt due 60 s after it with count 2. *)
Lemma retry_schedule_witness :
  (∃ r', scheduled_posts
          (PostQueue.scheduleRetry Examples.all_ok
             (Examples.text_post 1 Examples.facebook_page)
             (OtherError "Failed to fetch")
             (Examples.world 1 200)).2 !! "post-1" = Some r'
        ∧ status r' = SCHEDULED
        ∧ scheduled_for r' = 1000 + 60000
        ∧ retry_count r' = Some 2)
  ∧ (∃ r', scheduled_posts
          (PostQueue.scheduleRetry Examples.all_ok
             (Examples.text_post 2 Examples.facebook_page)
             (OtherError "Failed to fetch")
             (Examples.world 2 200)).2 !! "post-1" = Some r'
        ∧ status r' = SCHEDULED
        ∧ scheduled_for r' = 1000 + 300000
        ∧ retry_count r' = Some 3)
  ∧ (∃ r', scheduled_posts
          (PostQueue.scheduleRetry Examples.all_ok
             (Examples.text_post 3 Examples.facebook_page)
             (OtherError "Failed to fetch")
             (Examples.world 3 200)).2 !! "post-1" = Some r'
        ∧ status r' = SCHEDULED
        ∧ scheduled_for r' = 1000 + 900000
        ∧ retry_count r' = Some 4)
  ∧ (∃ r', scheduled_posts
          (PostQueue.scheduleRetry Examples.all_ok
             (Examples.text_post 7 Examples.facebook_page)
             (OtherError "Failed to fetch")
             (Examples.world 7 200)).2 !! "post-1" = Some r'
        ∧ status r' = SCHEDULED
        ∧ scheduled_for r' = 1000 + 900000
        ∧ retry_count r' = Some 8)
  ∧ (∃ r', scheduled_posts
          (PostQueue.processPost Examples.publish_unreachable
             (Examples.text_post 0 Examples.facebook_page)
             (Examples.world 0 200)).2 !! "post-1" = Some r'
        ∧ status r' = SCHEDULED
        ∧ scheduled_for r' = 1004 + 30000
        ∧ retry_count r' = Some 1)
  ∧ (∃ r', scheduled_posts
          (PostQueue.processPost Examples.publish_unreachable
             (Examples.text_post 1 Examples.facebook_page)
             (Examples.world 1 200)).2 !! "post-1" = Some r'
        ∧ status r' = SCHEDULED
        ∧ scheduled_for r' = 1004 + 60000
        ∧ retry_count r' = Some 2).
Proof.
  pose proof (retry_schedule Examples.all_ok) as (_ & Hwrite & _).
  pose proof (retry_schedule Examples.publish_unreachable) as (_ & _ & Hrun).
  refine (conj _ (conj _ (conj _ (conj _ (conj _ _))))).
  - destruct (Hwrite (Examples.text_post 1 Examples.facebook_page)
                (OtherError "Failed to fetch") (Examples.world 1 200)
                (Examples.text_row 1))
      as (r' & Heq & Hst & Hsched & Hcount & _).
    + apply lookup_singleton_eq.
    + simpl; lia.
    + exists r'. rewrite Heq. split; [apply lookup_insert_eq |].
      split; [exact Hst |]. split; [exact Hsched | exact Hcount].
  - destruct (Hwrite (Examples.text_post 2 Examples.facebook_page)
                (OtherError "Failed to fetch") (Examples.world 2 200)
                (Examples.text_row 2))
      as (r' & Heq & Hst & Hsched & Hcount & _).
    + apply lookup_singleton_eq.
    + simpl; lia.
    + exists r'. rewrite Heq. split; [apply lookup_insert_eq |].
      split; [exact Hst |]. split; [exact Hsched | exact Hcount].
  - destruct (Hwrite (Examples.text_post 3 Examples.facebook_page)
                (OtherError "Failed to fetch") (Examples.world 3 200)
                (Examples.text_row 3))
      as (r' & Heq & Hst & Hsched & Hcount & _).
    + apply lookup_singleton_eq.
    + simpl; lia.
    + exists r'. rewrite Heq. split; [apply lookup_insert_eq |].
      split; [exact Hst |]. split; [exact Hsched | exact Hcount].
  - destruct (Hwrite (Examples.text_post 7 Examples.facebook_page)
                (OtherError "Failed to fetch") (Examples.world 7 200)
                (Examples.text_row 7))
      as (r' & Heq & Hst & Hsched & Hcount & _).
    + apply lookup_singleton_eq.
    + simpl; lia.
    + exists r'. rewrite Heq. split; [apply lookup_insert_eq |].
      split; [exact Hst |]. split; [exact Hsched | exact Hcount].
  - destruct (Hrun
                (Examples.text_post 0 Examples.facebook_page)
                (Examples.world 0 200)
                (PostQueue.processPost Examples.publish_unreachable
                   (Examples.text_post 0 Examples.facebook_page)
                   (Examples.world 0 200)).2
                "Network error: Failed to fetch" API_ERROR)
      as (r & r' & Hr & Hr' & Hst & Hsched & Hcount & _).
    + simpl; lia.
    + discriminate.
    + vm_compute. reflexivity.
    + exists r'. split; [exact Hr' |]. split; [exact Hst |].
      split; [| exact Hcount].
      rewrite Hsched. vm_compute. reflexivity.
  - destruct (Hrun
                (Examples.text_post 1 Examples.facebook_page)
                (Examples.world 1 200)
                (PostQueue.processPost Examples.publish_unreachable
                   (Examples.text_post 1 Examples.facebook_page)
                   (Examples.world 1 200)).2
                "Network error: Failed to fetch" API_ERROR)
      as (r & r' & Hr & Hr' & Hst & Hsched & Hcount & _).
    + simpl; lia.
    + discriminate.
    + vm_compute. reflexivity.
    + exists r'. split; [exact Hr' |]. split; [exact Hst |].
      split; [| exact Hcount].
      rewrite Hsched. vm_compute. reflexivity.
Defined.

(** ** Publishers *)

Section PublisherFacts.
Context (env : Env).

Lemma classify_throws {A} error w :
  ∃ message type retryable,
    (PostQueue.classify error : M A) w
      = (Thrown (PostQueueError message type retryable), w).
Proof.
  unfold PostQueue.classify.
  destruct (instanceof_RateLimitError error);
    [| destruct (instanceof_FacebookAPIError error)];
    unfold throw; eauto.
Qed.

(** A [PostQueueError] thrown inside the [try] block of a publisher is
    caught by the [catch] clause of the same publisher, which sees neither
    a [RateLimitError] nor a [FacebookAPIError] and throws a retryable
    [NETWORK_ERROR] with the same message. *)
Lemma classify_PostQueueError {A} message type retryable w :
  (PostQueue.classify (PostQueueError message type retryable) : M A) w
    = (Thrown (PostQueueError message NETWORK_ERROR true), w).
Proof. reflexivity. Qed.

(** The media check of the Instagram publisher comes first: without
    media nothing is sent, the tracker is not consulted, and what leaves
    the publisher is the reclassified error. *)
Lemma publishToInstagram_without_media post account w :
  PostQueue.has_media post = false →
  PostQueue.publishToInstagram env post account w =
    (Thrown (PostQueueError "Instagram posts require media" NETWORK_ERROR true),
     w).
Proof.
  intros Hno. unfold PostQueue.publishToInstagram, try_catch.
  rewrite Hno. reflexivity.
Qed.

End PublisherFacts.

(** C5, on the code.  An Instagram post with an empty media list, valid in
    every other respect and at its first attempt: the publisher sends
    nothing and throws, but what it throws is a retryable [NETWORK_ERROR],
    and [processPost] puts the post back in the queue for a second attempt
    30 s later instead of marking it [FAILED]. *)
Theorem instagram_without_media_is_rescheduled :
  let post := Examples.text_post 0 Examples.instagram_account in
  let w := Examples.world 0 200 in
  let out := PostQueue.processPost Examples.all_ok post w in
  PostQueue.validatePost post = Returned tt
  ∧ PostQueue.publishToInstagram Examples.all_ok post Examples.instagram_account w
    = (Thrown (PostQueueError "Instagram posts require media" NETWORK_ERROR true),
       w)
  ∧ out.1 = Thrown (PostQueueError "Instagram posts require media"
                                   NETWORK_ERROR true)
  ∧ trace out.2 = []
  ∧ scheduled_posts out.2 !! "post-1" =
      Some {| user_id := "user-1"; content := Some "Open today";
              media_urls := Some []; scheduled_for := 1002 + 30000;
              status := SCHEDULED; retry_count := Some 1;
              error_message_of :=
                Some "Retry 1: Instagram posts require media";
              platform_post_id := None; updated_at := 1001 |}.
Proof. vm_compute. auto 10. Qed.

Section Introspection.
Context (env : Env).


(** [validateToken] when the permission check is granted. *)
Lemma validateToken_granted token w t' :
  RateLimit.checkLimit (clock env (reads w)) (tracker w) = (Returned tt, t') →
  Facebook.validateToken env token w =
    (Returned (Facebook.valid_of
                 (net env (length (trace w)) (Facebook.debug_token token))),
     {| scheduled_posts := scheduled_posts w; tracker := t';
        reads := S (reads w);
        trace := trace w ++ [Facebook.debug_token token] |}).
Proof.
  intros Hgrant. unfold Facebook.validateToken.
  unfold bind at 1. rewrite checkLimit_run, Hgrant. reflexivity.
Qed.

(** [validateToken] when the permission check is denied. *)
Lemma validateToken_denied token w e t' :
  RateLimit.checkLimit (clock env (reads w)) (tracker w) = (Thrown e, t') →
  Facebook.validateToken env token w =
    (Thrown e,
     {| scheduled_posts := scheduled_posts w; tracker := t';
        reads := S (reads w); trace := trace w |}).
Proof.
  intros Hdeny. unfold Facebook.validateToken.
  unfold bind at 1. rewrite checkLimit_run, Hdeny. reflexivity.
Qed.




End Introspection.




(** ** One tracker for every Graph API call *)

Section SharedCounter.
Context (env : Env).

Lemma guarded_tracker {A} (rest : M A) w :
  keeps_tracker rest →
  tracker ((checkLimit env >> rest) w).2 =
    (RateLimit.checkLimit (clock env (reads w)) (tracker w)).2.
Proof.
  intros Hrest. unfold bind. rewrite checkLimit_run.
  destruct (RateLimit.checkLimit _ _) as [[[]|e] t']; simpl; [| reflexivity].
  rewrite Hrest. reflexivity.
Qed.

Lemma guarded_denied {A} (rest : M A) w e :
  (RateLimit.checkLimit (clock env (reads w)) (tracker w)).1 = Thrown e →
  ((checkLimit env >> rest) w).1 = Thrown e
  ∧ trace ((checkLimit env >> rest) w).2 = trace w.
Proof.
  intros Hdeny. unfold bind. rewrite checkLimit_run.
  destruct (RateLimit.checkLimit _ _) as [[[]|e'] t']; simpl in *;
    [discriminate | injection Hdeny as ->; split; reflexivity].
Qed.

Lemma checkLimit_granted_counts now t :
  (RateLimit.checkLimit now t).1 = Returned tt →
  RateLimit.requests (RateLimit.checkLimit now t).2 =
    RateLimit.requests (RateLimit.roll now t) + 1.
Proof.
  unfold RateLimit.checkLimit.
  destruct (RateLimit.requests (RateLimit.roll now t)
            >=? RateLimit.maxRequests (RateLimit.roll now t));
    simpl; [discriminate | reflexivity].
Qed.

End SharedCounter.

(** C9, as the code has it.  There is one tracker.  Each of the five Graph
    API calls of the queue, the Facebook ones and the Instagram ones alike,
    leaves the tracker exactly as [checkLimit] leaves it at the clock
    reading the call takes; a granted check adds one to the one count (after
    the window roll); and a denied check makes the call throw the denial
    without sending anything, whichever platform it is for. *)
Theorem one_shared_counter (env : Env) (w : World) :
  let check := RateLimit.checkLimit (clock env (reads w)) (tracker w) in
  (∀ token, tracker (Facebook.validateToken env token w).2 = check.2)
  ∧ (∀ page token data,
       tracker (Facebook.publishPagePost env page token data w).2 = check.2)
  ∧ (∀ page token data,
       tracker (Facebook.publishPagePhoto env page token data w).2 = check.2)
  ∧ (∀ account token url caption kind,
       tracker (Facebook.createInstagramPost env account token url caption
                  kind w).2 = check.2)
  ∧ (∀ account creation token,
       tracker (Facebook.publishInstagramPost env account creation token w).2
         = check.2)
  ∧ (check.1 = Returned tt →
       RateLimit.requests check.2 =
         RateLimit.requests
           (RateLimit.roll (clock env (reads w)) (tracker w)) + 1)
  ∧ (∀ e, check.1 = Thrown e →
       (∀ page token data,
          let out := Facebook.publishPagePost env page token data w in
          out.1 = Thrown e ∧ trace out.2 = trace w)
       ∧ (∀ account token url caption kind,
            let out := Facebook.createInstagramPost env account token url
                         caption kind w in
            out.1 = Thrown e ∧ trace out.2 = trace w)).
Proof.
  intros check. subst check.
  refine (conj _ (conj _ (conj _ (conj _ (conj _ (conj _ _)))))).
  - intros token. apply guarded_tracker. frame.
  - intros page token data. apply guarded_tracker.
    unfold Facebook.answer_or_throw, Facebook.rethrow. frame.
  - intros page token data. apply guarded_tracker.
    unfold Facebook.answer_or_throw, Facebook.rethrow. frame.
  - intros account token url caption kind. apply guarded_tracker.
    unfold Facebook.answer_or_throw, Facebook.rethrow. frame.
  - intros account creation token. apply guarded_tracker.
    unfold Facebook.answer_or_throw, Facebook.rethrow. frame.
  - apply checkLimit_granted_counts.
  - intros e Hdeny. split; intros; apply guarded_denied; exact Hdeny.
Qed.

(** The theorem on a world whose permits are used up: the Facebook text
    call and the Instagram container call are refused alike, with the same
    denial, and nothing is sent. *)
Lemma one_shared_counter_witness :
  let denial := RateLimit.exceeded 3599 in
  (∀ page token data,
     let out := Facebook.publishPagePost Examples.all_ok page token data
                  Exhausted.world in
     out.1 = Thrown denial ∧ trace out.2 = [])
  ∧ (∀ account token url caption kind,
       let out := Facebook.createInstagramPost Examples.all_ok account token
                    url caption kind Exhausted.world in
       out.1 = Thrown denial ∧ trace out.2 = []).
Proof.
  intros denial.
  apply (proj2 (proj2 (proj2 (proj2 (proj2 (proj2
           (one_shared_counter Examples.all_ok Exhausted.world))))))
           denial).
  reflexivity.
Defined.

(** C9 as stated fails: with four permits in the window, the Instagram
    post is published when it comes first, and is refused by the rate gate
    when a Facebook post has been published before it in the same window. *)
Lemma facebook_publish_uses_instagram_capacity :
  let w := Examples.world 0 4 in
  let facebook := Examples.text_post 0 Examples.facebook_page in
  let alone := PostQueue.publishPost Examples.all_ok Examples.photo_post w in
  let facebook_first := PostQueue.publishPost Examples.all_ok facebook w in
  let second :=
    PostQueue.publishPost Examples.all_ok Examples.photo_post facebook_first.2 in
  alone.1 = Returned {| PostQueue.result_platform_post_id := Some "fb-77";
                        PostQueue.result_platform := "instagram" |}
  ∧ RateLimit.requests (tracker alone.2) = 3
  ∧ facebook_first.1 =
      Returned {| PostQueue.result_platform_post_id := Some "fb-77";
                  PostQueue.result_platform := "facebook" |}
  ∧ RateLimit.requests (tracker facebook_first.2) = 2
  ∧ second.1 = Thrown (PostQueueError
                         "Rate limit exceeded. Try again in 3599 seconds."
                         RATE_LIMIT true).
Proof. vm_compute. auto 10. Qed.

(** ** The guard of the processing pass *)

Section Guard.
Import PostQueue.

Lemma step_invariant p e : guard_invariant p → guard_invariant (step p e).
Proof.
  unfold guard_invariant.
  intros [[Hnone Hfree]|(phase & Hone & Hheld)]; destruct p as [busy running];
    simpl in *; subst; destruct e as [|n q|n rejected]; simpl;
    rewrite ?lookup_nil; eauto.
  - destruct n as [|n]; simpl; rewrite ?lookup_nil; eauto.
    destruct phase; eauto.
    destruct (length (getDuePosts q) =? 0)%nat; simpl; eauto.
  - destruct n as [|n]; simpl; rewrite ?lookup_nil; eauto.
    destruct phase; simpl; eauto.
Qed.

Lemma fold_invariant events p :
  guard_invariant p → guard_invariant (fold_left step events p).
Proof.
  revert p. induction events as [|e events IH]; intros p Hp; simpl.
  - exact Hp.
  - apply IH, step_invariant, Hp.
Qed.

Lemma run_invariant events : guard_invariant (run events).
Proof. apply fold_invariant. left. auto. Qed.

Lemma getDuePosts_failure message :
  getDuePosts (QueryError message) = []
  ∧ getDuePosts (QueryRejected message) = [].
Proof. split; reflexivity. Qed.

End Guard.

(** C4. After any sequence of ticks and resumptions, at most one pass is
    past the guard.  While one is, the guard is held and a tick changes
    nothing: no second pass, nothing kept for later.  The pass that leaves,
    whether because the fetch gave no post (and a failed fetch gives none)
    or because all the posts of the batch have settled, leaves the guard
    free and no pass behind, so that the next tick starts a pass. *)
Theorem guard_exclusive :
  (∀ events, (length (PostQueue.passes (PostQueue.run events)) ≤ 1)%nat)
  ∧ (∀ events,
       PostQueue.passes (PostQueue.run events) ≠ [] →
       PostQueue.isProcessing (PostQueue.run events) = true
       ∧ PostQueue.step (PostQueue.run events) PostQueue.Tick
         = PostQueue.run events)
  ∧ (∀ message,
       PostQueue.getDuePosts (PostQueue.QueryError message) = []
       ∧ PostQueue.getDuePosts (PostQueue.QueryRejected message) = [])
  ∧ (∀ events n q,
       PostQueue.passes (PostQueue.run events) !! n
         = Some PostQueue.AwaitingDuePosts →
       PostQueue.getDuePosts q = [] →
       PostQueue.step (PostQueue.run events) (PostQueue.DuePostsSettled n q)
         = PostQueue.new_processor)
  ∧ (∀ events n duePosts rejected,
       PostQueue.passes (PostQueue.run events) !! n
         = Some (PostQueue.AwaitingAll duePosts) →
       PostQueue.step (PostQueue.run events) (PostQueue.AllSettled n rejected)
         = PostQueue.new_processor)
  ∧ (∀ events,
       PostQueue.passes (PostQueue.run events) = [] →
       PostQueue.step (PostQueue.run events) PostQueue.Tick
         = {| PostQueue.isProcessing := true;
              PostQueue.passes := [PostQueue.AwaitingDuePosts] |}).
Proof.
  refine (conj _ (conj _ (conj _ (conj _ (conj _ _))))).
  - intros events.
    destruct (run_invariant events) as [[-> _]|(phase & -> & _)]; simpl; lia.
  - intros events Hbusy.
    destruct (run_invariant events) as [[Hnone _]|(phase & _ & Hheld)];
      [congruence |].
    split; [exact Hheld |]. unfold PostQueue.step. by rewrite Hheld.
  - apply getDuePosts_failure.
  - intros events n q Hpass Hempty.
    destruct (run_invariant events) as [[Hnone _]|(phase & Hone & Hheld)].
    + rewrite Hnone, lookup_nil in Hpass. discriminate.
    + unfold PostQueue.step. rewrite Hpass, Hempty. simpl.
      rewrite Hone in Hpass. destruct n as [|n]; [| discriminate]. 
      unfold PostQueue.finish, PostQueue.new_processor. by rewrite Hone.
  - intros events n duePosts rejected Hpass.
    destruct (run_invariant events) as [[Hnone _]|(phase & Hone & Hheld)].
    + rewrite Hnone, lookup_nil in Hpass. discriminate.
    + unfold PostQueue.step. rewrite Hpass.
      rewrite Hone in Hpass. destruct n as [|n]; [| discriminate].
      unfold PostQueue.finish, PostQueue.new_processor. by rewrite Hone.
  - intros events Hnone.
    destruct (run_invariant events) as [[_ Hfree]|(phase & Hone & _)];
      [| congruence].
    unfold PostQueue.step. by rewrite Hfree, Hnone.
Qed.

(** A tick during a pass, a failed fetch and a settled batch, on the
    theorem. *)
Lemma guard_exclusive_witness :
  (PostQueue.isProcessing (PostQueue.run [PostQueue.Tick]) = true
   ∧ PostQueue.step (PostQueue.run [PostQueue.Tick]) PostQueue.Tick
     = PostQueue.run [PostQueue.Tick])
  ∧ PostQueue.step (PostQueue.run [PostQueue.Tick; PostQueue.Tick])
      (PostQueue.DuePostsSettled 0 (PostQueue.QueryError "connection lost"))
    = PostQueue.new_processor
  ∧ PostQueue.step
      (PostQueue.run
         [PostQueue.Tick;
          PostQueue.DuePostsSettled 0
            (PostQueue.QueryData (Some [Examples.photo_post]));
          PostQueue.Tick])
      (PostQueue.AllSettled 0 false)
    = PostQueue.new_processor.
Proof.
  refine (conj _ (conj _ _)).
  - apply (proj1 (proj2 guard_exclusive) [PostQueue.Tick]). discriminate.
  - apply (proj1 (proj2 (proj2 (proj2 guard_exclusive)))
             [PostQueue.Tick; PostQueue.Tick] 0%nat
             (PostQueue.QueryError "connection lost")); reflexivity.
  - apply (proj1 (proj2 (proj2 (proj2 (proj2 guard_exclusive))))
             [PostQueue.Tick;
              PostQueue.DuePostsSettled 0
                (PostQueue.QueryData (Some [Examples.photo_post]));
              PostQueue.Tick] 0%nat [Examples.photo_post] false).
    reflexivity.
Defined.

(** ** Cancelling *)

Section Cancel.

(** What [getScheduledPosts] returns are rows of the table that belong to
    the user. *)
Lemma getScheduledPosts_sound (table : gmap string Row) userId limit i r :
  (i, r) ∈ Supabase.getScheduledPosts table userId limit →
  table !! i = Some r ∧ user_id r = userId.
Proof.
  unfold Supabase.getScheduledPosts. intros Hin.
  apply subseteq_take in Hin.
  rewrite merge_sort_Permutation in Hin.
  apply list_elem_of_filter in Hin as [Huser Hin].
  apply elem_of_map_to_list in Hin. auto.
Qed.

Lemma find_by_id (posts : list (string * Row)) postId i r :
  List.find (fun p => String.eqb p.1 postId) posts = Some (i, r) →
  i = postId ∧ (i, r) ∈ posts.
Proof.
  intros Hfind. apply find_some in Hfind as [Hin Heq].
  apply String.eqb_eq in Heq. split; [exact Heq |].
  by apply list_elem_of_In.
Qed.

(** The check between the read and the write never passes on a posted
    row. *)
Lemma cancelPost_check_posted (table : gmap string Row) userId limit postId r :
  table !! postId = Some r → status r = POSTED →
  ∃ e, PostQueue.cancelPost_check
         (Supabase.getScheduledPosts table userId limit) postId = Thrown e.
Proof.
  intros Hr Hposted. unfold PostQueue.cancelPost_check.
  destruct (List.find _ _) as [[i r0]|] eqn:Hfind; [| eauto].
  apply find_by_id in Hfind as [-> Hin].
  apply getScheduledPosts_sound in Hin as [Hr0 _].
  assert (r0 = r) as -> by congruence.
  simpl. rewrite Hposted. destruct (decide (POSTED = POSTED)); [eauto | done].
Qed.

(** The check passes on a row that was fetched and is not posted. *)
Lemma cancelPost_check_found (table : gmap string Row) userId limit postId r :
  (postId, r) ∈ Supabase.getScheduledPosts table userId limit →
  status r ≠ POSTED →
  PostQueue.cancelPost_check
    (Supabase.getScheduledPosts table userId limit) postId = Returned tt.
Proof.
  intros Hin Hnot. unfold PostQueue.cancelPost_check.
  destruct (List.find _ _) as [[i r0]|] eqn:Hfind.
  - apply find_by_id in Hfind as [-> Hin0].
    apply getScheduledPosts_sound in Hin0 as [Hr0 _].
    apply getScheduledPosts_sound in Hin as [Hr _].
    assert (r0 = r) as -> by congruence.
    simpl. destruct (decide (status r = POSTED)); [done | reflexivity].
  - apply list_elem_of_In in Hin.
    eapply find_none in Hfind; [| exact Hin]. simpl in Hfind.
    rewrite String.eqb_refl in Hfind. discriminate.
Qed.

(** The test when the post is not among the posts read. *)
Lemma cancelPost_check_missing (posts : list (string * Row)) postId :
  (∀ r, (postId, r) ∉ posts) →
  PostQueue.cancelPost_check posts postId =
    Thrown (PostQueueError "Post not found or access denied"
                           MISSING_ACCOUNT false).
Proof.
  intros Hnone. unfold PostQueue.cancelPost_check.
  destruct (List.find _ _) as [[i r0]|] eqn:Hfind; [| reflexivity].
  apply find_by_id in Hfind as [-> Hin]. by destruct (Hnone r0).
Qed.

(** The test on a row that was read with status [POSTED]. *)
Lemma cancelPost_check_refused (table : gmap string Row) userId limit postId r :
  (postId, r) ∈ Supabase.getScheduledPosts table userId limit →
  status r = POSTED →
  PostQueue.cancelPost_check
    (Supabase.getScheduledPosts table userId limit) postId =
    Thrown (PostQueueError "Cannot cancel already posted content"
                           INVALID_CONTENT false).
Proof.
  intros Hin Hposted.
  destruct (cancelPost_check_posted table userId limit postId r) as [e He];
    [by apply getScheduledPosts_sound in Hin as [Hr _] | exact Hposted |].
  revert He. unfold PostQueue.cancelPost_check.
  destruct (List.find _ _) as [[i r0]|] eqn:Hfind.
  - destruct (decide (status (i, r0).2 = POSTED)); [reflexivity | discriminate].
  - apply list_elem_of_In in Hin.
    eapply find_none in Hfind; [| exact Hin]. simpl in Hfind.
    rewrite String.eqb_refl in Hfind. discriminate.
Qed.

(** A run of [cancelPost] in three steps: the read, what the other calls
    do, then the test on the posts read and the update. *)
Lemma cancelPost_run meanwhile postId userId w :
  PostQueue.cancelPost meanwhile postId userId w =
    match PostQueue.cancelPost_check
            (Supabase.getScheduledPosts (scheduled_posts w) userId
               Supabase.default_limit) postId with
    | Returned _ => PostQueue.cancelPost_write postId (meanwhile w)
    | Thrown e => (Thrown e, meanwhile w)
    end.
Proof.
  unfold PostQueue.cancelPost, bind, await_others, PostQueue.lift.
  by destruct (PostQueue.cancelPost_check _ _) as [[]|e].
Qed.

End Cancel.

(** C6.  The update of [cancelPost] is not conditioned on the status of the
    row.  The owner cancels the one scheduled post while its publication is
    in flight: the post is read as [SCHEDULED]; before the update reaches
    the database the publication completes, the post is on the platform
    under the id fb-77 and its row is [POSTED]; [cancelPost] then returns
    true and the row is [CANCELLED], with the message ["Cancelled by
    user"], the platform id still in it.  The guard ["Cannot cancel already
    posted content"] was passed on the stale row. *)
Theorem cancel_overwrites_a_publication :
  let w := Examples.world 0 200 in
  let post := Examples.text_post 0 Examples.facebook_page in
  let publication := PostQueue.processPost Examples.all_ok post in
  let out := PostQueue.cancelPost (fun w => (publication w).2)
               "post-1" "user-1" w in
  Supabase.getScheduledPosts (scheduled_posts w) "user-1" 50
    = [("post-1", Examples.text_row 0)]
  ∧ status (Examples.text_row 0) = SCHEDULED
  ∧ (publication w).1
    = Returned {| PostQueue.result_platform_post_id := Some "fb-77";
                  PostQueue.result_platform := "facebook" |}
  ∧ trace (publication w).2 =
      [{| endpoint := DebugToken; params := [("input_token", "token-1")] |};
       {| endpoint := Feed "page-1";
          params := [("message", "Open today"); ("published", "true");
                     ("access_token", "token-1")] |}]
  ∧ (∃ r1, scheduled_posts (publication w).2 !! "post-1" = Some r1
           ∧ status r1 = POSTED
           ∧ platform_post_id r1 = Some "fb-77"
           ∧ error_message_of r1 = None)
  ∧ out.1 = Returned true
  ∧ trace out.2 = trace (publication w).2
  ∧ (∃ r2, scheduled_posts out.2 !! "post-1" = Some r2
           ∧ status r2 = CANCELLED
           ∧ error_message_of r2 = Some "Cancelled by user"
           ∧ platform_post_id r2 = Some "fb-77"
           ∧ content r2 = Some "Open today").
Proof.
  vm_compute.
  refine (conj eq_refl (conj eq_refl (conj eq_refl (conj eq_refl
            (conj _ (conj eq_refl (conj eq_refl _))))))).
  - eexists. split; [reflexivity |]. auto.
  - eexists. split; [reflexivity |]. auto.
Qed.

(** * Further properties of the code *)

(** ** The rate limit tracker over many checks *)

Section RateMore.
Import RateLimit.

Lemma ceil_div_1000 x :
  ∃ r, 0 ≤ r < 1000 ∧ 1000 * Js.ceil_div x 1000 = x + r
       ∧ (r = 0 ↔ x mod 1000 = 0).
Proof.
  unfold Js.ceil_div. exists ((- x) mod 1000).
  pose proof (Z.mod_pos_bound (- x) 1000 ltac:(lia)) as Hr.
  pose proof (Z.div_mod (- x) 1000 ltac:(lia)) as Hdiv.
  split; [exact Hr |]. split; [lia |].
  pose proof (Z.mod_pos_bound x 1000 ltac:(lia)) as Hx.
  pose proof (Z.div_mod x 1000 ltac:(lia)) as Hxdiv.
  split; intros Hz.
  - assert (x = 1000 * (- (- x / 1000))) as Hmul by lia.
    rewrite Hmul at 1. rewrite Z.mul_comm. apply Z.mod_mul. lia.
  - assert (- x = 1000 * (- (x / 1000))) as Hmul by lia.
    rewrite Hmul at 1. rewrite Z.mul_comm. apply Z.mod_mul. lia.
Qed.

Lemma waitTime_bounds now t :
  now ≤ resetTime t →
  0 ≤ waitTime now t ∧ resetTime t ≤ now + 1000 * waitTime now t
  ∧ (now < resetTime t → 1 ≤ waitTime now t).
Proof.
  intros Hle. unfold waitTime.
  destruct (ceil_div_1000 (resetTime t - now)) as (r & Hr & Hmul & _). lia.
Qed.

Lemma checkLimit_max now t :
  maxRequests (checkLimit now t).2 = maxRequests t.
Proof.
  unfold checkLimit, roll.
  destruct (now >? resetTime t); simpl;
    match goal with |- context [if ?b then _ else _] => destruct b end;
    reflexivity.
Qed.

Lemma checkLimit_keeps_bounds now t :
  0 ≤ requests t ≤ maxRequests t →
  0 ≤ requests (checkLimit now t).2 ≤ maxRequests (checkLimit now t).2
  ∧ resetTime t ≤ resetTime (checkLimit now t).2.
Proof.
  intros Hb. unfold checkLimit, roll.
  destruct (Z.gtb_spec now (resetTime t)); simpl.
  - destruct (Z.geb_spec 0 (maxRequests t)); simpl; unfold windowLength; lia.
  - destruct (Z.geb_spec (requests t) (maxRequests t)); simpl; lia.
Qed.

Lemma checkLimits_snoc nows now t :
  checkLimits (nows ++ [now]) t =
    ((checkLimits nows t).1 ++ [(checkLimit now (checkLimits nows t).2).1],
     (checkLimit now (checkLimits nows t).2).2).
Proof.
  rewrite checkLimits_app. destruct (checkLimits nows t) as [os t1]. simpl.
  destruct (checkLimit now t1). reflexivity.
Qed.

End RateMore.

(** X1. Whatever the times of the checks, a tracker whose count lies
    between 0 and its maximum keeps it there; its maximum never changes and
    its reset time never moves back. *)
Theorem tracker_stays_within_bounds (nows : list Z) (t : RateLimit.Tracker) :
  0 ≤ RateLimit.requests t ≤ RateLimit.maxRequests t →
  let t' := (RateLimit.checkLimits nows t).2 in
  0 ≤ RateLimit.requests t' ≤ RateLimit.maxRequests t'
  ∧ RateLimit.maxRequests t' = RateLimit.maxRequests t
  ∧ RateLimit.resetTime t ≤ RateLimit.resetTime t'.
Proof.
  induction nows as [|now nows IH] using rev_ind; intros Hb; simpl.
  - lia.
  - rewrite checkLimits_snoc. simpl.
    specialize (IH Hb). simpl in IH. destruct IH as (Hb1 & Hmax & Hreset).
    pose proof (checkLimit_keeps_bounds now _ Hb1) as [Hb2 Hreset2].
    rewrite checkLimit_max in *. lia.
Qed.

Lemma tracker_stays_within_bounds_witness :
  let t' := (RateLimit.checkLimits [5; 4000000; 4000001; 9000000; 3]
               (Examples.fresh_tracker 2)).2 in
  0 ≤ RateLimit.requests t' ≤ RateLimit.maxRequests t'
  ∧ RateLimit.maxRequests t' = 2
  ∧ 3600000 ≤ RateLimit.resetTime t'.
Proof.
  apply (tracker_stays_within_bounds [5; 4000000; 4000001; 9000000; 3]
           (Examples.fresh_tracker 2)).
  simpl. lia.
Defined.

Lemma returned_count_cons {A} (o : Outcome A) os :
  returned_count (o :: os) =
    (match o with Returned _ => 1 | Thrown _ => 0 end) + returned_count os.
Proof. destruct o; reflexivity. Qed.

(** X2. Checks made before the reset time are granted as long as the
    count is below the maximum and refused afterwards: out of [n] checks,
    the number granted is the smaller of [n] and the capacity left, and
    the count goes up by exactly that number. *)
Theorem grants_within_a_window (nows : list Z) (t : RateLimit.Tracker) :
  Forall (fun now => now ≤ RateLimit.resetTime t) nows →
  RateLimit.requests t ≤ RateLimit.maxRequests t →
  let out := RateLimit.checkLimits nows t in
  returned_count out.1 =
    Z.min (Z.of_nat (length nows))
          (RateLimit.maxRequests t - RateLimit.requests t)
  ∧ out.2 = {| RateLimit.requests :=
                 RateLimit.requests t + returned_count out.1;
               RateLimit.resetTime := RateLimit.resetTime t;
               RateLimit.maxRequests := RateLimit.maxRequests t |}.
Proof.
  change (Forall (fun now => now ≤ RateLimit.resetTime t) nows →
          RateLimit.requests t ≤ RateLimit.maxRequests t →
          let out := RateLimit.checkLimits nows t in
          returned_count out.1 =
            Z.min (Z.of_nat (length nows))
                  (RateLimit.maxRequests t - RateLimit.requests t)
          ∧ out.2 = RateLimit.bump t (returned_count out.1)).
  revert t. induction nows as [|now nows IH]; intros t Hin Hle.
  - simpl. split; [lia |].
    unfold RateLimit.bump; simpl. destruct t; simpl.
    f_equal. lia.
  - apply Forall_cons in Hin as [Hnow Hin].
    cbn [RateLimit.checkLimits].
    destruct (Z.lt_ge_cases (RateLimit.requests t) (RateLimit.maxRequests t))
      as [Hroom|Hfull].
    + rewrite checkLimit_grants by assumption.
      specialize (IH (RateLimit.bump t 1) Hin ltac:(simpl; lia)).
      destruct (RateLimit.checkLimits nows (RateLimit.bump t 1)) as [os t2].
      simpl in IH |- *. destruct IH as [Hcount ->].
      rewrite ?returned_count_cons, Hcount. split; [lia |].
      rewrite bump_bump. reflexivity.
    + rewrite checkLimit_denies by (assumption || lia).
      specialize (IH t Hin Hle).
      destruct (RateLimit.checkLimits nows t) as [os t2].
      simpl in IH |- *. destruct IH as [Hcount ->].
      rewrite ?returned_count_cons, Hcount. split; [lia | reflexivity].
Qed.

(** The theorem on five checks in a window of four with one used: three
    are granted and the count ends at the maximum. *)
Lemma grants_within_a_window_witness :
  let t := {| RateLimit.requests := 1; RateLimit.resetTime := 3600000;
              RateLimit.maxRequests := 4 |} in
  returned_count (RateLimit.checkLimits [1; 2; 3; 4; 5] t).1 = 3
  ∧ RateLimit.requests (RateLimit.checkLimits [1; 2; 3; 4; 5] t).2 = 4.
Proof.
  intros t.
  destruct (grants_within_a_window [1; 2; 3; 4; 5] t
              ltac:(repeat constructor; simpl; lia) ltac:(simpl; lia))
    as [Hcount Hafter].
  split; [exact Hcount |]. rewrite Hafter, Hcount. reflexivity.
Defined.

(** X3. A refused check costs nothing: the tracker is left as it was.  The
    wait it announces is the least number of whole seconds that, counted
    from the check, reaches the reset time.  But the window only rolls
    strictly after the reset time: a new check made exactly the announced
    number of seconds later is granted when the time left was not a whole
    number of seconds, and refused again, with a wait of 0, when it was;
    one millisecond later it is always granted. *)
Theorem retry_after_the_announced_wait (now : Z) (t : RateLimit.Tracker) :
  0 < RateLimit.maxRequests t →
  RateLimit.maxRequests t ≤ RateLimit.requests t →
  now ≤ RateLimit.resetTime t →
  let wait := Js.ceil_div (RateLimit.resetTime t - now) 1000 in
  let denial := fun seconds =>
    RateLimitError ("Rate limit exceeded. Try again in " +:+ pretty seconds
                    +:+ " seconds.") seconds in
  RateLimit.checkLimit now t = (Thrown (denial wait), t)
  ∧ 0 ≤ wait
  ∧ RateLimit.resetTime t ≤ now + 1000 * wait < RateLimit.resetTime t + 1000
  ∧ ((RateLimit.resetTime t - now) mod 1000 ≠ 0 →
       (RateLimit.checkLimit (now + 1000 * wait) t).1 = Returned tt)
  ∧ ((RateLimit.resetTime t - now) mod 1000 = 0 →
       RateLimit.checkLimit (now + 1000 * wait) t = (Thrown (denial 0), t))
  ∧ (RateLimit.checkLimit (now + 1000 * wait + 1) t).1 = Returned tt.
Proof.
  intros Hmax Hfull Hnow wait denial. subst wait denial.
  destruct (ceil_div_1000 (RateLimit.resetTime t - now))
    as (r & Hr & Hmul & Hzero).
  split; [exact (checkLimit_denies now t Hnow Hfull) |].
  split; [lia |]. split; [lia |].
  assert (∀ later, RateLimit.resetTime t < later →
            (RateLimit.checkLimit later t).1 = Returned tt) as Hgrant.
  { intros later Hlater. unfold RateLimit.checkLimit.
    rewrite roll_past by assumption. simpl.
    destruct (Z.geb_spec 0 (RateLimit.maxRequests t)); [lia | reflexivity]. }
  split; [| split].
  - intros Hrest. apply Hgrant.
    assert (r ≠ 0) by (intros Hr0; apply Hrest, Hzero, Hr0). lia.
  - intros Hwhole. apply Hzero in Hwhole. subst r.
    rewrite checkLimit_denies by lia.
    unfold RateLimit.waitTime, RateLimit.exceeded.
    replace (RateLimit.resetTime t
             - (now + 1000 * Js.ceil_div (RateLimit.resetTime t - now) 1000))
      with 0 by lia.
    reflexivity.
  - apply Hgrant. lia.
Qed.

(** The theorem on an exhausted window that ends at 3600000: refused at
    600000 for 3000 seconds, refused again exactly 3000 seconds later,
    granted one millisecond after that. *)
Lemma retry_after_the_announced_wait_witness :
  let t := {| RateLimit.requests := 2; RateLimit.resetTime := 3600000;
              RateLimit.maxRequests := 2 |} in
  RateLimit.checkLimit 600000 t
    = (Thrown (RateLimitError
                 "Rate limit exceeded. Try again in 3000 seconds." 3000), t)
  ∧ RateLimit.checkLimit (600000 + 1000 * 3000) t
    = (Thrown (RateLimitError
                 "Rate limit exceeded. Try again in 0 seconds." 0), t)
  ∧ (RateLimit.checkLimit (600000 + 1000 * 3000 + 1) t).1 = Returned tt.
Proof.
  intros t.
  pose proof (retry_after_the_announced_wait 600000 t
                ltac:(simpl; lia) ltac:(simpl; lia) ltac:(simpl; lia))
    as (Hdeny & _ & _ & _ & Hsame & Hlater).
  split; [exact Hdeny |]. split; [| exact Hlater].
  apply Hsame. reflexivity.
Defined.

(** X4. The status report never goes negative, and inside the window it
    agrees with the gate: capacity is reported exactly when the next check
    would be granted, and the seconds to the reset are the wait a refused
    check would announce.  It does not roll the window: once the reset time
    is passed it reports 0 seconds to the reset and still the old count,
    even none remaining, while the next check is granted. *)
Theorem status_agrees_inside_the_window (now : Z) (t : RateLimit.Tracker) :
  let st := RateLimit.getRateLimitStatus now t in
  0 ≤ RateLimit.st_remaining st
  ∧ 0 ≤ RateLimit.st_resetIn st
  ∧ (RateLimit.st_resetIn st = 0 ↔ RateLimit.resetTime t ≤ now)
  ∧ (now ≤ RateLimit.resetTime t →
       (0 < RateLimit.st_remaining st
        ↔ (RateLimit.checkLimit now t).1 = Returned tt)
       ∧ RateLimit.st_resetIn st
         = Js.ceil_div (RateLimit.resetTime t - now) 1000
       ∧ 1000 * (RateLimit.st_resetIn st - 1)
         < RateLimit.resetTime t - now ≤ 1000 * RateLimit.st_resetIn st)
  ∧ (RateLimit.resetTime t < now → 0 < RateLimit.maxRequests t →
       RateLimit.st_resetIn st = 0
       ∧ RateLimit.st_requests st = RateLimit.requests t
       ∧ RateLimit.st_remaining st
         = Z.max 0 (RateLimit.maxRequests t - RateLimit.requests t)
       ∧ (RateLimit.checkLimit now t).1 = Returned tt).
Proof.
  intros st. subst st. unfold RateLimit.getRateLimitStatus; simpl.
  split; [lia |].
  assert (RateLimit.resetTime t > now → 1 ≤ RateLimit.waitTime now t) as Hwait.
  { intros Hgt. apply waitTime_bounds; lia. }
  split; [| split; [| split]].
  - destruct (Z.gtb_spec (RateLimit.resetTime t) now); [| lia].
    specialize (Hwait ltac:(lia)). lia.
  - destruct (Z.gtb_spec (RateLimit.resetTime t) now).
    + specialize (Hwait ltac:(lia)). lia.
    + split; [lia | reflexivity].
  - intros Hin. split; [| split].
    + unfold RateLimit.checkLimit. rewrite roll_within by assumption.
      destruct (Z.geb_spec (RateLimit.requests t) (RateLimit.maxRequests t));
        simpl; split; intros Hside; try lia; try discriminate; reflexivity.
    + destruct (Z.gtb_spec (RateLimit.resetTime t) now); [reflexivity |].
      replace (RateLimit.resetTime t - now) with 0 by lia. reflexivity.
    + destruct (ceil_div_1000 (RateLimit.resetTime t - now))
        as (r & Hr & Hmul & _).
      destruct (Z.gtb_spec (RateLimit.resetTime t) now);
        unfold RateLimit.waitTime; lia.
  - intros Hpast Hmax.
    destruct (Z.gtb_spec (RateLimit.resetTime t) now); [lia |].
    split; [reflexivity |]. split; [reflexivity |]. split; [reflexivity |].
    unfold RateLimit.checkLimit. rewrite roll_past by assumption. simpl.
    destruct (Z.geb_spec 0 (RateLimit.maxRequests t)); [lia | reflexivity].
Qed.

(** The theorem on an exhausted window that ended at 3600000, one
    millisecond later: nothing remaining and 0 seconds to the reset are
    reported, and the check is granted. *)
Lemma status_agrees_inside_the_window_witness :
  let t := {| RateLimit.requests := 2; RateLimit.resetTime := 3600000;
              RateLimit.maxRequests := 2 |} in
  RateLimit.st_remaining (RateLimit.getRateLimitStatus 3600001 t) = 0
  ∧ RateLimit.st_resetIn (RateLimit.getRateLimitStatus 3600001 t) = 0
  ∧ (RateLimit.checkLimit 3600001 t).1 = Returned tt
  ∧ RateLimit.st_resetIn (RateLimit.getRateLimitStatus 600001 t) = 3000.
Proof.
  intros t.
  pose proof (status_agrees_inside_the_window 3600001 t)
    as (_ & _ & _ & _ & Hstale).
  pose proof (status_agrees_inside_the_window 600001 t)
    as (_ & _ & _ & Hinside & _).
  destruct Hstale as (Hin & _ & Hleft & Hgrant); [simpl; lia | simpl; lia |].
  destruct Hinside as (_ & Hwait & _); [simpl; lia |].
  split; [rewrite Hleft; reflexivity |].
  split; [exact Hin |]. split; [exact Hgrant |].
  rewrite Hwait. reflexivity.
Defined.

(** ** The vocabulary of the statements, in terms of the code *)

Lemma valid_of_reports r : reports_valid r → Facebook.valid_of r = true.
Proof. intros (b & -> & Hb). exact Hb. Qed.

Lemma first_nonempty_or_else x y : first_nonempty x y = PostQueue.or_else x y.
Proof. by destruct x as [[|c s]|]. Qed.

Lemma no_media_has_media post :
  no_media post → PostQueue.has_media post = false.
Proof. unfold PostQueue.has_media. by intros [-> | ->]. Qed.

Lemma instanceof_api_error e :
  instanceof_FacebookAPIError e = true → api_error e.
Proof.
  destruct e as [m|m c|m a|m t r]; try discriminate; intros _;
    [left | right]; eauto.
Qed.

(** ** What the wrappers and the publishers throw *)

Section Throws.
Context (env : Env).

Lemma throws_only_bind {A B} P (m : M A) (k : A → M B) :
  throws_only P m → (∀ a, throws_only P (k a)) → throws_only P (bind m k).
Proof.
  intros Hm Hk w e w'. unfold bind.
  destruct (m w) as [[a|e0] w1] eqn:Hrun.
  - apply Hk.
  - intros [= <- <-]. eapply Hm, Hrun.
Qed.

Lemma throws_only_try_catch {A} P (m : M A) (h : JsError → M A) :
  (∀ e, throws_only P (h e)) → throws_only P (try_catch m h).
Proof.
  intros Hh w e w'. unfold try_catch.
  destruct (m w) as [[a|e0] w1]; [discriminate | apply Hh].
Qed.

Lemma throws_only_throw {A} (P : JsError → Prop) e :
  P e → throws_only P (throw e : M A).
Proof. intros He w e' w' [= <- <-]. exact He. Qed.

Lemma throws_only_ret {A} P (a : A) : throws_only P (ret a).
Proof. intros w e w'. discriminate. Qed.

Lemma throws_only_checkLimit :
  throws_only (fun e => instanceof_RateLimitError e = true) (checkLimit env).
Proof.
  intros w e w'. rewrite checkLimit_run. unfold RateLimit.checkLimit.
  destruct (_ >=? _); simpl; [| discriminate].
  intros [= <- <-]. reflexivity.
Qed.

Lemma throws_only_weaken {A} (P Q : JsError → Prop) (m : M A) :
  (∀ e, P e → Q e) → throws_only P m → throws_only Q m.
Proof. intros HPQ Hm w e w' Hrun. eapply HPQ, Hm, Hrun. Qed.

Lemma throws_only_rethrow {A} e :
  throws_only (fun e => instanceof_FacebookAPIError e = true)
    (Facebook.rethrow e : M A).
Proof.
  unfold Facebook.rethrow.
  destruct (instanceof_FacebookAPIError e) eqn:He;
    apply throws_only_throw; [exact He | reflexivity].
Qed.

Lemma RateLimitError_is_api_error e :
  instanceof_RateLimitError e = true → instanceof_FacebookAPIError e = true.
Proof. destruct e; simpl; congruence. Qed.

Lemma throws_only_classify {A} e :
  throws_only publisher_failure (PostQueue.classify e : M A).
Proof.
  unfold PostQueue.classify.
  destruct (instanceof_RateLimitError e);
    [| destruct (instanceof_FacebookAPIError e)];
    apply throws_only_throw; unfold publisher_failure;
    do 3 eexists; (split; [reflexivity |]); split; auto; discriminate.
Qed.

End Throws.

Ltac throws_api :=
  repeat first
    [ progress cbv zeta
    | eapply throws_only_weaken;
        [exact RateLimitError_is_api_error | apply throws_only_checkLimit]
    | apply throws_only_try_catch; intros; apply throws_only_rethrow
    | apply throws_only_bind; intros
    | apply throws_only_throw; reflexivity
    | apply throws_only_ret
    | match goal with
      | |- throws_only _ (if ?b then _ else _) => destruct b
      end ].

(** X5. The five Graph API calls of the queue never let a raw exception
    out.  The introspection throws nothing but the denial of the rate gate,
    and then sends nothing: a failed request, a refusal or an empty answer
    is reported as an invalid token.  The four publishing calls throw only
    instances of [FacebookAPIError]: a network failure or an unreadable
    answer leaves as one, with code ['NETWORK_ERROR']. *)
Theorem wrappers_throw_api_errors (env : Env) :
  (∀ token w e w',
     Facebook.validateToken env token w = (Thrown e, w') →
     (∃ message wait, e = RateLimitError message wait) ∧ trace w' = trace w)
  ∧ (∀ page token data,
       throws_only api_error (Facebook.publishPagePost env page token data))
  ∧ (∀ page token data,
       throws_only api_error (Facebook.publishPagePhoto env page token data))
  ∧ (∀ account token url caption kind,
       throws_only api_error
         (Facebook.createInstagramPost env account token url caption kind))
  ∧ (∀ account creation token,
       throws_only api_error
         (Facebook.publishInstagramPost env account creation token)).
Proof.
  assert (∀ A (m : M A),
            throws_only (fun e => instanceof_FacebookAPIError e = true) m →
            throws_only api_error m) as Hclass.
  { intros A m Hm w e w' Hrun. apply instanceof_api_error.
    exact (Hm w e w' Hrun). }
  refine (conj _ (conj _ (conj _ (conj _ _)))).
  - intros token w e w' Hrun.
    destruct (RateLimit.checkLimit (clock env (reads w)) (tracker w))
      as [[[]|e0] t'] eqn:Hcheck.
    + rewrite (validateToken_granted env _ _ _ Hcheck) in Hrun. discriminate.
    + rewrite (validateToken_denied env _ _ _ _ Hcheck) in Hrun.
      injection Hrun as <- <-. split; [| reflexivity].
      unfold RateLimit.checkLimit in Hcheck.
      destruct (_ >=? _); [| discriminate].
      injection Hcheck as <- _. unfold RateLimit.exceeded. eauto.
  - intros page token data. apply Hclass.
    unfold Facebook.publishPagePost. throws_api.
  - intros page token data. apply Hclass.
    unfold Facebook.publishPagePhoto. throws_api.
  - intros account token url caption kind. apply Hclass.
    unfold Facebook.createInstagramPost. throws_api.
  - intros account creation token. apply Hclass.
    unfold Facebook.publishInstagramPost. throws_api.
Qed.

(** The theorem on a text post whose request cannot reach the platform:
    what leaves [publishPagePost] is a [FacebookAPIError]. *)
Lemma wrappers_throw_api_errors_witness :
  let data := {| Facebook.pd_message := Some "Open today";
                 Facebook.pd_url := None; Facebook.pd_link := None;
                 Facebook.pd_published := Some true;
                 Facebook.pd_scheduled_publish_time := None |} in
  let out := Facebook.publishPagePost Examples.publish_unreachable
               "page-1" "token-1" data (Examples.world 0 200) in
  out.1 = Thrown (FacebookAPIError "Network error: Failed to fetch"
                                   (CodeStr "NETWORK_ERROR"))
  ∧ api_error (FacebookAPIError "Network error: Failed to fetch"
                                (CodeStr "NETWORK_ERROR")).
Proof.
  intros data out. split; [vm_compute; reflexivity |].
  apply (proj1 (proj2 (wrappers_throw_api_errors Examples.publish_unreachable))
           "page-1" "token-1" data (Examples.world 0 200) _ out.2).
  vm_compute. reflexivity.
Defined.

Section Sends.
Context (env : Env).

Lemma sends_only_ret {A} P (a : A) : sends_only P (ret a).
Proof. intros w. exists []. simpl. rewrite app_nil_r. auto. Qed.

Lemma sends_only_throw {A} P e : sends_only P (throw e : M A).
Proof. intros w. exists []. simpl. rewrite app_nil_r. auto. Qed.

Lemma sends_only_checkLimit P : sends_only P (checkLimit env).
Proof.
  intros w. exists []. rewrite checkLimit_run. simpl.
  rewrite app_nil_r. auto.
Qed.

Lemma sends_only_fetch (P : Request → Prop) r : P r → sends_only P (fetch env r).
Proof. intros Hr w. exists [r]. simpl. auto. Qed.

Lemma sends_only_bind {A B} P (m : M A) (k : A → M B) :
  sends_only P m → (∀ a, sends_only P (k a)) → sends_only P (bind m k).
Proof.
  intros Hm Hk w. unfold bind. destruct (Hm w) as (l1 & Hl1 & HP1).
  destruct (m w) as [[a|e] w1]; simpl in *; [| eauto].
  destruct (Hk a w1) as (l2 & Hl2 & HP2). exists (l1 ++ l2).
  rewrite Hl2, Hl1, app_assoc. split; [reflexivity |].
  apply Forall_app; auto.
Qed.

Lemma sends_only_try_catch {A} P (m : M A) (h : JsError → M A) :
  sends_only P m → (∀ e, sends_only P (h e)) → sends_only P (try_catch m h).
Proof.
  intros Hm Hh w. unfold try_catch. destruct (Hm w) as (l1 & Hl1 & HP1).
  destruct (m w) as [[a|e] w1]; simpl in *; [eauto |].
  destruct (Hh e w1) as (l2 & Hl2 & HP2). exists (l1 ++ l2).
  rewrite Hl2, Hl1, app_assoc. split; [reflexivity |].
  apply Forall_app; auto.
Qed.

End Sends.

Ltac sends :=
  repeat first
    [ progress cbv zeta
    | progress intros
    | apply sends_only_checkLimit
    | apply sends_only_ret | apply sends_only_throw
    | apply sends_only_fetch;
        unfold facebook_endpoint, instagram_endpoint, Facebook.debug_token;
        simpl; solve [auto]
    | apply sends_only_bind | apply sends_only_try_catch
    | match goal with
      | |- sends_only _ (if ?b then _ else _) => destruct b
      | |- sends_only _ (match ?x with _ => _ end) => destruct x
      end ].

(** X6. Whatever the platform answers, a Facebook publish sends requests
    only to the introspection and to the feed and photos endpoints of the
    page of the account, and an Instagram publish only to the introspection
    and to the media endpoints of the account.  Every failure that leaves
    either publisher is a [PostQueueError] of type [RATE_LIMIT],
    [API_ERROR] or [NETWORK_ERROR], retryable unless it is an [API_ERROR]:
    no [INVALID_CONTENT] or [INVALID_TOKEN] error comes out of them. *)
Theorem publishers_endpoints_and_failures (env : Env) (post : Post)
    (account : Account) :
  sends_only (facebook_endpoint (account_id account))
    (PostQueue.publishToFacebook env post account)
  ∧ sends_only (instagram_endpoint (account_id account))
      (PostQueue.publishToInstagram env post account)
  ∧ throws_only publisher_failure
      (PostQueue.publishToFacebook env post account)
  ∧ throws_only publisher_failure
      (PostQueue.publishToInstagram env post account).
Proof.
  refine (conj _ (conj _ (conj _ _))).
  - unfold PostQueue.publishToFacebook, PostQueue.classify,
      Facebook.validateToken, Facebook.publishPagePost,
      Facebook.publishPagePhoto, Facebook.answer_or_throw, Facebook.rethrow.
    sends.
  - unfold PostQueue.publishToInstagram, PostQueue.classify,
      Facebook.validateToken, Facebook.createInstagramPost,
      Facebook.publishInstagramPost, Facebook.answer_or_throw,
      Facebook.rethrow.
    sends.
  - apply throws_only_try_catch. intros e. apply throws_only_classify.
  - apply throws_only_try_catch. intros e. apply throws_only_classify.
Qed.

(** ** The publishers, request by request *)

Section Calls.
Context (env : Env).

(** The world after a granted check: the tracker stepped, the clock read
    once more. *)
Lemma checkLimit_room w k :
  1 ≤ k → room k (tracker w) →
  ∃ t', checkLimit env w =
          (Returned tt,
           {| scheduled_posts := scheduled_posts w; tracker := t';
              reads := S (reads w); trace := trace w |})
        ∧ room (k - 1) t'.
Proof.
  intros Hk [Hpos Hroom]. rewrite checkLimit_run.
  unfold RateLimit.checkLimit, RateLimit.roll.
  destruct (Z.gtb_spec (clock env (reads w)) (RateLimit.resetTime (tracker w)));
    simpl.
  - destruct (Z.geb_spec 0 (RateLimit.maxRequests (tracker w))); [lia |].
    eexists. split; [reflexivity |]. unfold room; simpl. lia.
  - destruct (Z.geb_spec (RateLimit.requests (tracker w))
                (RateLimit.maxRequests (tracker w))); [lia |].
    eexists. split; [reflexivity |]. unfold room; simpl. lia.
Qed.

(** The [try] block shared by the publishing wrappers, run. *)
Lemma call_run req m c w :
  try_catch
    (let! r := fetch env req in Facebook.answer_or_throw r m c)
    Facebook.rethrow w =
    (call_outcome (net env (length (trace w)) req) m c,
     {| scheduled_posts := scheduled_posts w; tracker := tracker w;
        reads := reads w; trace := trace w ++ [req] |}).
Proof.
  unfold try_catch, bind, fetch, Facebook.answer_or_throw, call_outcome.
  destruct (net env (length (trace w)) req) as [msg|[] [b|]]; reflexivity.
Qed.

End Calls.

Section PublisherRuns.
Context (env : Env).

Lemma validateToken_room token w k :
  1 ≤ k → room k (tracker w) →
  ∃ t', room (k - 1) t'
        ∧ Facebook.validateToken env token w =
            (Returned (Facebook.valid_of
                         (net env (length (trace w)) (Facebook.debug_token token))),
             {| scheduled_posts := scheduled_posts w; tracker := t';
                reads := S (reads w);
                trace := trace w ++ [Facebook.debug_token token] |}).
Proof.
  intros Hk Hroom.
  destruct (checkLimit_room env w k Hk Hroom) as (t' & Hcheck & Hroom').
  exists t'. split; [exact Hroom' |].
  unfold Facebook.validateToken.
  rewrite (bind_run_returned _ _ _ _ _ Hcheck). reflexivity.
Qed.

Lemma publishPagePost_room account text w k :
  1 ≤ k → room k (tracker w) → Js.truthy (Js.trim text) = true →
  ∃ t', room (k - 1) t'
        ∧ Facebook.publishPagePost env (account_id account) (access_token account)
            {| Facebook.pd_message := Some text; Facebook.pd_url := None;
               Facebook.pd_link := None; Facebook.pd_published := Some true;
               Facebook.pd_scheduled_publish_time := None |} w =
            (call_outcome
               (net env (length (trace w)) (feed_request account text))
               "Failed to publish post" "PUBLISH_FAILED",
             {| scheduled_posts := scheduled_posts w; tracker := t';
                reads := S (reads w);
                trace := trace w ++ [feed_request account text] |}).
Proof.
  intros Hk Hroom Htext.
  destruct (checkLimit_room env w k Hk Hroom) as (t' & Hcheck & Hroom').
  exists t'. split; [exact Hroom' |].
  unfold Facebook.publishPagePost.
  rewrite (bind_run_returned _ _ _ _ _ Hcheck). simpl.
  rewrite Htext. simpl. rewrite call_run. reflexivity.
Qed.

Lemma publishPagePhoto_room account url text w k :
  1 ≤ k → room k (tracker w) →
  Js.truthy url = true → Js.truthy (Js.trim text) = true →
  ∃ t', room (k - 1) t'
        ∧ Facebook.publishPagePhoto env (account_id account) (access_token account)
            {| Facebook.pd_message := Some text; Facebook.pd_url := Some url;
               Facebook.pd_link := None; Facebook.pd_published := Some true;
               Facebook.pd_scheduled_publish_time := None |} w =
            (call_outcome
               (net env (length (trace w)) (photo_request account url text))
               "Failed to publish photo" "PHOTO_PUBLISH_FAILED",
             {| scheduled_posts := scheduled_posts w; tracker := t';
                reads := S (reads w);
                trace := trace w ++ [photo_request account url text] |}).
Proof.
  intros Hk Hroom Hurl Htext.
  destruct (checkLimit_room env w k Hk Hroom) as (t' & Hcheck & Hroom').
  exists t'. split; [exact Hroom' |].
  unfold Facebook.publishPagePhoto.
  rewrite (bind_run_returned _ _ _ _ _ Hcheck). simpl.
  rewrite Hurl, Htext. simpl. rewrite call_run. reflexivity.
Qed.

Lemma createInstagramPost_room account url text w k :
  1 ≤ k → room k (tracker w) →
  Js.truthy url = true → Js.truthy (Js.trim text) = true →
  ∃ t', room (k - 1) t'
        ∧ Facebook.createInstagramPost env (account_id account)
            (access_token account) (Some url) (Some text) "IMAGE" w =
            (call_outcome
               (net env (length (trace w)) (media_request account url text))
               "Failed to create Instagram media" "INSTAGRAM_CREATE_FAILED",
             {| scheduled_posts := scheduled_posts w; tracker := t';
                reads := S (reads w);
                trace := trace w ++ [media_request account url text] |}).
Proof.
  intros Hk Hroom Hurl Htext.
  destruct (checkLimit_room env w k Hk Hroom) as (t' & Hcheck & Hroom').
  exists t'. split; [exact Hroom' |].
  unfold Facebook.createInstagramPost.
  rewrite (bind_run_returned _ _ _ _ _ Hcheck). simpl.
  rewrite Hurl, Htext. simpl. rewrite call_run. reflexivity.
Qed.

Lemma publishInstagramPost_room account creation w k :
  1 ≤ k → room k (tracker w) →
  ∃ t', room (k - 1) t'
        ∧ Facebook.publishInstagramPost env (account_id account) creation
            (access_token account) w =
            (call_outcome
               (net env (length (trace w))
                  (media_publish_request account creation))
               "Failed to publish Instagram media" "INSTAGRAM_PUBLISH_FAILED",
             {| scheduled_posts := scheduled_posts w; tracker := t';
                reads := S (reads w);
                trace := trace w ++ [media_publish_request account creation] |}).
Proof.
  intros Hk Hroom.
  destruct (checkLimit_room env w k Hk Hroom) as (t' & Hcheck & Hroom').
  exists t'. split; [exact Hroom' |].
  unfold Facebook.publishInstagramPost.
  rewrite (bind_run_returned _ _ _ _ _ Hcheck). simpl.
  rewrite call_run. reflexivity.
Qed.

End PublisherRuns.

(** X7. A Facebook publish with a valid token, room for two calls and
    content that is not blank sends exactly two requests, the introspection
    and one publishing request.  Without media it is the text request with
    the trimmed content; with media it is the photo request with the first
    url only, whatever other urls the post lists, and the trimmed content as
    caption.  When the platform accepts, the id returned is the [id] of the
    answer, or its [post_id] when [id] is missing or empty. *)
Theorem facebook_publish_requests (env : Env) (post : Post) (account : Account)
    (text : string) (w : World) :
  content (row post) = Some text →
  Js.truthy (Js.trim text) = true →
  room 2 (tracker w) →
  reports_valid
    (net env (length (trace w)) (introspection_of (access_token account))) →
  let out := PostQueue.publishToFacebook env post account w in
  let introspection := introspection_of (access_token account) in
  (no_media post →
     trace out.2 = trace w ++ [introspection; feed_request account text]
     ∧ ∀ b, net env (length (trace w ++ [introspection]))
              (feed_request account text) = Answered true (Some b) →
            out.1 = Returned
              {| PostQueue.result_platform_post_id :=
                   first_nonempty (b_id b) (b_post_id b);
                 PostQueue.result_platform := "facebook" |})
  ∧ (∀ url others,
       media_urls (row post) = Some (url :: others) →
       Js.truthy url = true →
       trace out.2 = trace w ++ [introspection; photo_request account url text]
       ∧ ∀ b, net env (length (trace w ++ [introspection]))
                (photo_request account url text) = Answered true (Some b) →
              out.1 = Returned
                {| PostQueue.result_platform_post_id :=
                     first_nonempty (b_id b) (b_post_id b);
                   PostQueue.result_platform := "facebook" |}).
Proof.
  intros Hcontent Htext Hroom Hvalid out introspection. subst out introspection.
  change introspection_of with Facebook.debug_token in *.
  repeat setoid_rewrite first_nonempty_or_else.
  apply valid_of_reports in Hvalid.
  destruct (validateToken_room env (access_token account) w 2
              ltac:(lia) Hroom) as (t1 & Hroom1 & Htoken).
  unfold PostQueue.publishToFacebook, try_catch.
  rewrite (bind_run_returned _ _ _ _ _ Htoken), Hvalid.
  change (negb true) with false. cbv iota.
  rewrite Hcontent.
  split.
  - intros Hmedia. apply no_media_has_media in Hmedia. rewrite Hmedia.
    match goal with
    | |- context [bind (Facebook.publishPagePost _ _ _ _) _ ?w1] =>
        destruct (publishPagePost_room env account text w1 1
                    ltac:(lia) Hroom1 Htext) as (t2 & _ & Hpost)
    end.
    unfold bind. rewrite Hpost. simpl trace.
    split.
    + destruct (call_outcome _ _ _) as [[b|]|e]; unfold ret, throw;
        match goal with
        | |- context [PostQueue.classify ?e ?w1] =>
            destruct (classify_throws (A:=PostQueue.PublishResult) e w1)
              as (? & ? & ? & ->)
        | _ => idtac
        end; simpl; rewrite <- app_assoc; reflexivity.
    + intros b Hanswer. rewrite Hanswer. reflexivity.
  - intros url others Hurls Hurl.
    assert (PostQueue.has_media post = true) as Hmedia
      by (unfold PostQueue.has_media; rewrite Hurls; reflexivity).
    assert (PostQueue.first_media post = Some url) as Hfirst
      by (unfold PostQueue.first_media; rewrite Hurls; reflexivity).
    rewrite Hmedia, Hfirst.
    match goal with
    | |- context [bind (Facebook.publishPagePhoto _ _ _ _) _ ?w1] =>
        destruct (publishPagePhoto_room env account url text w1 1
                    ltac:(lia) Hroom1 Hurl Htext) as (t2 & _ & Hphoto)
    end.
    unfold bind. rewrite Hphoto. simpl trace.
    split.
    + destruct (call_outcome _ _ _) as [[b|]|e]; unfold ret, throw;
        match goal with
        | |- context [PostQueue.classify ?e ?w1] =>
            destruct (classify_throws (A:=PostQueue.PublishResult) e w1)
              as (? & ? & ? & ->)
        | _ => idtac
        end; simpl; rewrite <- app_assoc; reflexivity.
    + intros b Hanswer. rewrite Hanswer. reflexivity.
Qed.

Lemma facebook_publish_requests_witness :
  let post := Examples.text_post 0 Examples.facebook_page in
  let out := PostQueue.publishToFacebook Examples.all_ok post
               Examples.facebook_page (Examples.world 0 200) in
  trace out.2 = [{| endpoint := DebugToken;
                    params := [("input_token", "token-1")] |};
                 feed_request Examples.facebook_page "Open today"]
  ∧ out.1 = Returned {| PostQueue.result_platform_post_id := Some "fb-77";
                        PostQueue.result_platform := "facebook" |}.
Proof.
  intros post out.
  destruct (proj1 (facebook_publish_requests Examples.all_ok post
                     Examples.facebook_page "Open today" (Examples.world 0 200)
                     eq_refl eq_refl ltac:(unfold room; simpl; lia)
                     (ex_intro _ Examples.ok_body (conj eq_refl eq_refl)))
              (or_intror eq_refl)) as [Htrace Hresult].
  split; [exact Htrace |].
  apply (Hresult Examples.ok_body). reflexivity.
Defined.

(** X8. An Instagram publish with a valid token, room for three calls, a
    first media url and content that is not blank is a two-step publish:
    after the introspection it asks for a container with the first url,
    and only when the platform answers with one does it send the second
    request, carrying the id of that container.  When the container request
    fails in any way, the second request is never sent and the publisher
    throws. *)
Theorem instagram_publish_two_steps (env : Env) (post : Post)
    (account : Account) (text url : string) (others : list string)
    (w : World) :
  content (row post) = Some text →
  Js.truthy (Js.trim text) = true →
  media_urls (row post) = Some (url :: others) →
  Js.truthy url = true →
  room 3 (tracker w) →
  reports_valid
    (net env (length (trace w)) (introspection_of (access_token account))) →
  let out := PostQueue.publishToInstagram env post account w in
  let introspection := introspection_of (access_token account) in
  let container := media_request account url text in
  let answer := net env (length (trace w ++ [introspection])) container in
  (∀ created,
     answer = Answered true (Some created) →
     let second := media_publish_request account (b_id created) in
     trace out.2 = trace w ++ [introspection; container; second]
     ∧ ∀ b, net env (length (trace w ++ [introspection; container])) second
              = Answered true (Some b) →
            out.1 = Returned {| PostQueue.result_platform_post_id := b_id b;
                                PostQueue.result_platform := "instagram" |})
  ∧ ((∀ created, answer ≠ Answered true (Some created)) →
     trace out.2 = trace w ++ [introspection; container]
     ∧ ∃ e, out.1 = Thrown e).
Proof.
  intros Hcontent Htext Hurls Hurl Hroom Hvalid out introspection container
    answer.
  subst out introspection container answer.
  change introspection_of with Facebook.debug_token in *.
  repeat setoid_rewrite first_nonempty_or_else.
  apply valid_of_reports in Hvalid.
  assert (PostQueue.has_media post = true) as Hmedia
    by (unfold PostQueue.has_media; rewrite Hurls; reflexivity).
  assert (PostQueue.first_media post = Some url) as Hfirst
    by (unfold PostQueue.first_media; rewrite Hurls; reflexivity).
  destruct (validateToken_room env (access_token account) w 3
              ltac:(lia) Hroom) as (t1 & Hroom1 & Htoken).
  unfold PostQueue.publishToInstagram, try_catch.
  rewrite Hmedia. change (negb true) with false. cbv iota.
  rewrite (bind_run_returned _ _ _ _ _ Htoken), Hvalid.
  change (negb true) with false. cbv iota.
  rewrite Hcontent, Hfirst.
  unfold bind.
  match goal with
  | |- context [Facebook.createInstagramPost _ _ _ _ _ _ ?w1] =>
      destruct (createInstagramPost_room env account url text w1 2
                  ltac:(lia) Hroom1 Hurl Htext) as (t2 & Hroom2 & Hcreate)
  end.
  rewrite Hcreate. cbn [trace reads scheduled_posts tracker].
  split.
  - intros created Hanswer. rewrite Hanswer.
    cbn [call_outcome].
    match goal with
    | |- context [Facebook.publishInstagramPost _ _ _ _ ?w2] =>
        destruct (publishInstagramPost_room env account (b_id created) w2 1
                    ltac:(lia) Hroom2) as (t3 & _ & Hpublish)
    end.
    rewrite Hpublish. cbn [trace reads scheduled_posts tracker].
    rewrite <- !app_assoc. simpl app. clear Hcreate Hpublish.
    split.
    + destruct (call_outcome _ _ _) as [[b|]|e]; unfold ret, throw;
        match goal with
        | |- context [PostQueue.classify ?e ?w1] =>
            destruct (classify_throws (A:=PostQueue.PublishResult) e w1)
              as (? & ? & ? & ->)
        | _ => idtac
        end; reflexivity.
    + intros b Hb. rewrite Hb. reflexivity.
  - intros Hfailed. clear Hcreate.
    destruct (call_outcome _ _ _) as [[created|]|e] eqn:Hout.
    + exfalso. unfold call_outcome in Hout.
      destruct (net env
                  (length (trace w ++ [Facebook.debug_token (access_token account)]))
                  (media_request account url text))
        as [msg|[] [data|]] eqn:Hnet; try discriminate.
      exact (Hfailed data eq_refl).
    + unfold throw.
      match goal with
      | |- context [PostQueue.classify ?e ?w1] =>
          destruct (classify_throws (A:=PostQueue.PublishResult) e w1)
            as (? & ? & ? & ->)
      end.
      simpl. rewrite <- app_assoc. eauto.
    + match goal with
      | |- context [PostQueue.classify ?e ?w1] =>
          destruct (classify_throws (A:=PostQueue.PublishResult) e w1)
            as (? & ? & ? & ->)
      end.
      simpl. rewrite <- app_assoc. eauto.
Qed.

Lemma instagram_publish_two_steps_witness :
  let account := Examples.instagram_account in
  let out := PostQueue.publishToInstagram Examples.all_ok Examples.photo_post
               account (Examples.world 0 200) in
  trace out.2 = [{| endpoint := DebugToken;
                    params := [("input_token", "token-1")] |};
                 media_request account "img-1.jpg" "New menu";
                 media_publish_request account (Some "fb-77")]
  ∧ out.1 = Returned {| PostQueue.result_platform_post_id := Some "fb-77";
                        PostQueue.result_platform := "instagram" |}.
Proof.
  intros account out.
  destruct (proj1 (instagram_publish_two_steps Examples.all_ok
                     Examples.photo_post account "New menu" "img-1.jpg" []
                     (Examples.world 0 200)
                     eq_refl eq_refl eq_refl eq_refl
                     ltac:(unfold room; simpl; lia)
                     (ex_intro _ Examples.ok_body (conj eq_refl eq_refl)))
              Examples.ok_body eq_refl) as [Htrace Hresult].
  split; [exact Htrace |].
  apply (Hresult Examples.ok_body). reflexivity.
Defined.

(** ** What one run of the pipeline does to the table *)

Section Runs.
Context (env : Env).

Lemma touches_only_refl i (t : gmap string Row) : touches_only i t t.
Proof. split; [reflexivity | reflexivity]. Qed.

Lemma touches_only_insert i (t : gmap string Row) r r' :
  t !! i = Some r → touches_only i t (<[i := r']> t).
Proof.
  intros Hr. split.
  - intros j Hj. by apply lookup_insert_ne.
  - rewrite lookup_insert_eq, Hr. split; eauto.
Qed.

Lemma touches_only_trans i (t1 t2 t3 : gmap string Row) :
  touches_only i t1 t2 → touches_only i t2 t3 → touches_only i t1 t3.
Proof.
  intros [Hframe1 Hdom1] [Hframe2 Hdom2]. split.
  - intros j Hj. rewrite Hframe2, Hframe1; auto.
  - rewrite Hdom2, Hdom1. reflexivity.
Qed.

Lemma handle_failure_touches post e w :
  touches_only (id post) (scheduled_posts w)
    (scheduled_posts (PostQueue.handle_failure env post e w).2).
Proof.
  unfold PostQueue.handle_failure.
  destruct (PostQueue.shouldRetryPost post e).
  - unfold PostQueue.scheduleRetry, bind, Date_now,
      Supabase.updateScheduledPost; simpl.
    destruct (PostQueue.retryDelay _) as [delay|]; simpl;
      [| apply touches_only_refl].
    destruct (scheduled_posts w !! id post) as [r|] eqn:Hr; simpl.
    + eapply touches_only_insert, Hr.
    + apply touches_only_refl.
  - destruct (scheduled_posts w !! id post) as [r|] eqn:Hr.
    + rewrite (bind_run_returned _ _ _ _ _
                 (updatePostStatus_found env _ _ _ _ _ Hr)). simpl.
      eapply touches_only_insert, Hr.
    + rewrite (bind_run_thrown _ _ _ _ _
                 (updatePostStatus_missing env _ _ _ _ Hr)). simpl.
      apply touches_only_refl.
Qed.

End Runs.

(** X9. One run of [processPost] changes no other post: every row but the
    one of the post is as before, and the row of the post is neither
    created nor deleted, however the run ends. *)
Theorem processPost_touches_one_row (env : Env) (post : Post) (w : World) :
  touches_only (id post) (scheduled_posts w)
    (scheduled_posts (PostQueue.processPost env post w).2).
Proof.
  destruct (PostQueue.processPost env post w) as [[result|e] w'] eqn:Hrun.
  - apply processPost_returned in Hrun as (r & now1 & now2 & Hr & Hw').
    simpl. rewrite Hw'. eapply touches_only_insert, Hr.
  - apply processPost_thrown in Hrun as (e0 & w1 & Hatt & Hcatch).
    pose proof (handle_failure_touches env post e0 w1) as Htouch.
    rewrite Hcatch in Htouch. simpl in *.
    eapply touches_only_trans; [| exact Htouch].
    apply attempt_thrown in Hatt as [(_ & -> & _)|(r & Hr & ->)]; simpl in *.
    + apply touches_only_refl.
    + eapply touches_only_insert, Hr.
Qed.

(** X10. When the row of the post is not in the table, [processPost] sends
    nothing, asks the rate gate for nothing, writes nothing, and throws the
    error of its own failed status write. *)
Theorem processPost_without_row (env : Env) (post : Post) (w : World) :
  scheduled_posts w !! id post = None →
  PostQueue.processPost env post w =
    (Thrown (PostQueueError
               ("Failed to update post status: " +:+ Supabase.no_rows_message)
               UNKNOWN false),
     {| scheduled_posts := scheduled_posts w; tracker := tracker w;
        reads := S (S (S (reads w))); trace := trace w |}).
Proof.
  intros Hnone.
  assert (PostQueue.attempt env post (Date_now env w).2 =
            (Thrown (PostQueueError
                       ("Failed to update post status: "
                        +:+ Supabase.no_rows_message) UNKNOWN false),
             {| scheduled_posts := scheduled_posts w; tracker := tracker w;
                reads := S (S (reads w)); trace := trace w |})) as Hatt.
  { unfold PostQueue.attempt.
    erewrite bind_run_thrown; [reflexivity |].
    apply (updatePostStatus_missing env (id post) PROCESSING no_updates
             (Date_now env w).2). exact Hnone. }
  rewrite (processPost_run_thrown env post w _ _ Hatt).
  rewrite handle_failure_missing; [reflexivity | reflexivity | exact Hnone].
Qed.

Lemma processPost_without_row_witness :
  (PostQueue.processPost Examples.all_ok Examples.photo_post
     (Examples.world 0 200)).1
  = Thrown (PostQueueError
              ("Failed to update post status: " +:+ Supabase.no_rows_message)
              UNKNOWN false).
Proof.
  rewrite (processPost_without_row Examples.all_ok Examples.photo_post
             (Examples.world 0 200)); reflexivity.
Defined.

Lemma shouldRetryPost_true_count post e :
  PostQueue.shouldRetryPost post e = true →
  Js.or_zero (retry_count (row post)) < PostQueue.maxRetries.
Proof.
  intros Hyes.
  destruct (Z.lt_ge_cases (Js.or_zero (retry_count (row post)))
              PostQueue.maxRetries) as [Hlt|Hge]; [exact Hlt |].
  rewrite shouldRetryPost_exhausted in Hyes by lia. discriminate.
Qed.



Section Denials.
Context (env : Env).

Lemma checkLimit_thrown now t e t' :
  RateLimit.checkLimit now t = (Thrown e, t') →
  instanceof_RateLimitError e = true.
Proof.
  unfold RateLimit.checkLimit. destruct (_ >=? _); [| discriminate].
  intros [= <- _]. reflexivity.
Qed.

Lemma classify_RateLimitError {A} e w :
  instanceof_RateLimitError e = true →
  (PostQueue.classify e : M A) w =
    (Thrown (PostQueueError (error_message e) RATE_LIMIT true), w).
Proof. intros He. unfold PostQueue.classify. rewrite He. reflexivity. Qed.

(** A publish whose first permission check is refused. *)
Lemma publishPost_denied post account w e t' :
  social_accounts post = Some account →
  platform account = "facebook"
  ∨ (platform account = "instagram" ∧ PostQueue.has_media post = true) →
  RateLimit.checkLimit (clock env (reads w)) (tracker w) = (Thrown e, t') →
  PostQueue.publishPost env post w =
    (Thrown (PostQueueError (error_message e) RATE_LIMIT true),
     {| scheduled_posts := scheduled_posts w; tracker := t';
        reads := S (reads w); trace := trace w |}).
Proof.
  intros Hacc Hplat Hdeny. unfold PostQueue.publishPost. rewrite Hacc.
  pose proof (checkLimit_thrown _ _ _ _ Hdeny) as Hrate.
  destruct Hplat as [->|[-> Hmedia]]; simpl.
  - unfold PostQueue.publishToFacebook, try_catch.
    rewrite (bind_run_thrown _ _ _ _ _
               (validateToken_denied env _ _ _ _ Hdeny)).
    apply classify_RateLimitError, Hrate.
  - unfold PostQueue.publishToInstagram, try_catch. rewrite Hmedia. simpl.
    rewrite (bind_run_thrown _ _ _ _ _
               (validateToken_denied env _ _ _ _ Hdeny)).
    apply classify_RateLimitError, Hrate.
Qed.

(** The [try] block of [processPost] up to the publisher, for a post that
    passes validation and whose row is there. *)
Lemma attempt_reaches_publisher post w r :
  scheduled_posts w !! id post = Some r →
  PostQueue.validatePost post = Returned tt →
  PostQueue.attempt env post w =
    bind (PostQueue.publishPost env post)
      (fun result =>
         PostQueue.updatePostStatus env (id post) POSTED
           (PostQueue.posted_data result) >>
         let! finished := Date_now env in
         ret result)
      (written w (id post) (processing (clock env (reads w)) r)).
Proof.
  intros Hr Hvalid. unfold PostQueue.attempt.
  rewrite (bind_run_returned _ _ _ _ _
             (updatePostStatus_found env _ _ _ _ _ Hr)).
  unfold bind at 1, PostQueue.lift at 1. rewrite Hvalid. reflexivity.
Qed.

End Denials.

(** X12. A post that passes validation and is refused by the rate gate at
    its first permission check is not failed: nothing is sent, and the post
    goes back in the queue as for any retryable failure, with the message
    of the denial, its retry count plus one and the delay of that attempt,
    as long as its retry count is below 3. *)
Theorem rate_limited_post_is_rescheduled (env : Env) (post : Post)
    (account : Account) (w : World) (r : Row) (e : JsError)
    (t' : RateLimit.Tracker) :
  scheduled_posts w !! id post = Some r →
  PostQueue.validatePost post = Returned tt →
  social_accounts post = Some account →
  platform account = "facebook"
  ∨ (platform account = "instagram"
     ∧ ∃ url others, media_urls (row post) = Some (url :: others)) →
  0 ≤ default 0 (retry_count (row post)) < 3 →
  RateLimit.checkLimit (clock env (S (S (reads w)))) (tracker w)
    = (Thrown e, t') →
  let out := PostQueue.processPost env post w in
  let failure := PostQueueError (error_message e) RATE_LIMIT true in
  let attempt := default 0 (retry_count (row post)) + 1 in
  let delay := if attempt =? 1 then 30000
               else if attempt =? 2 then 60000
               else 300000 in
  out.1 = Thrown failure
  ∧ trace out.2 = trace w
  ∧ ∃ r',
      scheduled_posts out.2 !! id post = Some r'
      ∧ rescheduled_from attempt failure (clock env (S (S (S (reads w)))))
          delay r r'.
Proof.
  intros Hr Hvalid Hacc Hplat Hcount Hdeny out failure attempt delay.
  subst out failure.
  assert (platform account = "facebook"
          ∨ (platform account = "instagram"
             ∧ PostQueue.has_media post = true)) as Hplatform.
  { destruct Hplat as [Hfb|(Hig & url & others & Hurls)]; [by left | right].
    split; [exact Hig |]. unfold PostQueue.has_media. by rewrite Hurls. }
  clear Hplat. rename Hplatform into Hplat.
  change (default 0 (retry_count (row post)))
    with (Js.or_zero (retry_count (row post))) in *.
  change (0 ≤ Js.or_zero (retry_count (row post)) < PostQueue.maxRetries)
    in Hcount.
  assert (PostQueue.attempt env post (Date_now env w).2 =
            (Thrown (PostQueueError (error_message e) RATE_LIMIT true),
             {| scheduled_posts :=
                  <[id post := processing (clock env (S (reads w))) r]>
                    (scheduled_posts w);
                tracker := t'; reads := S (S (S (reads w)));
                trace := trace w |})) as Hatt.
  { rewrite (attempt_reaches_publisher env post (Date_now env w).2 r Hr Hvalid).
    pose proof (publishPost_denied env post account
                  (written (Date_now env w).2 (id post)
                     (processing (clock env (reads (Date_now env w).2)) r))
                  e t' Hacc Hplat Hdeny) as Hpub.
    rewrite (bind_run_thrown _ _ _ _ _ Hpub). reflexivity. }
  rewrite (processPost_run_thrown env post w _ _ Hatt).
  unfold PostQueue.maxRetries in Hcount.
  pose proof (retryDelay_table (Js.or_zero (retry_count (row post)) + 1)
                ltac:(lia)) as Hdelay.
  rewrite (handle_failure_retries env post _ _
             (processing (clock env (S (reads w))) r) _
             (shouldRetryPost_retryable post _ RATE_LIMIT
                ltac:(unfold PostQueue.maxRetries; lia) ltac:(discriminate))
             Hdelay (lookup_insert_eq _ _ _)).
  simpl. split; [reflexivity |]. split; [reflexivity |].
  eexists. split; [apply lookup_insert_eq |].
  assert (delay = (if attempt =? 1 then 30000
                   else if attempt =? 2 then 60000
                   else if attempt =? 3 then 300000
                   else 900000)) as ->.
  { subst delay.
    destruct (Z.eqb_spec attempt 1); [reflexivity |].
    destruct (Z.eqb_spec attempt 2); [reflexivity |].
    destruct (Z.eqb_spec attempt 3); [reflexivity |].
    subst attempt. lia. }
  unfold rescheduled_from; simpl. auto 10.
Qed.

Lemma rate_limited_post_is_rescheduled_witness :
  let out := PostQueue.processPost Examples.all_ok
               (Examples.text_post 0 Examples.facebook_page) Exhausted.world in
  out.1 = Thrown (PostQueueError
                    "Rate limit exceeded. Try again in 3599 seconds."
                    RATE_LIMIT true)
  ∧ trace out.2 = [].
Proof.
  intros out.
  destruct (rate_limited_post_is_rescheduled Examples.all_ok
              (Examples.text_post 0 Examples.facebook_page)
              Examples.facebook_page Exhausted.world (Examples.text_row 0)
              (RateLimit.exceeded 3599)
              (RateLimit.bump (Examples.fresh_tracker 2) 2)
              eq_refl eq_refl eq_refl (or_introl eq_refl)
              ltac:(simpl; unfold PostQueue.maxRetries; lia) eq_refl)
    as (Hout & Htrace & _).
  split; [exact Hout | exact Htrace].
Defined.

(** X13. A post for a platform other than Facebook and Instagram that
    passes validation is failed at once, whatever its retry count: nothing
    is sent, the rate gate is not consulted, and the row is marked failed
    with the message naming the platform. *)
Theorem unsupported_platform_fails_at_once (env : Env) (post : Post)
    (account : Account) (w : World) (r : Row) :
  scheduled_posts w !! id post = Some r →
  PostQueue.validatePost post = Returned tt →
  social_accounts post = Some account →
  platform account ≠ "facebook" →
  platform account ≠ "instagram" →
  let out := PostQueue.processPost env post w in
  let failure := PostQueueError ("Unsupported platform: " +:+ platform account)
                                UNKNOWN false in
  out.1 = Thrown failure
  ∧ trace out.2 = trace w
  ∧ tracker out.2 = tracker w
  ∧ ∃ r', scheduled_posts out.2 !! id post = Some r' ∧ failed_from failure r r'.
Proof.
  intros Hr Hvalid Hacc Hfb Hig out failure. subst out failure.
  apply String.eqb_neq in Hfb, Hig.
  assert (PostQueue.attempt env post (Date_now env w).2 =
            (Thrown (PostQueueError
                       ("Unsupported platform: " +:+ platform account)
                       UNKNOWN false),
             written (Date_now env w).2 (id post)
               (processing (clock env (S (reads w))) r))) as Hatt.
  { rewrite (attempt_reaches_publisher env post (Date_now env w).2 r Hr Hvalid).
    unfold bind, PostQueue.publishPost. rewrite Hacc, Hfb, Hig. reflexivity. }
  rewrite (processPost_run_thrown env post w _ _ Hatt).
  rewrite (handle_failure_fails env post
             (PostQueueError ("Unsupported platform: " +:+ platform account)
                             UNKNOWN false) _
             (processing (clock env (S (reads w))) r) eq_refl
             (lookup_insert_eq _ _ _)).
  simpl. split; [reflexivity |]. split; [reflexivity |]. split; [reflexivity |].
  eexists. split; [apply lookup_insert_eq |].
  unfold failed_from; simpl. auto 10.
Qed.

Lemma unsupported_platform_fails_at_once_witness :
  let linkedin := {| platform := "linkedin"; account_id := "li-1";
                     access_token := "token-9"; is_active := true |} in
  let out := PostQueue.processPost Examples.all_ok
               (Examples.text_post 0 linkedin) (Examples.world 0 200) in
  out.1 = Thrown (PostQueueError "Unsupported platform: linkedin" UNKNOWN false)
  ∧ status <$> scheduled_posts out.2 !! "post-1" = Some FAILED.
Proof.
  intros linkedin out.
  destruct (unsupported_platform_fails_at_once Examples.all_ok
              (Examples.text_post 0 linkedin) linkedin (Examples.world 0 200)
              (Examples.text_row 0) eq_refl eq_refl eq_refl
              ltac:(discriminate) ltac:(discriminate))
    as (Hout & _ & _ & r' & Hr' & Hst & _).
  split; [exact Hout |].
  transitivity (status <$> Some r'); [f_equal; exact Hr' |].
  simpl. by rewrite Hst.
Defined.

Lemma or_code_OAuthException message code fallback :
  fallback ≠ "OAuthException" →
  PostQueue.code_is_not_OAuthException
    (FacebookAPIError message (Facebook.or_code code fallback)) = false
  ↔ code = Some (CodeStr "OAuthException").
Proof.
  intros Hfallback.
  assert (negb (String.eqb fallback "OAuthException") = true) as Hfb.
  { apply String.eqb_neq in Hfallback. by rewrite Hfallback. }
  unfold PostQueue.code_is_not_OAuthException, Facebook.or_code, error_code.
  destruct code as [[s|n]|].
  - destruct s as [|c s]; cbn [Js.truthy].
    + rewrite Hfb. split; discriminate.
    + destruct (String.eqb_spec (String c s) "OAuthException") as [Heqs|Hne];
        cbn [negb]; split; intros Heq.
      * by rewrite Heqs.
      * reflexivity.
      * discriminate.
      * exfalso. apply Hne. congruence.
  - destruct (n =? 0); [rewrite Hfb |]; split; discriminate.
  - rewrite Hfb. split; discriminate.
Qed.

(** X14. What becomes of the answer to the text request of a Facebook
    publish.  A request that fails in the network leaves the publisher as
    a retryable [API_ERROR], not as a [NETWORK_ERROR].  A refusal of the
    platform is an [API_ERROR] that is retryable unless the code of the
    answer is the string ['OAuthException']: a numeric code never stops the
    retries.  An accepted request whose body is [null] is a retryable
    [NETWORK_ERROR]. *)
Theorem facebook_answer_classification (env : Env) (post : Post)
    (account : Account) (text : string) (w : World) :
  content (row post) = Some text →
  Js.truthy (Js.trim text) = true →
  no_media post →
  room 2 (tracker w) →
  reports_valid
    (net env (length (trace w)) (introspection_of (access_token account))) →
  let out := PostQueue.publishToFacebook env post account w in
  let answer :=
    net env (length (trace w ++ [introspection_of (access_token account)]))
      (feed_request account text) in
  (∀ msg, answer = Rejected msg →
     out.1 = Thrown (PostQueueError ("Network error: " +:+ msg) API_ERROR true))
  ∧ (∀ b, answer = Answered false (Some b) →
       ∃ message retryable,
         out.1 = Thrown (PostQueueError message API_ERROR retryable)
         ∧ (retryable = false
            ↔ b_error b ≫= ge_code = Some (CodeStr "OAuthException")))
  ∧ (answer = Answered true None →
       out.1 = Thrown (PostQueueError Facebook.null_member_message
                                      NETWORK_ERROR true)).
Proof.
  intros Hcontent Htext Hmedia Hroom Hvalid out answer. subst out answer.
  change introspection_of with Facebook.debug_token in *.
  repeat setoid_rewrite first_nonempty_or_else.
  apply valid_of_reports in Hvalid.
  apply no_media_has_media in Hmedia.
  destruct (validateToken_room env (access_token account) w 2
              ltac:(lia) Hroom) as (t1 & Hroom1 & Htoken).
  unfold PostQueue.publishToFacebook, try_catch.
  rewrite (bind_run_returned _ _ _ _ _ Htoken), Hvalid.
  change (negb true) with false. cbv iota.
  rewrite Hcontent, Hmedia.
  match goal with
  | |- context [bind (Facebook.publishPagePost _ _ _ _) _ ?w1] =>
      destruct (publishPagePost_room env account text w1 1
                  ltac:(lia) Hroom1 Htext) as (t2 & _ & Hpost)
  end.
  unfold bind. rewrite Hpost. cbn [trace reads scheduled_posts tracker].
  clear Hpost Htoken.
  refine (conj _ (conj _ _)).
  - intros msg ->. reflexivity.
  - intros b ->. unfold call_outcome.
    do 2 eexists. split; [reflexivity |].
    apply or_code_OAuthException. discriminate.
  - intros ->. reflexivity.
Qed.

Lemma facebook_answer_classification_witness :
  (PostQueue.publishToFacebook Examples.publish_unreachable
     (Examples.text_post 0 Examples.facebook_page) Examples.facebook_page
     (Examples.world 0 200)).1
  = Thrown (PostQueueError "Network error: Failed to fetch" API_ERROR true).
Proof.
  apply (proj1 (facebook_answer_classification Examples.publish_unreachable
                  (Examples.text_post 0 Examples.facebook_page)
                  Examples.facebook_page "Open today" (Examples.world 0 200)
                  eq_refl eq_refl (or_intror eq_refl)
                  ltac:(unfold room; simpl; lia)
                  (ex_intro _ Examples.ok_body (conj eq_refl eq_refl)))
           "Failed to fetch").
  reflexivity.
Defined.

(** ** Retrying by hand *)

Section Retry.
Context (env : Env).

Lemma retryPost_check_not_failed (table : gmap string Row) userId limit postId r :
  table !! postId = Some r → status r ≠ FAILED →
  ∃ e, Management.retryPost_check
         (Supabase.getScheduledPosts table userId limit) postId = Thrown e.
Proof.
  intros Hr Hnot. unfold Management.retryPost_check.
  destruct (List.find _ _) as [[i r0]|] eqn:Hfind; [| eauto].
  apply find_by_id in Hfind as [-> Hin].
  apply getScheduledPosts_sound in Hin as [Hr0 _].
  assert (r0 = r) as -> by congruence.
  simpl. destruct (decide (status r = FAILED)); [done | eauto].
Qed.

Lemma retryPost_check_failed (table : gmap string Row) userId limit postId r :
  (postId, r) ∈ Supabase.getScheduledPosts table userId limit →
  status r = FAILED →
  Management.retryPost_check
    (Supabase.getScheduledPosts table userId limit) postId = Returned tt.
Proof.
  intros Hin Hfailed. unfold Management.retryPost_check.
  destruct (List.find _ _) as [[i r0]|] eqn:Hfind.
  - apply find_by_id in Hfind as [-> Hin0].
    apply getScheduledPosts_sound in Hin0 as [Hr0 _].
    apply getScheduledPosts_sound in Hin as [Hr _].
    assert (r0 = r) as -> by congruence.
    simpl. destruct (decide (status r = FAILED)); [reflexivity | done].
  - apply list_elem_of_In in Hin.
    eapply find_none in Hfind; [| exact Hin]. simpl in Hfind.
    rewrite String.eqb_refl in Hfind. discriminate.
Qed.

End Retry.

(** X15. Only a post read as failed can be retried by hand, and what
    [retryPost] does is decided by the posts it read, the earliest fifty
    of the user.  A post that is not among them is refused as not found;
    one read in any status but [FAILED], posted and cancelled included, is
    refused with ["Only failed posts can be retried"]; in both cases
    nothing is written.  A post read as failed is put back in the queue
    when the update reaches the database, whatever the row has become by
    then: status [SCHEDULED], due at the time read when the call resumed,
    retry count 0 and no error message, the other columns and the other
    rows untouched.  When the row has gone by then the update fails, its
    result is not looked at, and [retryPost] returns true all the same. *)
Theorem retryPost_policy (env : Env) (resumed updated : World → World)
    (w : World) (postId userId : string) :
  let posts := Supabase.getScheduledPosts (scheduled_posts w) userId 50 in
  let out := Management.retryPost env resumed updated postId userId w in
  let w1 := {| scheduled_posts := scheduled_posts (resumed w);
               tracker := tracker (resumed w);
               reads := S (reads (resumed w));
               trace := trace (resumed w) |} in
  ((∀ r, (postId, r) ∉ posts) →
     out = (Thrown (PostQueueError "Post not found or access denied"
                                   MISSING_ACCOUNT false),
            resumed w))
  ∧ (∀ r, (postId, r) ∈ posts → status r ≠ FAILED →
       out = (Thrown (PostQueueError "Only failed posts can be retried"
                                     INVALID_CONTENT false),
              resumed w))
  ∧ (∀ r r1, (postId, r) ∈ posts → status r = FAILED →
       scheduled_posts (updated w1) !! postId = Some r1 →
       ∃ r', out = (Returned true,
                    with_posts (updated w1)
                      (<[postId := r']> (scheduled_posts (updated w1))))
             ∧ reset_from (clock env (reads (resumed w))) r1 r')
  ∧ (∀ r, (postId, r) ∈ posts → status r = FAILED →
       scheduled_posts (updated w1) !! postId = None →
       out = (Returned true, updated w1)).
Proof.
  intros posts out w1. subst posts out.
  unfold Management.retryPost, bind, await_others, PostQueue.lift.
  change Supabase.default_limit with 50%nat.
  refine (conj _ (conj _ (conj _ _))).
  - intros Hnone. unfold Management.retryPost_check.
    destruct (List.find _ _) as [[i r0]|] eqn:Hfind; [| reflexivity].
    apply find_by_id in Hfind as [-> Hin]. by destruct (Hnone r0).
  - intros r Hin Hnot. unfold Management.retryPost_check.
    destruct (List.find _ _) as [[i r0]|] eqn:Hfind.
    + apply find_by_id in Hfind as [-> Hin0].
      apply getScheduledPosts_sound in Hin0 as [Hr0 _].
      apply getScheduledPosts_sound in Hin as [Hr _].
      assert (r0 = r) as -> by congruence.
      simpl. destruct (decide (status r = FAILED)); [done | reflexivity].
    + apply list_elem_of_In in Hin.
      eapply find_none in Hfind; [| exact Hin]. simpl in Hfind.
      rewrite String.eqb_refl in Hfind. discriminate.
  - intros r r1 Hin Hfailed Hr1.
    rewrite (retryPost_check_failed _ _ _ _ _ Hin Hfailed).
    unfold Supabase.updateScheduledPost, Date_now. fold w1.
    rewrite Hr1. eexists. split; [reflexivity |].
    unfold reset_from; simpl. auto 10.
  - intros r Hin Hfailed Hgone.
    rewrite (retryPost_check_failed _ _ _ _ _ Hin Hfailed).
    unfold Supabase.updateScheduledPost, Date_now. fold w1.
    rewrite Hgone. reflexivity.
Qed.

(** The theorem on the post failed at its fourth attempt, retried by its
    owner with no other call in flight, at clock reading 1005; and on the
    scheduled post, which is refused. *)
Lemma retryPost_policy_witness :
  let w := (PostQueue.processPost Examples.publish_refused
              (Examples.text_post 3 Examples.facebook_page)
              (Examples.world 3 200)).2 in
  let out := Management.retryPost Examples.all_ok (fun w => w) (fun w => w)
               "post-1" "user-1" w in
  (∃ r', out.1 = Returned true
         ∧ scheduled_posts out.2 !! "post-1" = Some r'
         ∧ status r' = SCHEDULED ∧ retry_count r' = Some 0
         ∧ scheduled_for r' = 1005 ∧ error_message_of r' = None)
  ∧ Management.retryPost Examples.all_ok (fun w => w) (fun w => w)
      "post-1" "user-1" (Examples.world 0 200)
    = (Thrown (PostQueueError "Only failed posts can be retried"
                              INVALID_CONTENT false),
       Examples.world 0 200).
Proof.
  intros w out. split.
  - assert (∃ r, status r = FAILED
                 ∧ ("post-1", r) ∈ Supabase.getScheduledPosts
                                     (scheduled_posts w) "user-1" 50
                 ∧ scheduled_posts w !! "post-1" = Some r)
      as (r & Hst & Hin & Hr).
    { eexists. split; [| split]; [| vm_compute; apply list_elem_of_here
                                  | vm_compute; reflexivity].
      reflexivity. }
    destruct (proj1 (proj2 (proj2
                (retryPost_policy Examples.all_ok (fun w => w) (fun w => w)
                   w "post-1" "user-1")))
                r r Hin Hst Hr)
      as (r' & Hrun & Hst' & Hdue & Hcount & Hmsg & _).
    exists r'. subst out. rewrite Hrun.
    split; [reflexivity |]. split; [apply lookup_insert_eq |].
    split; [exact Hst' |]. split; [exact Hcount |].
    split; [| exact Hmsg].
    rewrite Hdue. vm_compute. reflexivity.
  - apply (proj1 (proj2
             (retryPost_policy Examples.all_ok (fun w => w) (fun w => w)
                (Examples.world 0 200) "post-1" "user-1"))
             (Examples.text_row 0)).
    + vm_compute. apply list_elem_of_here.
    + discriminate.
Defined.

(** ** The status report of the queue *)

Section Counting.
Import Management.

Lemma in_status_cons s (p : string * Row) posts :
  in_status s (p :: posts) =
    (if decide (status p.2 = s) then 1 else 0) + in_status s posts.
Proof.
  unfold in_status. rewrite filter_cons.
  destruct (decide (status p.2 = s)); simpl length; lia.
Qed.

(** The [reduce] counts: after folding over the posts, the entry of a
    status holds what it held before plus the number of posts in it. *)
Lemma fold_count_post posts counts s :
  Js.or_zero (fold_left count_post posts counts s) =
    Js.or_zero (counts s) + in_status s posts.
Proof.
  revert counts. induction posts as [|p posts IH]; intros counts.
  - unfold in_status; simpl. lia.
  - cbn [fold_left]. rewrite IH, in_status_cons. unfold count_post.
    destruct (decide (s = status p.2)) as [->|Hne].
    + destruct (decide (status p.2 = status p.2)); [| done]. simpl. lia.
    + destruct (decide (status p.2 = s)); [congruence | lia].
Qed.

Lemma in_status_total posts :
  in_status SCHEDULED posts + in_status PROCESSING posts
  + in_status POSTING posts + in_status POSTED posts
  + in_status FAILED posts + in_status CANCELLED posts
  = Z.of_nat (length posts).
Proof.
  induction posts as [|p posts IH].
  - reflexivity.
  - rewrite !in_status_cons. cbn [length].
    destruct (status p.2);
      repeat match goal with
             | |- context [decide (?a = ?b)] => destruct (decide (a = b))
             end; try congruence; lia.
Qed.

End Counting.

(** X16. The status report counts the at most 100 posts fetched for the
    user.  Each of the five counts it gives is the number of fetched posts
    in that status, and they add up to the total less the posts that are
    in [POSTING], which the report counts in the total but shows nowhere.
    The posts it lists are the first 20 fetched, all rows of the table that
    belong to the user. *)
Theorem queue_status_counts (table : gmap string Row) (userId : string) :
  let posts := Supabase.getScheduledPosts table userId 100 in
  let report := Management.getQueueStatus table userId in
  Management.qs_total report = Z.of_nat (length posts)
  ∧ Management.qs_total report ≤ 100
  ∧ Management.qs_scheduled report = Management.in_status SCHEDULED posts
  ∧ Management.qs_processing report = Management.in_status PROCESSING posts
  ∧ Management.qs_posted report = Management.in_status POSTED posts
  ∧ Management.qs_failed report = Management.in_status FAILED posts
  ∧ Management.qs_cancelled report = Management.in_status CANCELLED posts
  ∧ Management.qs_scheduled report + Management.qs_processing report
    + Management.qs_posted report + Management.qs_failed report
    + Management.qs_cancelled report
    = Management.qs_total report - Management.in_status POSTING posts
  ∧ (length (Management.qs_posts report) ≤ 20)%nat
  ∧ ∀ i r, (i, r) ∈ Management.qs_posts report →
           table !! i = Some r ∧ user_id r = userId.
Proof.
  intros posts report. subst report. unfold Management.getQueueStatus.
  fold posts. cbn [Management.qs_total Management.qs_scheduled
    Management.qs_processing Management.qs_posted Management.qs_failed
    Management.qs_cancelled Management.qs_posts].
  rewrite !fold_count_post. unfold Management.no_counts. cbn [Js.or_zero].
  pose proof (in_status_total posts) as Htotal.
  assert (length posts ≤ 100)%nat as Hlen.
  { subst posts. unfold Supabase.getScheduledPosts. rewrite length_take. lia. }
  refine (conj eq_refl (conj _ (conj eq_refl (conj eq_refl (conj eq_refl
           (conj eq_refl (conj eq_refl (conj _ (conj _ _))))))))).
  - lia.
  - lia.
  - rewrite length_take. lia.
  - intros i r Hin. apply subseteq_take in Hin.
    subst posts. eapply getScheduledPosts_sound, Hin.
Qed.

(** ** Blank content *)

Lemma trimStart_cases s :
  (Js.trimStart s = "" ∧ blank s = true)
  ∨ (∃ c s', Js.trimStart s = String c s' ∧ Js.isWhiteSpace c = false
             ∧ blank s = false).
Proof.
  induction s as [|c s IH].
  - left. split; reflexivity.
  - cbn [Js.trimStart blank].
    destruct (Js.isWhiteSpace c) eqn:Hc.
    + exact IH.
    + right. exists c, s. auto.
Qed.

Lemma trimEnd_keeps_first c s :
  Js.isWhiteSpace c = false → Js.trimEnd (String c s) ≠ "".
Proof.
  intros Hc. cbn [Js.trimEnd].
  destruct (Js.trimEnd s); [rewrite Hc |]; discriminate.
Qed.

Lemma trim_blank s : Js.truthy (Js.trim s) = negb (blank s).
Proof.
  unfold Js.trim.
  destruct (trimStart_cases s) as [[-> ->]|(c & s' & -> & Hc & ->)].
  - reflexivity.
  - pose proof (trimEnd_keeps_first c s' Hc) as Hne.
    destruct (Js.trimEnd (String c s')); [congruence | reflexivity].
Qed.

(** X17. For a post with an active account, validation refuses the content
    as empty exactly when it is missing or made of white space only,
    however long it is; any other character lets the content pass. *)
Theorem blank_content_is_refused (post : Post) (account : Account) :
  social_accounts post = Some account →
  is_active account = true →
  (PostQueue.validatePost post =
     Thrown (PostQueueError "Post content is empty" INVALID_CONTENT false)
   ↔ match content (row post) with
     | None => True
     | Some text => blank text = true
     end).
Proof.
  intros Hacc Hactive. unfold PostQueue.validatePost.
  rewrite Hacc, Hactive. cbn [negb].
  unfold Js.truthy_trim.
  destruct (content (row post)) as [text|]; [| split; auto].
  rewrite trim_blank. destruct (blank text); cbn [negb].
  - split; auto.
  - destruct (negb (Js.truthy (access_token account)));
      split; intros Hfalse; discriminate.
Qed.

Lemma blank_content_is_refused_witness :
  let post := {| id := "p1";
                 row := {| user_id := "u1";
                           content := Some (String (Ascii.ascii_of_nat 9)
                                              (String (Ascii.ascii_of_nat 160) "  "));
                           media_urls := None; scheduled_for := 0;
                           status := SCHEDULED; retry_count := Some 0;
                           error_message_of := None; platform_post_id := None;
                           updated_at := 0 |};
                 social_accounts := Some Examples.facebook_page |} in
  PostQueue.validatePost post =
    Thrown (PostQueueError "Post content is empty" INVALID_CONTENT false).
Proof.
  intros post.
  apply (proj2 (blank_content_is_refused post Examples.facebook_page
                  eq_refl eq_refl)).
  reflexivity.
Defined.

(** ** Validation failures and the accepted post, end to end *)

Section EndToEnd.
Context (env : Env).

Lemma attempt_invalid post w r e :
  scheduled_posts w !! id post = Some r →
  PostQueue.validatePost post = Thrown e →
  PostQueue.attempt env post w =
    (Thrown e, written w (id post) (processing (clock env (reads w)) r)).
Proof.
  intros Hr Hinvalid. unfold PostQueue.attempt.
  rewrite (bind_run_returned _ _ _ _ _
             (updatePostStatus_found env _ _ _ _ _ Hr)).
  unfold bind at 1, PostQueue.lift at 1. rewrite Hinvalid. reflexivity.
Qed.

Lemma validatePost_thrown post e :
  PostQueue.validatePost post = Thrown e →
  e = PostQueueError "Access token missing" INVALID_TOKEN true
  ∨ ∃ message type, e = PostQueueError message type false.
Proof.
  unfold PostQueue.validatePost.
  destruct (social_accounts post) as [account|]; [| intros [= <-]; eauto].
  destruct (negb (is_active account)); [intros [= <-]; eauto |].
  destruct (negb (Js.truthy_trim (content (row post))));
    [intros [= <-]; eauto |].
  destruct (negb (Js.truthy (access_token account))); [| discriminate].
  intros [= <-]. auto.
Qed.

Lemma publishToFacebook_accepted post account text w b :
  content (row post) = Some text →
  Js.truthy (Js.trim text) = true →
  PostQueue.has_media post = false →
  room 2 (tracker w) →
  Facebook.valid_of
    (net env (length (trace w)) (Facebook.debug_token (access_token account)))
    = true →
  net env (length (trace w ++ [Facebook.debug_token (access_token account)]))
    (feed_request account text) = Answered true (Some b) →
  ∃ t2,
    PostQueue.publishToFacebook env post account w =
      (Returned {| PostQueue.result_platform_post_id :=
                     PostQueue.or_else (b_id b) (b_post_id b);
                   PostQueue.result_platform := "facebook" |},
       {| scheduled_posts := scheduled_posts w; tracker := t2;
          reads := S (S (reads w));
          trace := (trace w ++ [Facebook.debug_token (access_token account)])
                   ++ [feed_request account text] |}).
Proof.
  intros Hcontent Htext Hmedia Hroom Hvalid Hanswer.
  destruct (validateToken_room env (access_token account) w 2
              ltac:(lia) Hroom) as (t1 & Hroom1 & Htoken).
  unfold PostQueue.publishToFacebook, try_catch.
  rewrite (bind_run_returned _ _ _ _ _ Htoken), Hvalid.
  change (negb true) with false. cbv iota.
  rewrite Hcontent, Hmedia.
  match goal with
  | |- context [bind (Facebook.publishPagePost _ _ _ _) _ ?w1] =>
      destruct (publishPagePost_room env account text w1 1
                  ltac:(lia) Hroom1 Htext) as (t2 & _ & Hpost)
  end.
  exists t2. unfold bind. rewrite Hpost.
  cbn [trace reads scheduled_posts tracker]. rewrite Hanswer. reflexivity.
Qed.

End EndToEnd.

(** X18. A post whose row is in the table and that fails validation is
    settled without a request and without the rate gate.  It is marked
    failed at once, with the message of the validation, in every case but
    one: a missing access token is flagged retryable, so the post goes back
    in the queue, with its retry count plus one and the delay of that
    attempt, until its retry count reaches 3. *)
Theorem validation_failure_outcome (env : Env) (post : Post) (w : World)
    (r : Row) (e : JsError) :
  scheduled_posts w !! id post = Some r →
  PostQueue.validatePost post = Thrown e →
  0 ≤ default 0 (retry_count (row post)) →
  let out := PostQueue.processPost env post w in
  let tokenless := PostQueueError "Access token missing" INVALID_TOKEN true in
  let attempt := default 0 (retry_count (row post)) + 1 in
  let delay := if attempt =? 1 then 30000
               else if attempt =? 2 then 60000
               else 300000 in
  out.1 = Thrown e
  ∧ trace out.2 = trace w
  ∧ tracker out.2 = tracker w
  ∧ ∃ r', scheduled_posts out.2 !! id post = Some r'
          ∧ ((e = tokenless ∧ attempt ≤ 3
              ∧ rescheduled_from attempt e (clock env (S (S (reads w)))) delay
                  r r')
             ∨ ((e ≠ tokenless ∨ 3 < attempt) ∧ failed_from e r r')).
Proof.
  intros Hr Hinvalid Hcount out tokenless attempt delay. subst out.
  change (default 0 (retry_count (row post)))
    with (Js.or_zero (retry_count (row post))) in *.
  pose proof (attempt_invalid env post (Date_now env w).2 r e Hr Hinvalid)
    as Hatt.
  rewrite (processPost_run_thrown env post w _ _ Hatt).
  assert (PostQueue.shouldRetryPost post e = true
          ↔ e = tokenless
            ∧ Js.or_zero (retry_count (row post)) < PostQueue.maxRetries)
    as Hiff.
  { destruct (validatePost_thrown post e Hinvalid) as [->|(message & type & ->)].
    - split.
      + intros Hyes. split; [reflexivity |].
        eapply shouldRetryPost_true_count, Hyes.
      + intros [_ Hlt].
        apply shouldRetryPost_retryable; [exact Hlt | discriminate].
    - split; [discriminate |]. intros [Heq _]. discriminate. }
  unfold PostQueue.maxRetries in Hiff.
  destruct (PostQueue.shouldRetryPost post e) eqn:Hretry.
  - destruct (proj1 Hiff eq_refl) as [Htoken Hlt].
    pose proof (retryDelay_table (Js.or_zero (retry_count (row post)) + 1)
                  ltac:(lia)) as Hdelay.
    rewrite (handle_failure_retries env post e _
               (processing (clock env (S (reads w))) r) _ Hretry Hdelay
               (lookup_insert_eq _ _ _)).
    simpl. split; [reflexivity |]. split; [reflexivity |].
    split; [reflexivity |].
    eexists. split; [apply lookup_insert_eq |].
    left. split; [exact Htoken |]. split; [subst attempt; lia |].
    assert (delay = (if attempt =? 1 then 30000
                     else if attempt =? 2 then 60000
                     else if attempt =? 3 then 300000
                     else 900000)) as ->.
    { subst delay.
      destruct (Z.eqb_spec attempt 1); [reflexivity |].
      destruct (Z.eqb_spec attempt 2); [reflexivity |].
      destruct (Z.eqb_spec attempt 3); [reflexivity |].
      subst attempt. lia. }
    unfold rescheduled_from; simpl. auto 10.
  - rewrite (handle_failure_fails env post e _
               (processing (clock env (S (reads w))) r) Hretry
               (lookup_insert_eq _ _ _)).
    simpl. split; [reflexivity |]. split; [reflexivity |].
    split; [reflexivity |].
    eexists. split; [apply lookup_insert_eq |].
    right. split.
    + destruct (Z.lt_ge_cases 3 attempt) as [Hmany|Hfew]; [by right | left].
      intros Htoken. assert (false = true) as Habs; [| discriminate Habs].
      apply Hiff. split; [exact Htoken | subst attempt; lia].
    + unfold failed_from; simpl. auto 10.
Qed.

Lemma validation_failure_outcome_witness :
  let tokenless := {| platform := "facebook"; account_id := "page-1";
                      access_token := ""; is_active := true |} in
  let out := PostQueue.processPost Examples.all_ok
               (Examples.text_post 0 tokenless) (Examples.world 0 200) in
  out.1 = Thrown (PostQueueError "Access token missing" INVALID_TOKEN true)
  ∧ trace out.2 = []
  ∧ ∃ r', scheduled_posts out.2 !! "post-1" = Some r'
          ∧ status r' = SCHEDULED
          ∧ retry_count r' = Some 1
          ∧ scheduled_for r' = 1002 + 30000.
Proof.
  intros tokenless out.
  destruct (validation_failure_outcome Examples.all_ok
              (Examples.text_post 0 tokenless) (Examples.world 0 200)
              (Examples.text_row 0)
              (PostQueueError "Access token missing" INVALID_TOKEN true)
              eq_refl eq_refl ltac:(simpl; lia))
    as (Hout & Htrace & _ & r' & Hr' & Hcase).
  split; [exact Hout |]. split; [exact Htrace |].
  exists r'. split; [exact Hr' |].
  destruct Hcase as [(_ & _ & Hst & Hsched & Hcount & _)|[[Hne|Hmany] _]].
  - split; [exact Hst |]. split; [exact Hcount | exact Hsched].
  - by destruct Hne.
  - simpl in Hmany. lia.
Defined.

(** X19. A Facebook text post that passes validation, with its row in the
    table, room for two calls in the rate window, a token the introspection
    reports valid and a publishing request the platform accepts, is
    published: [processPost] returns the id of the answer, exactly the two
    requests were sent, and the row is posted with that id. *)
Theorem accepted_text_post_is_posted (env : Env) (post : Post)
    (account : Account) (text : string) (w : World) (r : Row) (b : Body) :
  scheduled_posts w !! id post = Some r →
  PostQueue.validatePost post = Returned tt →
  social_accounts post = Some account →
  platform account = "facebook" →
  content (row post) = Some text →
  no_media post →
  room 2 (tracker w) →
  reports_valid
    (net env (length (trace w)) (introspection_of (access_token account))) →
  net env (length (trace w ++ [introspection_of (access_token account)]))
    (feed_request account text) = Answered true (Some b) →
  let out := PostQueue.processPost env post w in
  let result := {| PostQueue.result_platform_post_id :=
                     first_nonempty (b_id b) (b_post_id b);
                   PostQueue.result_platform := "facebook" |} in
  out.1 = Returned result
  ∧ trace out.2 = trace w ++ [introspection_of (access_token account);
                              feed_request account text]
  ∧ ∃ r', scheduled_posts out.2 !! id post = Some r' ∧ posted_from result r r'.
Proof.
  intros Hr Hvalid Hacc Hplat Hcontent Hmedia Hroom Htoken Hanswer out result.
  subst out result.
  change introspection_of with Facebook.debug_token in *.
  repeat setoid_rewrite first_nonempty_or_else.
  apply valid_of_reports in Htoken.
  apply no_media_has_media in Hmedia.
  assert (Js.truthy (Js.trim text) = true) as Htext.
  { unfold PostQueue.validatePost in Hvalid. rewrite Hacc, Hcontent in Hvalid.
    destruct (negb (is_active account)); [discriminate |].
    unfold Js.truthy_trim in Hvalid.
    destruct (Js.truthy (Js.trim text)); [reflexivity | discriminate]. }
  set (w1 := written (Date_now env w).2 (id post)
               (processing (clock env (reads (Date_now env w).2)) r)).
  destruct (publishToFacebook_accepted env post account text w1 b
              Hcontent Htext Hmedia Hroom Htoken Hanswer) as (t2 & Hpub).
  assert (PostQueue.publishPost env post w1
          = PostQueue.publishToFacebook env post account w1) as Hdispatch.
  { unfold PostQueue.publishPost. rewrite Hacc, Hplat. reflexivity. }
  assert (∃ w', PostQueue.attempt env post (Date_now env w).2
                  = (Returned {| PostQueue.result_platform_post_id :=
                                   PostQueue.or_else (b_id b) (b_post_id b);
                                 PostQueue.result_platform := "facebook" |}, w')
                ∧ trace w' = trace w
                               ++ [Facebook.debug_token (access_token account);
                                   feed_request account text]
                ∧ ∃ r', scheduled_posts w' !! id post = Some r'
                        ∧ posted_from
                            {| PostQueue.result_platform_post_id :=
                                 PostQueue.or_else (b_id b) (b_post_id b);
                               PostQueue.result_platform := "facebook" |} r r')
    as (w' & Hatt & Htrace & Hrow).
  { rewrite (attempt_reaches_publisher env post (Date_now env w).2 r Hr Hvalid).
    fold w1.
    rewrite (bind_run_returned _ _ _ _ _ (eq_trans Hdispatch Hpub)).
    erewrite bind_run_returned;
      [| apply updatePostStatus_found; subst w1; simpl; apply lookup_insert_eq].
    unfold bind, Date_now, ret; subst w1; simpl.
    eexists. split; [reflexivity |]. simpl.
    split; [by rewrite <- app_assoc |].
    eexists. split; [apply lookup_insert_eq |].
    unfold posted_from; simpl. auto 10. }
  assert (PostQueue.processPost env post w
          = (Returned {| PostQueue.result_platform_post_id :=
                           PostQueue.or_else (b_id b) (b_post_id b);
                         PostQueue.result_platform := "facebook" |}, w'))
    as Hrun.
  { unfold PostQueue.processPost, bind, try_catch. simpl in Hatt |- *.
    by rewrite Hatt. }
  rewrite Hrun. simpl. auto.
Qed.

Lemma accepted_text_post_is_posted_witness :
  let out := PostQueue.processPost Examples.all_ok
               (Examples.text_post 1 Examples.facebook_page)
               (Examples.world 1 200) in
  out.1 = Returned {| PostQueue.result_platform_post_id := Some "fb-77";
                      PostQueue.result_platform := "facebook" |}
  ∧ trace out.2 = [{| endpoint := DebugToken;
                      params := [("input_token", "token-1")] |};
                   feed_request Examples.facebook_page "Open today"].
Proof.
  intros out.
  destruct (accepted_text_post_is_posted Examples.all_ok
              (Examples.text_post 1 Examples.facebook_page)
              Examples.facebook_page "Open today" (Examples.world 1 200)
              (Examples.text_row 1) Examples.ok_body
              eq_refl eq_refl eq_refl eq_refl eq_refl (or_intror eq_refl)
              ltac:(unfold room; simpl; lia)
              (ex_intro _ Examples.ok_body (conj eq_refl eq_refl)) eq_refl)
    as (Hout & Htrace & _).
  split; [exact Hout | exact Htrace].
Defined.

(** ** A denial between the two steps of an Instagram publish *)

Section BetweenSteps.
Context (env : Env).

Lemma checkLimit_granted_run w t' :
  RateLimit.checkLimit (clock env (reads w)) (tracker w) = (Returned tt, t') →
  checkLimit env w =
    (Returned tt,
     {| scheduled_posts := scheduled_posts w; tracker := t';
        reads := S (reads w); trace := trace w |}).
Proof. intros Hcheck. rewrite checkLimit_run, Hcheck. reflexivity. Qed.

Lemma createInstagramPost_granted account url text w t' :
  RateLimit.checkLimit (clock env (reads w)) (tracker w) = (Returned tt, t') →
  Js.truthy url = true → Js.truthy (Js.trim text) = true →
  Facebook.createInstagramPost env (account_id account)
    (access_token account) (Some url) (Some text) "IMAGE" w =
    (call_outcome
       (net env (length (trace w)) (media_request account url text))
       "Failed to create Instagram media" "INSTAGRAM_CREATE_FAILED",
     {| scheduled_posts := scheduled_posts w; tracker := t';
        reads := S (reads w);
        trace := trace w ++ [media_request account url text] |}).
Proof.
  intros Hcheck Hurl Htext. unfold Facebook.createInstagramPost.
  rewrite (bind_run_returned _ _ _ _ _ (checkLimit_granted_run w t' Hcheck)).
  simpl. rewrite Hurl, Htext. simpl. rewrite call_run. reflexivity.
Qed.

Lemma publishInstagramPost_denied account creation w e t' :
  RateLimit.checkLimit (clock env (reads w)) (tracker w) = (Thrown e, t') →
  Facebook.publishInstagramPost env (account_id account) creation
    (access_token account) w =
    (Thrown e,
     {| scheduled_posts := scheduled_posts w; tracker := t';
        reads := S (reads w); trace := trace w |}).
Proof.
  intros Hdeny. unfold Facebook.publishInstagramPost, bind.
  rewrite checkLimit_run, Hdeny. reflexivity.
Qed.

End BetweenSteps.

(** X20. The rate gate is asked once per call, not once per publish.  An
    Instagram publish that starts with room for exactly two calls in a
    window that stays open gets its token introspected and its container
    created, and is then refused the second step: the container request
    was sent, the publishing request was not, and the publisher throws a
    retryable [RATE_LIMIT] failure, so that the retry will ask for another
    container. *)
Theorem rate_limit_between_instagram_steps (env : Env) (post : Post)
    (account : Account) (text url : string) (others : list string)
    (created : Body) (w : World) :
  content (row post) = Some text →
  Js.truthy (Js.trim text) = true →
  media_urls (row post) = Some (url :: others) →
  Js.truthy url = true →
  RateLimit.requests (tracker w) + 2 = RateLimit.maxRequests (tracker w) →
  clock env (reads w) ≤ RateLimit.resetTime (tracker w) →
  clock env (S (reads w)) ≤ RateLimit.resetTime (tracker w) →
  clock env (S (S (reads w))) ≤ RateLimit.resetTime (tracker w) →
  reports_valid
    (net env (length (trace w)) (introspection_of (access_token account))) →
  net env (length (trace w ++ [introspection_of (access_token account)]))
    (media_request account url text) = Answered true (Some created) →
  let out := PostQueue.publishToInstagram env post account w in
  let wait :=
    Js.ceil_div
      (RateLimit.resetTime (tracker w) - clock env (S (S (reads w)))) 1000 in
  trace out.2 = trace w ++ [introspection_of (access_token account);
                            media_request account url text]
  ∧ RateLimit.requests (tracker out.2) = RateLimit.maxRequests (tracker w)
  ∧ out.1 = Thrown (PostQueueError
                      ("Rate limit exceeded. Try again in " +:+ pretty wait
                       +:+ " seconds.")
                      RATE_LIMIT true).
Proof.
  intros Hcontent Htext Hurls Hurl Hroom Hnow0 Hnow1 Hnow2 Hvalid Hanswer out
    wait.
  subst out wait.
  change introspection_of with Facebook.debug_token in *.
  repeat setoid_rewrite first_nonempty_or_else.
  apply valid_of_reports in Hvalid.
  assert (PostQueue.has_media post = true) as Hmedia
    by (unfold PostQueue.has_media; rewrite Hurls; reflexivity).
  assert (PostQueue.first_media post = Some url) as Hfirst
    by (unfold PostQueue.first_media; rewrite Hurls; reflexivity).
  pose proof (checkLimit_grants (clock env (reads w)) (tracker w)
                Hnow0 ltac:(lia)) as Hcheck0.
  pose proof (checkLimit_grants (clock env (S (reads w)))
                (RateLimit.bump (tracker w) 1)
                Hnow1 ltac:(simpl; lia)) as Hcheck1.
  pose proof (checkLimit_denies (clock env (S (S (reads w))))
                (RateLimit.bump (RateLimit.bump (tracker w) 1) 1)
                Hnow2 ltac:(simpl; lia)) as Hcheck2.
  unfold PostQueue.publishToInstagram, try_catch.
  rewrite Hmedia. change (negb true) with false. cbv iota.
  rewrite (bind_run_returned _ _ _ _ _
             (validateToken_granted env _ _ _ Hcheck0)), Hvalid.
  change (negb true) with false. cbv iota.
  rewrite Hcontent, Hfirst.
  set (w1 := {| scheduled_posts := scheduled_posts w;
                tracker := RateLimit.bump (tracker w) 1;
                reads := S (reads w);
                trace := trace w ++ [Facebook.debug_token (access_token account)] |}).
  set (w2 := {| scheduled_posts := scheduled_posts w;
                tracker := RateLimit.bump (RateLimit.bump (tracker w) 1) 1;
                reads := S (S (reads w));
                trace := trace w1 ++ [media_request account url text] |}).
  pose proof (createInstagramPost_granted env account url text w1 _ Hcheck1
                Hurl Htext) as Hcreate.
  cbn [trace w1] in Hcreate. rewrite Hanswer in Hcreate.
  rewrite (bind_run_returned _ _ _ _ _ Hcreate). cbv iota.
  pose proof (publishInstagramPost_denied env account (b_id created) w2 _ _
                Hcheck2) as Hpublish.
  rewrite (bind_run_thrown _ _ _ _ _ Hpublish).
  rewrite classify_RateLimitError by reflexivity.
  cbn [fst snd trace tracker w2 w1]. rewrite <- app_assoc.
  split; [reflexivity |]. split; [simpl; lia |]. reflexivity.
Qed.

Lemma rate_limit_between_instagram_steps_witness :
  let w := with_tracker (Examples.world 0 2) (Examples.fresh_tracker 2) in
  let out := PostQueue.publishToInstagram Examples.all_ok Examples.photo_post
               Examples.instagram_account w in
  trace out.2 = [{| endpoint := DebugToken;
                    params := [("input_token", "token-1")] |};
                 media_request Examples.instagram_account "img-1.jpg" "New menu"]
  ∧ RateLimit.requests (tracker out.2) = 2
  ∧ out.1 = Thrown (PostQueueError
                      "Rate limit exceeded. Try again in 3599 seconds."
                      RATE_LIMIT true).
Proof.
  intros w out.
  destruct (rate_limit_between_instagram_steps Examples.all_ok
              Examples.photo_post Examples.instagram_account
              "New menu" "img-1.jpg" [] Examples.ok_body w
              eq_refl eq_refl eq_refl eq_refl eq_refl
              ltac:(vm_compute; discriminate) ltac:(vm_compute; discriminate)
              ltac:(vm_compute; discriminate)
              (ex_intro _ Examples.ok_body (conj eq_refl eq_refl)) eq_refl)
    as (Htrace & Hcount & Hout).
  split; [exact Htrace |]. split; [exact Hcount | exact Hout].
Defined.

(** ** Cancelling while other calls are in flight *)

(** X21. What [cancelPost] does is decided by the posts it read, the
    earliest fifty of the user, and by nothing that happened since.  A post
    that is not among them is refused as not found; one read as [POSTED] is
    refused as already posted; in both cases [cancelPost] writes nothing.
    A post read in any other status is cancelled when the update reaches
    the database, whatever the row has become by then, a posted row
    included: its status and error message are overwritten and its other
    columns kept.  And when the row has gone by then the update fails, its
    result is not looked at, and [cancelPost] returns true all the same. *)
Theorem cancelPost_outcomes (meanwhile : World → World) (w : World)
    (postId userId : string) :
  let posts := Supabase.getScheduledPosts (scheduled_posts w) userId 50 in
  let out := PostQueue.cancelPost meanwhile postId userId w in
  ((∀ r, (postId, r) ∉ posts) →
     out = (Thrown (PostQueueError "Post not found or access denied"
                                   MISSING_ACCOUNT false),
            meanwhile w))
  ∧ (∀ r, (postId, r) ∈ posts → status r = POSTED →
       out = (Thrown (PostQueueError "Cannot cancel already posted content"
                                     INVALID_CONTENT false),
              meanwhile w))
  ∧ (∀ r r1, (postId, r) ∈ posts → status r ≠ POSTED →
       scheduled_posts (meanwhile w) !! postId = Some r1 →
       ∃ r', out = (Returned true,
                    with_posts (meanwhile w)
                      (<[postId := r']> (scheduled_posts (meanwhile w))))
             ∧ cancelled_from r1 r')
  ∧ (∀ r, (postId, r) ∈ posts → status r ≠ POSTED →
       scheduled_posts (meanwhile w) !! postId = None →
       out = (Returned true, meanwhile w)).
Proof.
  intros posts out. subst posts out.
  rewrite cancelPost_run. change Supabase.default_limit with 50%nat.
  refine (conj _ (conj _ (conj _ _))).
  - intros Hnone. by rewrite cancelPost_check_missing.
  - intros r Hin Hposted.
    by rewrite (cancelPost_check_refused _ _ _ _ r Hin Hposted).
  - intros r r1 Hin Hnot Hr1.
    rewrite (cancelPost_check_found _ _ _ _ r Hin Hnot).
    unfold PostQueue.cancelPost_write, bind, Supabase.updateScheduledPost.
    rewrite Hr1. eexists. split; [reflexivity |].
    unfold cancelled_from; simpl. auto 10.
  - intros r Hin Hnot Hgone.
    rewrite (cancelPost_check_found _ _ _ _ r Hin Hnot).
    unfold PostQueue.cancelPost_write, bind, Supabase.updateScheduledPost.
    rewrite Hgone. reflexivity.
Qed.

(** The theorem on the one scheduled post: cancelled by its owner with no
    other call in flight; refused to another user; and, once published,
    refused to its owner. *)
Lemma cancelPost_outcomes_witness :
  (∃ r', PostQueue.cancelPost (fun w => w) "post-1" "user-1"
           (Examples.world 0 200) =
           (Returned true,
            with_posts (Examples.world 0 200)
              (<["post-1" := r']> (scheduled_posts (Examples.world 0 200))))
         ∧ status r' = CANCELLED
         ∧ error_message_of r' = Some "Cancelled by user")
  ∧ PostQueue.cancelPost (fun w => w) "post-1" "user-2" (Examples.world 0 200)
    = (Thrown (PostQueueError "Post not found or access denied"
                              MISSING_ACCOUNT false),
       Examples.world 0 200)
  ∧ (let published :=
       (PostQueue.processPost Examples.all_ok
          (Examples.text_post 0 Examples.facebook_page)
          (Examples.world 0 200)).2 in
     PostQueue.cancelPost (fun w => w) "post-1" "user-1" published
     = (Thrown (PostQueueError "Cannot cancel already posted content"
                               INVALID_CONTENT false),
        published)).
Proof.
  refine (conj _ (conj _ _)).
  - destruct (proj1 (proj2 (proj2
                (cancelPost_outcomes (fun w => w) (Examples.world 0 200)
                   "post-1" "user-1")))
              (Examples.text_row 0) (Examples.text_row 0))
      as (r' & Hrun & Hst & Hmsg & _).
    + vm_compute. apply list_elem_of_here.
    + discriminate.
    + reflexivity.
    + exists r'. split; [exact Hrun |]. split; [exact Hst | exact Hmsg].
  - apply (proj1 (cancelPost_outcomes (fun w => w) (Examples.world 0 200)
                    "post-1" "user-2")).
    intros r Hin. vm_compute in Hin. by apply elem_of_nil in Hin.
  - intros published.
    eapply (proj1 (proj2 (cancelPost_outcomes (fun w => w) published
                            "post-1" "user-1"))).
    + vm_compute. apply list_elem_of_here.
    + reflexivity.
Defined.

(** ** The posts a query returns *)

Section Fetch.

Lemma NoDup_fst_sublist (l k : list (string * Row)) :
  sublist l k → NoDup k.*1 → NoDup l.*1.
Proof.
  intros Hsub Hk.
  exact (sublist_NoDup _ _ Hk (fmap_sublist fst _ _ Hsub)).
Qed.

End Fetch.

(** X22. [getScheduledPosts] answers with rows of the table that belong
    to the user, each once, at most [limit] of them, in ascending order of
    their scheduled time.  A row of the user that is left out is left out
    because the limit was reached, and every row returned is scheduled no
    later than it: the answer holds the earliest posts, so with more than
    [limit] posts the latest ones are out of reach of the functions that
    look a post up in it. *)
Theorem getScheduledPosts_earliest (table : gmap string Row)
    (userId : string) (limit : nat) :
  let posts := Supabase.getScheduledPosts table userId limit in
  (length posts ≤ limit)%nat
  ∧ StronglySorted (fun a b => scheduled_for a.2 ≤ scheduled_for b.2) posts
  ∧ NoDup posts.*1
  ∧ (∀ i r, (i, r) ∈ posts → table !! i = Some r ∧ user_id r = userId)
  ∧ (∀ i r, table !! i = Some r → user_id r = userId → (i, r) ∉ posts →
       length posts = limit
       ∧ ∀ j q, (j, q) ∈ posts → scheduled_for q ≤ scheduled_for r).
Proof.
  intros posts. subst posts. unfold Supabase.getScheduledPosts.
  set (owned := filter (fun kv : string * Row => user_id kv.2 = userId)
                  (map_to_list table)).
  set (sorted := merge_sort Supabase.by_scheduled_for owned).
  assert (StronglySorted Supabase.by_scheduled_for sorted) as Hsorted.
  { apply StronglySorted_merge_sort; apply _. }
  rewrite <- (take_drop limit sorted) in Hsorted.
  refine (conj _ (conj _ (conj _ (conj _ _)))).
  - rewrite length_take. lia.
  - exact (StronglySorted_app_1_l _ _ _ Hsorted).
  - apply (NoDup_fst_sublist _ sorted); [apply sublist_take |].
    subst sorted. rewrite merge_sort_Permutation.
    apply (NoDup_fst_sublist _ (map_to_list table));
      [apply sublist_filter | apply NoDup_fst_map_to_list].
  - intros i r Hin.
    apply (getScheduledPosts_sound table userId limit i r Hin).
  - intros i r Hr Huser Hout.
    assert ((i, r) ∈ sorted) as Hin.
    { subst sorted. rewrite merge_sort_Permutation.
      apply list_elem_of_filter. split; [exact Huser |].
      by apply elem_of_map_to_list. }
    rewrite <- (take_drop limit sorted) in Hin.
    apply elem_of_app in Hin as [Hin|Hin]; [by destruct Hout |].
    split.
    + rewrite length_take. apply Nat.min_l.
      destruct (Nat.le_gt_cases limit (length sorted)) as [Hle|Hgt];
        [exact Hle |].
      rewrite drop_ge in Hin by lia. by apply elem_of_nil in Hin.
    + intros j q Hjq.
      apply (StronglySorted_app_1_elem_of _ _ _ (j, q) (i, r) Hsorted Hjq Hin).
Qed.

(** The theorem on a user with fifty posts published at times 1 to 50
    and one more scheduled for time 500: a query for fifty posts leaves the
    scheduled one out, so its owner can neither cancel it nor see it. *)
Lemma getScheduledPosts_earliest_witness :
  Crowded.table !! "post-1" = Some (Examples.text_row 0)
  ∧ length (Supabase.getScheduledPosts Crowded.table "user-1" 50) = 50%nat
  ∧ (∀ j q, (j, q) ∈ Supabase.getScheduledPosts Crowded.table "user-1" 50 →
       scheduled_for q ≤ 500)
  ∧ (PostQueue.cancelPost (fun w => w) "post-1" "user-1" Crowded.world).1
    = Thrown (PostQueueError "Post not found or access denied"
                             MISSING_ACCOUNT false).
Proof.
  assert (("post-1", Examples.text_row 0)
            ∉ Supabase.getScheduledPosts Crowded.table "user-1" 50) as Hout.
  { intros Hin. vm_compute in Hin.
    repeat (apply elem_of_cons in Hin as [Hin|Hin]; [discriminate Hin |]).
    by apply elem_of_nil in Hin. }
  destruct (proj2 (proj2 (proj2 (proj2
              (getScheduledPosts_earliest Crowded.table "user-1" 50))))
              "post-1" (Examples.text_row 0) eq_refl eq_refl Hout)
    as [Hfull Hearlier].
  split; [reflexivity |]. split; [exact Hfull |]. split; [exact Hearlier |].
  vm_compute. reflexivity.
Defined.
